(** * PhotOrganiser: a shallow embedding of [photOrganiser.py]

    The script walks a directory tree, reads the IPTC keyword tags of every
    image with the [exiv2] tool, extracts a year from the tags and moves
    each image into a folder named after that year.

    Conventions of the embedding.
    - A Python [str] is a [string]: a sequence of characters with code
      points below 256.  Inside that range [\d] matches the ten ASCII
      digits only and the letters of "date" have no case variants other
      than their ASCII ones, which is what the character predicates below
      implement.
    - A resolved [pathlib.Path] is the list of its components below "/".
    - The operating system is a state: a file system (a finite map from
      paths to nodes, without symbolic links or permissions), the log
      file, the console and the global [_verbose_output].  The external
      inputs (what [exiv2] prints, how a path string resolves or what the
      resolution raises, the values drawn by [uuid.uuid4], whether a write
      to the log file fails) are read from an environment record.
    - An exception is a value of [exn]; a computation that may raise
      returns [exn + A] next to the state it leaves behind, so whatever
      was done before the exception stays done. *)

From stdpp Require Import base option list gmap strings.
From Stdlib Require Import String Ascii Permutation.

Open Scope string_scope.

(** ** Characters and strings *)

Module Text.

Definition code (c : ascii) : nat := nat_of_ascii c.

(** [\d] of the [re] module: a decimal digit.  Among the code points
    below 256, the characters of this embedding, these are the ten digits
    of ASCII; the digits of other scripts, which [\d] matches too, lie
    above. *)
Definition is_digit (c : ascii) : bool :=
  (48 <=? code c)%nat && (code c <=? 57)%nat.

(** The only character that [.] refuses (no DOTALL flag). *)
Definition is_newline (c : ascii) : bool := (code c =? 10)%nat.

(** [str.isspace]: the characters at which [str.split()] cuts. *)
Definition is_space (c : ascii) : bool :=
  let n := code c in
  ((9 <=? n)%nat && (n <=? 13)%nat)
  || ((28 <=? n)%nat && (n <=? 32)%nat)
  || (n =? 133)%nat || (n =? 160)%nat.

(** The line boundaries of [str.splitlines], CR LF apart. *)
Definition is_linebreak (c : ascii) : bool :=
  let n := code c in
  ((10 <=? n)%nat && (n <=? 13)%nat)
  || ((28 <=? n)%nat && (n <=? 30)%nat)
  || (n =? 133)%nat.

Definition is_lower (c : ascii) : bool :=
  (97 <=? code c)%nat && (code c <=? 122)%nat.

(** [str.upper] on one character, exact on ASCII.  The letters above 127
    are left alone; their upper-case forms, whether in the range or not,
    contain no letter of the allow-list of file types, the one place where
    the script calls [upper] on text it does not choose. *)
Definition upper_char (c : ascii) : ascii :=
  if is_lower c then ascii_of_nat (code c - 32) else c.

Fixpoint upper (s : string) : string :=
  match s with
  | EmptyString => EmptyString
  | String c s' => String (upper_char c) (upper s')
  end.

(** Equality of two characters under IGNORECASE. *)
Definition eq_nocase (a b : ascii) : bool :=
  Ascii.eqb (upper_char a) (upper_char b).

Definition snoc (s : string) (c : ascii) : string :=
  s ++ String c EmptyString.

(** [str.split()] with no argument: the maximal runs of characters that are
    not white space.  [cur] is the field being read. *)
Fixpoint split_from (cur s : string) : list string :=
  match s with
  | EmptyString => if String.eqb cur "" then [] else [cur]
  | String c s' =>
      if is_space c
      then (if String.eqb cur "" then split_from "" s'
            else cur :: split_from "" s')
      else split_from (snoc cur c) s'
  end.

Definition split (s : string) : list string := split_from "" s.

(** [str.splitlines()]: a line ends at a boundary character, CR LF counts
    as one boundary, and a final boundary opens no empty last line. *)
Fixpoint splitlines_from (cur s : string) : list string :=
  match s with
  | EmptyString => if String.eqb cur "" then [] else [cur]
  | String c s' =>
      if (code c =? 13)%nat
      then match s' with
           | String d s'' =>
               if (code d =? 10)%nat then cur :: splitlines_from "" s''
               else cur :: splitlines_from "" s'
           | EmptyString => cur :: splitlines_from "" s'
           end
      else if is_linebreak c then cur :: splitlines_from "" s'
      else splitlines_from (snoc cur c) s'
  end.

Definition splitlines (s : string) : list string := splitlines_from "" s.

(** [sep.join(l)]. *)
Definition join (sep : string) (l : list string) : string :=
  String.concat sep l.

Fixpoint all_chars (p : ascii -> bool) (s : string) : bool :=
  match s with
  | EmptyString => true
  | String c s' => p c && all_chars p s'
  end.

(** [s.rfind(".")], as the index counted in characters, if any. *)
Fixpoint rfind_dot (s : string) : option nat :=
  match s with
  | EmptyString => None
  | String c s' =>
      match rfind_dot s' with
      | Some i => Some (S i)
      | None => if Ascii.eqb c "." then Some 0 else None
      end
  end.

Fixpoint drop_chars (n : nat) (s : string) : string :=
  match n, s with
  | O, _ => s
  | S n', String _ s' => drop_chars n' s'
  | S _, EmptyString => EmptyString
  end.

(** [s.strip(".")]: dots removed at both ends. *)
Fixpoint lstrip_dots (s : string) : string :=
  match s with
  | String c s' => if Ascii.eqb c "." then lstrip_dots s' else s
  | EmptyString => EmptyString
  end.

Fixpoint rstrip_dots (s : string) : string :=
  match s with
  | EmptyString => EmptyString
  | String c s' =>
      match rstrip_dots s' with
      | EmptyString => if Ascii.eqb c "." then EmptyString else String c EmptyString
      | r => String c r
      end
  end.

Definition strip_dots (s : string) : string := rstrip_dots (lstrip_dots s).

End Text.

(** ** The year pattern

    [re.search(r"(?i)date.*(\d{4}?)", tag, re.IGNORECASE)], specialised to
    its pattern.  The engine tries the start positions from left to right;
    at a start it needs the four letters of "date" in any case, then lets
    [.*] run as far as it can over characters other than the newline and
    gives characters back one at a time until four digits follow.  The lazy
    mark on [{4}] changes nothing, the count being fixed.  The result is
    [None] for no match and otherwise group 1 of the match object. *)

Module Re.
Import Text.

(** The four characters at the head of [s], when all are digits. *)
Definition digits4 (s : string) : option string :=
  match s with
  | String a (String b (String c (String d _))) =>
      if is_digit a && is_digit b && is_digit c && is_digit d
      then Some (String a (String b (String c (String d EmptyString))))
      else None
  | _ => None
  end.

(** [.*(\d{4}?)] matched at the head of [s]: longest [.*] first. *)
Fixpoint dotstar_year (s : string) : option string :=
  match s with
  | EmptyString => None
  | String c s' =>
      if is_newline c then None
      else match dotstar_year s' with
           | Some g => Some g
           | None => digits4 s
           end
  end.

(** The literal "date" at the head of [s], any case; what follows it. *)
Definition after_date (s : string) : option string :=
  match s with
  | String a (String b (String c (String d rest))) =>
      if eq_nocase a "d" && eq_nocase b "a" && eq_nocase c "t" && eq_nocase d "e"
      then Some rest else None
  | _ => None
  end.

Definition match_here (s : string) : option string :=
  match after_date s with
  | Some rest => dotstar_year rest
  | None => None
  end.

Fixpoint search (s : string) : option string :=
  match match_here s with
  | Some g => Some g
  | None => match s with
            | EmptyString => None
            | String _ s' => search s'
            end
  end.

End Re.

(** ** Paths and the file system *)

Open Scope list_scope.

Abbreviation path := (list string).

Module Path.
Import Text.

(** [p.name]: the last component. *)
Definition name (p : path) : string := List.last p "".

(** [p.parent]. *)
Definition parent (p : path) : path := removelast p.

(** [p.suffix]: the part of the name from its last dot on, unless that dot
    opens or closes the name. *)
Definition suffix (p : path) : string :=
  let n := name p in
  match rfind_dot n with
  | Some i =>
      if (0 <? i)%nat && (i <? String.length n - 1)%nat
      then drop_chars i n else ""
  | None => ""
  end.

(** [p] lies strictly below [root]. *)
Fixpoint below (root p : path) : bool :=
  match root, p with
  | [], _ :: _ => true
  | r :: root', c :: p' => String.eqb r c && below root' p'
  | _, _ => false
  end.

(** [p] is [root] or lies below it. *)
Definition within (root p : path) : bool :=
  bool_decide (root = p) || below root p.

End Path.

Inductive node := File (content : string) | Dir.

#[global] Instance node_eq_dec : EqDecision node.
Proof. solve_decision. Defined.

Abbreviation fsys := (gmap (list string) node).

(** The exceptions the script can meet.  [ShutilError] is [shutil.Error];
    every constructor is an [Exception].  [UnicodeEncodeError] is a
    subclass of [ValueError], so that [except ValueError] takes it;
    [OSError] stands for the errors of the operating system that have no
    constructor of their own ([PermissionError], a name too long, a full
    disk). *)
Inductive exn :=
  | ValueError (msg : string)
  | UnicodeEncodeError (msg : string)
  | FileNotFoundError
  | FileExistsError
  | NotADirectoryError
  | OSError
  | RuntimeError
  | ShutilError
  | TypeError
  | NameError
  | UnboundLocalError.

#[global] Instance exn_eq_dec : EqDecision exn.
Proof. solve_decision. Defined.

Module Fs.
Import Path.

(** What is at [p]; the root "/" is always a directory. *)
Definition node_at (fs : fsys) (p : path) : option node :=
  match p with
  | [] => Some Dir
  | _ => fs !! p
  end.

Definition is_file (fs : fsys) (p : path) : bool :=
  match node_at fs p with Some (File _) => true | _ => false end.

Definition is_dir (fs : fsys) (p : path) : bool :=
  match node_at fs p with Some Dir => true | _ => false end.

Definition exists_ (fs : fsys) (p : path) : bool :=
  match node_at fs p with Some _ => true | None => false end.

(** Every entry sits in a directory. *)
Definition wf (fs : fsys) : Prop :=
  map_Forall (λ p _, p ≠ [] ∧ is_dir fs (parent p) = true) fs.

#[global] Instance wf_dec fs : Decision (wf fs).
Proof. unfold wf. apply _. Defined.

(** [root.rglob("*")]: everything below a directory, in the order the
    system lists it. *)
Definition rglob (fs : fsys) (root : path) : list path :=
  if is_dir fs root
  then filter (λ p, below root p) (map_to_list fs).*1
  else [].

(** [p.mkdir(parents=True, exist_ok=True)], walking down from "/":
    directories on the way are kept, missing ones are made, and a regular
    file in the way is an error ([FileExistsError] when it has the name of
    the directory asked for, [NotADirectoryError] above it). *)
Fixpoint mkdir_from (done : path) (todo : list string) (fs : fsys) : exn + fsys :=
  match todo with
  | [] => inr fs
  | c :: todo' =>
      let p := done ++ [c] in
      match fs !! p with
      | Some Dir => mkdir_from p todo' fs
      | Some (File _) =>
          inl (match todo' with [] => FileExistsError | _ => NotADirectoryError end)
      | None => mkdir_from p todo' (<[p := Dir]> fs)
      end
  end.

Definition mkdir (p : path) (fs : fsys) : exn + fsys := mkdir_from [] p fs.

(** The entries of the tree at [src] re-rooted at [dst]. *)
Definition rebase (src dst p : path) : path := dst ++ drop (List.length src) p.

Definition move_tree (src dst : path) (fs : fsys) : fsys :=
  list_to_map
    (map (λ e : path * node,
            (if within src e.1 then rebase src dst e.1 else e.1, e.2))
         (map_to_list fs)).

Definition is_empty_dir (fs : fsys) (p : path) : bool :=
  is_dir fs p && bool_decide (filter (λ q, below p q) (map_to_list fs).*1 = []).

(** [os.rename(src, dst)] (POSIX). *)
Definition rename (src dst : path) (fs : fsys) : exn + fsys :=
  match node_at fs src with
  | None => inl FileNotFoundError
  | Some (File c) =>
      if bool_decide (src = dst) then inr fs
      else match node_at fs dst with
           | Some Dir => inl OSError
           | Some (File _) => inr (<[dst := File c]> (delete src fs))
           | None =>
               match node_at fs (parent dst) with
               | Some Dir => inr (<[dst := File c]> (delete src fs))
               | Some (File _) => inl NotADirectoryError
               | None => inl FileNotFoundError
               end
           end
  | Some Dir =>
      if bool_decide (src = dst) then inr fs
      else if within src dst then inl OSError
      else match src with
           | [] => inl OSError
           | _ =>
               match node_at fs dst with
               | Some (File _) => inl NotADirectoryError
               | Some Dir =>
                   if is_empty_dir fs dst
                   then inr (move_tree src dst (delete dst fs))
                   else inl OSError
               | None =>
                   match node_at fs (parent dst) with
                   | Some Dir => inr (move_tree src dst fs)
                   | Some (File _) => inl NotADirectoryError
                   | None => inl FileNotFoundError
                   end
               end
           end
  end.

(** [shutil.move(src, dst)].  A destination that is a directory receives
    the source under its own name, and refuses with [shutil.Error] when
    that name is taken; moving a directory onto itself does nothing and
    returns [None].  Otherwise the source is renamed to [real_dst], which
    is returned.  Where the rename fails, a directory is refused with
    [shutil.Error] if the destination lies inside it and is else copied as
    a tree ([os.makedirs] first, which wants [real_dst] absent and makes
    the missing parents) and removed; a regular or missing source is handed
    to [copy2], which fails the way the rename did. *)
Definition shutil_move (src dst : path) (fs : fsys) : (exn + option path) * fsys :=
  let attempt (real_dst : path) :=
    match rename src real_dst fs with
    | inr fs' => (inr (Some real_dst), fs')
    | inl e =>
        if is_dir fs src then
          if within src dst then (inl ShutilError, fs)
          else if exists_ fs real_dst then (inl FileExistsError, fs)
          else match mkdir (parent real_dst) fs with
               | inl _ => (inl NotADirectoryError, fs)
               | inr fs' => (inr (Some real_dst), move_tree src real_dst fs')
               end
        else (inl e, fs)
    end in
  if is_dir fs dst then
    if bool_decide (src = dst) then (inr None, fs)
    else
      let real_dst := dst ++ [name src] in
      if exists_ fs real_dst then (inl ShutilError, fs) else attempt real_dst
  else attempt dst.

End Fs.

(** ** The script's constants and records *)

Module AVAILABLE_META_TYPES.
Definition IPTC : string := "IPTC".
Definition ALL : list string := [IPTC].
End AVAILABLE_META_TYPES.

Module AVAILABLE_TAG_TYPES.
Definition KEYWORDS : string := "KEYWORDS".
Definition ALL : list string := [KEYWORDS].
End AVAILABLE_TAG_TYPES.

Module AVAILABLE_TAG_INFO_SEARCH.
Definition YEAR : string := "YEAR".
Definition ALL : list string := [YEAR].
End AVAILABLE_TAG_INFO_SEARCH.

Module AVAILABLE_FILE_TYPES.
Definition JPG : string := "JPG".
Definition JPEG : string := "JPEG".
Definition TIF : string := "TIF".
Definition TIFF : string := "TIFF".
Definition PNG : string := "PNG".
Definition ALL : list string := [JPG; JPEG; TIF; TIFF; PNG].
End AVAILABLE_FILE_TYPES.

(** The dictionary built by [_get_iptc_keywords] for one file. *)
Record TagReadResult := {
  tr_file_path : path;
  tr_tags : list string;
  tr_errors : string
}.

(** The dictionary built by [find_target_tags] for one file; [mr_toi] is
    the tag of interest, [None] for Python's [None]. *)
Record MatchResult := {
  mr_file_path : path;
  mr_toi : option string;
  mr_errors : string
}.

(** The two dictionaries of [_move_images].  [mf_error] stands for
    [str(e)]: the exception is kept instead of its text. *)
Record MoveSuccess := {
  ms_new_filepath : path;
  ms_old_filepath : path
}.

Record MoveFailure := {
  mf_old_filepath : path;
  mf_error : exn
}.

#[global] Instance TagReadResult_eq_dec : EqDecision TagReadResult.
Proof. solve_decision. Defined.
#[global] Instance MatchResult_eq_dec : EqDecision MatchResult.
Proof. solve_decision. Defined.
#[global] Instance MoveSuccess_eq_dec : EqDecision MoveSuccess.
Proof. solve_decision. Defined.
#[global] Instance MoveFailure_eq_dec : EqDecision MoveFailure.
Proof. solve_decision. Defined.

(** What [_v] is called with: one constructor per message of the script,
    holding the values its text is formatted from. *)
Inductive message :=
  | MsgNotMoving
  | MsgFound (n : nat) (root : path)
  | MsgExcluded (n : nat) (root : path)
  | MsgFoundList (l : list path)
  | MsgExcludedList (l : list path)
  | MsgTagsRead (l : list TagReadResult)
  | MsgMatches (l : list MatchResult)
  | MsgMoved (l : list MoveSuccess)
  | MsgFailed (l : list MoveFailure).

(** What reaches the console: a [print] of a text, the progress line of
    [_show_progress], or a message echoed by [_v]. *)
Inductive output :=
  | Print (s : string)
  | Progress (current total : nat)
  | Echo (m : message).

(** ** The world and the monad of the script *)

(** What [Path(s).resolve(strict=True)] raises when it does not return:
    [FileNotFoundError] when a component of the path does not exist,
    [NotADirectoryError] when one that is not the last is a regular file,
    [ValueError] when the text holds a null byte, [RuntimeError] at a loop
    of symbolic links, and another [OSError] (no permission to search a
    directory, a name too long). *)
Inductive resolve_failure :=
  | Missing
  | BelowFile
  | NullByte
  | SymlinkLoop
  | Unreadable.

Definition resolve_exn (f : resolve_failure) : exn :=
  match f with
  | Missing => FileNotFoundError
  | BelowFile => NotADirectoryError
  | NullByte => ValueError "embedded null byte"
  | SymlinkLoop => RuntimeError
  | Unreadable => OSError
  end.

(** What a write to the log file raises when it fails: [OSError] when the
    file cannot be opened or written, [UnicodeEncodeError] with its text
    when the entry cannot be encoded. *)
Inductive write_failure :=
  | CannotWrite
  | CannotEncode (msg : string).

Definition write_exn (f : write_failure) : exn :=
  match f with
  | CannotWrite => OSError
  | CannotEncode msg => UnicodeEncodeError msg
  end.

(** The inputs the script does not control: [e_resolve s] is
    [Path(s).resolve(strict=True)], [None] when the call raises, and
    [e_unresolved s] is then what it raises; [e_exiv2] is the installed
    tool, giving the standard output and the standard error of
    [exiv2 -PI f], [None] when there is no such executable; [e_uuid4 n]
    is the text of the n-th [uuid.uuid4()]; [e_write_log n m] tells
    whether the n-th call of [_write_log], made for the message [m],
    fails, and how. *)
Record env := {
  e_resolve : string → option path;
  e_unresolved : string → resolve_failure;
  e_exiv2 : option (path → string * string);
  e_uuid4 : nat → string;
  e_write_log : nat → message → option write_failure
}.

(** What the script changes: the file system, the entries appended to
    [photOrganiser.log], the console, the global [_verbose_output]
    ([None] until [execute] assigns it), the number of UUIDs drawn and the
    number of calls of [_write_log] made. *)
Record world := {
  w_fs : fsys;
  w_log : list message;
  w_out : list output;
  w_verbose : option bool;
  w_draws : nat;
  w_writes : nat
}.

Definition M (A : Type) : Type := world → (exn + A) * world.

#[global] Instance M_ret : MRet M := λ A (a : A) w, (inr a, w).

#[global] Instance M_bind : MBind M := λ A B (f : A → M B) (m : M A) w,
  match m w with
  | (inr a, w') => f a w'
  | (inl e, w') => (inl e, w')
  end.

Definition raise {A} (e : exn) : M A := λ w, (inl e, w).

Definition get : M world := λ w, (inr w, w).

Definition modify (f : world → world) : M unit := λ w, (inr (), f w).

Definition lift {A} (r : exn + A) : M A := λ w, (r, w).

(** [try: body except ...: handler]: [handler e] is the except clause that
    takes [e], if one does. *)
Definition try_except {A} (body : M A) (handler : exn → option (M A)) : M A :=
  λ w, match body w with
       | (inl e, w') =>
           match handler e with
           | Some h => h w'
           | None => (inl e, w')
           end
       | r => r
       end.

(** [except Exception]. *)
Definition except_Exception {A} (h : exn → M A) : exn → option (M A) :=
  λ e, Some (h e).

(** [except shutil.Error]. *)
Definition except_shutil_Error {A} (h : M A) : exn → option (M A) :=
  λ e, match e with ShutilError => Some h | _ => None end.

Definition set_fs (fs : fsys) (w : world) : world :=
  {| w_fs := fs; w_log := w_log w; w_out := w_out w;
     w_verbose := w_verbose w; w_draws := w_draws w;
     w_writes := w_writes w |}.

Definition add_log (m : message) (w : world) : world :=
  {| w_fs := w_fs w; w_log := w_log w ++ [m]; w_out := w_out w;
     w_verbose := w_verbose w; w_draws := w_draws w;
     w_writes := w_writes w |}.

Definition add_out (o : output) (w : world) : world :=
  {| w_fs := w_fs w; w_log := w_log w; w_out := w_out w ++ [o];
     w_verbose := w_verbose w; w_draws := w_draws w;
     w_writes := w_writes w |}.

Definition set_verbose (v : bool) (w : world) : world :=
  {| w_fs := w_fs w; w_log := w_log w; w_out := w_out w;
     w_verbose := Some v; w_draws := w_draws w; w_writes := w_writes w |}.

Definition next_draw (w : world) : world :=
  {| w_fs := w_fs w; w_log := w_log w; w_out := w_out w;
     w_verbose := w_verbose w; w_draws := S (w_draws w);
     w_writes := w_writes w |}.

Definition next_write (w : world) : world :=
  {| w_fs := w_fs w; w_log := w_log w; w_out := w_out w;
     w_verbose := w_verbose w; w_draws := w_draws w;
     w_writes := S (w_writes w) |}.

Definition print (s : string) : M unit := modify (add_out (Print s)).

Definition newline : string := String "010"%char EmptyString.

(** Python's truth value of a [str]. *)
Definition truthy (s : string) : bool := negb (String.eqb s "").

(** ** The functions of the script *)

(** A local variable of a Python function: unbound until first assigned. *)
Inductive local (A : Type) :=
  | Unbound
  | Bound (a : A).
Arguments Unbound {A}.
Arguments Bound {A} a.

Section Script.

Variable E : env.

(** [_write_log]: one more entry in the log file (the time stamp and the
    header written into an empty file are left out of the entry), unless
    the file cannot be opened or the entry cannot be written, which
    raises and leaves the entries as they were. *)
Definition _write_log (m : message) : M unit :=
  w ← get;
  modify next_write;;
  match e_write_log E (w_writes w) m with
  | Some f => raise (write_exn f)
  | None => modify (add_log m)
  end.

(** [_v]: the echo reads the global, which must have been assigned. *)
Definition _v (m : message) : M unit :=
  w ← get;
  match w_verbose w with
  | None => raise NameError
  | Some v =>
      (if v then modify (add_out (Echo m)) else mret ());;
      _write_log m
  end.

Definition _show_progress (current total : nat) : M unit :=
  modify (add_out (Progress current total)).

(** The test of [_get_files] on one path. *)
Definition supported (p : path) : bool :=
  bool_decide (Text.strip_dots (Text.upper (Path.suffix p)) ∈ AVAILABLE_FILE_TYPES.ALL).

(** The loop of [_get_files]. *)
Fixpoint classify (found valid_paths excluded_paths : list path)
  : list path * list path :=
  match found with
  | [] => (valid_paths, excluded_paths)
  | p :: rest =>
      if supported p
      then classify rest (valid_paths ++ [p]) excluded_paths
      else classify rest valid_paths (excluded_paths ++ [p])
  end.

Definition found_paths (fs : fsys) (root_dir : path) : list path :=
  filter (λ p, Fs.is_file fs p) (Fs.rglob fs root_dir).

Definition _get_files (root_dir : path) : M (list path * list path) :=
  w ← get;
  mret (classify (found_paths (w_fs w) root_dir) [] []).

(** The inner loop of [_get_iptc_keywords] over the lines of the output. *)
Fixpoint read_tags (meta_data : list string) (tags : list string) : list string :=
  match meta_data with
  | [] => tags
  | item :: rest =>
      let item_data := Text.split item in
      read_tags rest (tags ++ [Text.join " " (drop 3 item_data)])
  end.

(** [subprocess.run(["exiv2", "-PI", f], ...)]: the pair of [read.stdout]
    and [read.stderr]. *)
Definition subprocess_run (f : path) : M (string * string) :=
  match e_exiv2 E with
  | None => raise FileNotFoundError
  | Some tool => mret (tool f)
  end.

Fixpoint read_files (file_paths : list path) (idx total : nat)
    (results : list TagReadResult) : M (list TagReadResult) :=
  match file_paths with
  | [] => mret results
  | f :: rest =>
      read ← subprocess_run f;
      let meta_data := Text.splitlines read.1 in
      let tags := read_tags meta_data [] in
      let results := results ++
        [{| tr_file_path := f; tr_tags := tags; tr_errors := read.2 |}] in
      _show_progress idx total;;
      read_files rest (S idx) total results
  end.

Definition _get_iptc_keywords (file_paths : list path) : M (list TagReadResult) :=
  print "Reading tags...";;
  results ← read_files file_paths 0 (List.length file_paths) [];
  print (newline +:+ "Task complete.");;
  mret results.

(** The inner loop of [find_target_tags].  [match_] is the function's
    variable [match]: the loop assigns it at every tag it looks at and
    leaves it alone otherwise.  A match object is kept as its group 1. *)
Fixpoint scan_tags (tags : list string) (match_ : local (option string))
  : local (option string) :=
  match tags with
  | [] => match_
  | tag :: rest =>
      match Re.search tag with
      | Some g => Bound (Some g)
      | None => scan_tags rest (Bound None)
      end
  end.

(** The outer loop: [match] lives on from one file to the next, and
    reading it while unbound raises. *)
Fixpoint match_files (files : list TagReadResult) (match_ : local (option string))
    (results : list MatchResult) : exn + list MatchResult :=
  match files with
  | [] => inr results
  | f :: rest =>
      match scan_tags (tr_tags f) match_ with
      | Unbound => inl UnboundLocalError
      | Bound m =>
          match_files rest (Bound m)
            (results ++ [{| mr_file_path := tr_file_path f;
                            mr_toi := m;
                            mr_errors := "" |}])
      end
  end.

Definition find_target_tags (files : list TagReadResult) (tag_info_search : string)
  : exn + list MatchResult :=
  if String.eqb tag_info_search AVAILABLE_TAG_INFO_SEARCH.YEAR
  then match_files files Unbound []
  else inr [].

(** [_gen_filename]: the next UUID with the suffix appended. *)
Definition _gen_filename (suffix : string) : M string :=
  w ← get;
  modify next_draw;;
  mret (e_uuid4 E (w_draws w) +:+ suffix).

Definition mkdir (p : path) : M unit :=
  w ← get;
  match Fs.mkdir p (w_fs w) with
  | inl e => raise e
  | inr fs' => modify (set_fs fs')
  end.

Definition shutil_move (src dst : path) : M (option path) :=
  λ w, let r := Fs.shutil_move src dst (w_fs w) in (r.1, set_fs r.2 w).

(** [Path(x).resolve()] on what [shutil.move] returned: [Path(None)] is a
    [TypeError], and a path of the model is already resolved. *)
Definition Path_resolve (x : option path) : M path :=
  match x with
  | None => raise TypeError
  | Some p => mret p
  end.

(** The directory an image goes to.  A token is one path component, as
    the four digits found by [find_target_tags] are. *)
Definition target_dir (img : MatchResult) (root_dir : path) : path :=
  match mr_toi img with
  | Some toi => if truthy toi then root_dir ++ [toi] else root_dir ++ ["unorganised"]
  | None => root_dir ++ ["unorganised"]
  end.

(** The body of the loop of [_move_images], up to [_show_progress]. *)
Definition move_image (img : MatchResult) (root_dir : path) (rename_files : bool)
    (lists : list MoveSuccess * list MoveFailure)
  : M (list MoveSuccess * list MoveFailure) :=
  try_except
    (let target_dir := target_dir img root_dir in
     mkdir target_dir;;
     try_except
       (dst ← (if rename_files
               then n ← _gen_filename (Path.suffix (mr_file_path img));
                    mret (target_dir ++ [n])
               else mret target_dir);
        moved ← shutil_move (mr_file_path img) dst;
        new_path ← Path_resolve moved;
        mret (lists.1 ++ [{| ms_new_filepath := new_path;
                             ms_old_filepath := mr_file_path img |}],
              lists.2))
       (except_shutil_Error (_v MsgNotMoving;; mret lists)))
    (except_Exception
       (λ e, mret (lists.1,
                   lists.2 ++ [{| mf_old_filepath := mr_file_path img;
                                  mf_error := e |}]))).

Fixpoint move_images_from (images : list MatchResult) (idx total : nat)
    (root_dir : path) (rename_files : bool)
    (lists : list MoveSuccess * list MoveFailure)
  : M (list MoveSuccess * list MoveFailure) :=
  match images with
  | [] => mret lists
  | img :: rest =>
      lists' ← move_image img root_dir rename_files lists;
      _show_progress idx total;;
      move_images_from rest (S idx) total root_dir rename_files lists'
  end.

Definition _move_images (images : list MatchResult) (root_dir : path)
    (rename_files : bool) : M (list MoveSuccess * list MoveFailure) :=
  print "Moving images...";;
  lists ← move_images_from images 0 (List.length images) root_dir rename_files ([], []);
  print (newline +:+ "Task complete.");;
  mret lists.

(** The keyword arguments of [execute], as the dictionary handed to
    [_validate_args]. *)
Record args := {
  a_root_dir : string;
  a_verbose : bool;
  a_rename_files : bool;
  a_meta_type : string;
  a_tag_type : string;
  a_tag_info_search : string
}.

(** One of the three option tests of [_validate_args]: a non-empty value
    must be in [all] once in upper case, and is replaced by that. *)
Definition validate_option (value : string) (all : list string) (msg : string)
  : exn + string :=
  if truthy value then
    if bool_decide (Text.upper value ∈ all)
    then inr (Text.upper value)
    else inl (ValueError msg)
  else inr value.

Definition starts_with_dot (s : string) : bool :=
  match s with
  | String c _ => Ascii.eqb c "."
  | EmptyString => false
  end.

(** [_validate_args].  The values are typed, so the [type(...) is not]
    tests never fire and the two flags pass. *)
Definition _validate_args (a : args) : exn + args :=
  if truthy (a_root_dir a) && starts_with_dot (a_root_dir a)
  then inl (ValueError "Invalid root path. Aborting attempt.")
  else
    match validate_option (a_meta_type a) AVAILABLE_META_TYPES.ALL
            "Invalid meta type option. Aborting attempt." with
    | inl e => inl e
    | inr meta_type =>
        match validate_option (a_tag_type a) AVAILABLE_TAG_TYPES.ALL
                "Invalid tag type option. Aborting attempt." with
        | inl e => inl e
        | inr tag_type =>
            match validate_option (a_tag_info_search a) AVAILABLE_TAG_INFO_SEARCH.ALL
                    "Invalid tag search option. Aborting attempt." with
            | inl e => inl e
            | inr tag_info_search =>
                inr {| a_root_dir := a_root_dir a;
                       a_verbose := a_verbose a;
                       a_rename_files := a_rename_files a;
                       a_meta_type := meta_type;
                       a_tag_type := tag_type;
                       a_tag_info_search := tag_info_search |}
            end
        end
    end.

(** [_mode_selector]: the reader for the pair, [None] for any other. *)
Definition _mode_selector (meta_type tag_type : string)
  : option (list path → M (list TagReadResult)) :=
  if String.eqb meta_type AVAILABLE_META_TYPES.IPTC
     && String.eqb tag_type AVAILABLE_TAG_TYPES.KEYWORDS
  then Some _get_iptc_keywords
  else None.

(** [Path(root_dir).resolve(strict=True)]. *)
Definition resolve_strict (root_dir : string) : M path :=
  match e_resolve E root_dir with
  | Some p => mret p
  | None => raise (resolve_exn (e_unresolved E root_dir))
  end.

(** The two except clauses of [execute]; the one for [ValueError] takes
    its subclass [UnicodeEncodeError] too. *)
Definition execute_handlers (e : exn) : option (M unit) :=
  match e with
  | FileNotFoundError =>
      Some (print "Root directory was not found. Aborting attempt.")
  | ValueError msg => Some (print msg)
  | UnicodeEncodeError msg => Some (print msg)
  | _ => None
  end.

Definition execute (root_dir : string) (verbose rename_files : bool)
    (meta_type tag_type tag_info_search : string) : M unit :=
  try_except
    (cleaned_args ← lift (_validate_args
        {| a_root_dir := root_dir;
           a_verbose := verbose;
           a_rename_files := rename_files;
           a_meta_type := meta_type;
           a_tag_type := tag_type;
           a_tag_info_search := tag_info_search |});
     modify (set_verbose verbose);;
     root_dir ← resolve_strict root_dir;
     print "Starting process...";;
     files ← _get_files root_dir;
     reader ← match _mode_selector (a_meta_type cleaned_args)
                                    (a_tag_type cleaned_args) with
              | Some f => mret f
              | None => raise TypeError
              end;
     results ← reader files.1;
     image_matches ← lift (find_target_tags results
                             (a_tag_info_search cleaned_args));
     moves ← _move_images image_matches root_dir rename_files;
     _v (MsgFound (List.length files.1) root_dir);;
     _v (MsgExcluded (List.length files.2) root_dir);;
     _v (MsgFoundList files.1);;
     _v (MsgExcludedList files.2);;
     _v (MsgTagsRead results);;
     _v (MsgMatches image_matches);;
     _v (MsgMoved moves.1);;
     _v (MsgFailed moves.2))
    execute_handlers.

End Script.

(** ** Definitions used by the statements *)

(** The first tag that the pattern matches decides: the match object of
    that tag, or [None] when no tag matches. *)
Fixpoint first_match (tags : list string) : option string :=
  match tags with
  | [] => None
  | tag :: rest =>
      match Re.search tag with
      | Some g => Some g
      | None => first_match rest
      end
  end.

(** The record a file should get from its own tags. *)
Definition own_result (f : TagReadResult) : MatchResult :=
  {| mr_file_path := tr_file_path f;
     mr_toi := first_match (tr_tags f);
     mr_errors := "" |}.

(** The four letters of "date", in any case. *)
Definition is_date_word (d : string) : Prop :=
  ∃ a b c e, d = String a (String b (String c (String e EmptyString)))
             ∧ Text.eq_nocase a "d" = true ∧ Text.eq_nocase b "a" = true
             ∧ Text.eq_nocase c "t" = true ∧ Text.eq_nocase e "e" = true.

Definition is_year (g : string) : Prop :=
  String.length g = 4 ∧ Text.all_chars Text.is_digit g = true.

Definition one_line (m : string) : Prop :=
  Text.all_chars (λ c, negb (Text.is_newline c)) m = true.

(** What the pattern asks of a tag: the word "date", and after it on the
    same line four digits in a row. *)
Definition dated (s : string) : Prop :=
  ∃ pre d mid g post,
    s = pre +:+ d +:+ mid +:+ g +:+ post
    ∧ is_date_word d ∧ one_line mid ∧ is_year g.

(** The tag kept for one line of the tool's output: its fields from the
    fourth on, with one space between them. *)
Definition tag_of_line (line : string) : string :=
  Text.join " " (drop 3 (Text.split line)).

(** The record the reader should build for one file from what the tool
    printed for it. *)
Definition read_of (tool : path → string * string) (f : path) : TagReadResult :=
  {| tr_file_path := f;
     tr_tags := map tag_of_line (Text.splitlines (tool f).1);
     tr_errors := (tool f).2 |}.

(** The extension of a path: its suffix without the dot. *)
Definition extension (p : path) : string := Text.strip_dots (Path.suffix p).

(** The small letter of a capital letter. *)
Definition small (C : ascii) : ascii := ascii_of_nat (nat_of_ascii C + 32).

(** A capital letter of the ASCII alphabet. *)
Definition capital (C : ascii) : Prop :=
  (65 <=? nat_of_ascii C)%nat && (nat_of_ascii C <=? 90)%nat = true.

(** [ext] spells [word], a word in capitals, in any mix of cases. *)
Fixpoint spells (ext word : string) : Prop :=
  match ext, word with
  | EmptyString, EmptyString => True
  | String c ext', String C word' => (c = C ∨ c = small C) ∧ spells ext' word'
  | _, _ => False
  end.

(** The name of an image of a supported type: a stem that is not empty, a
    dot, and one of the five extensions in any mix of cases. *)
Definition image_name (n : string) : Prop :=
  ∃ stem ext word,
    n = stem +:+ "." +:+ ext
    ∧ stem ≠ ""
    ∧ word ∈ ["JPG"; "JPEG"; "TIF"; "TIFF"; "PNG"]
    ∧ spells ext word.

(** [p] lies strictly below [root]: it continues it by one component at
    least. *)
Definition continues (root p : path) : Prop :=
  ∃ rest, rest ≠ [] ∧ p = root ++ rest.

(** A word in capitals. *)
Fixpoint capitals (word : string) : Prop :=
  match word with
  | EmptyString => True
  | String C word' => capital C ∧ capitals word'
  end.

(** What became of one image in [_move_images]. *)
Inductive outcome :=
  | Moved
  | Failed
  | NotMoved.

#[global] Instance outcome_eq_dec : EqDecision outcome.
Proof. solve_decision. Defined.

(** The paths of the images with outcome [o], in the order of the batch. *)
Definition with_outcome (o : outcome) (images : list MatchResult)
    (outs : list outcome) : list path :=
  map (λ x : MatchResult * outcome, mr_file_path x.1)
      (filter (λ x : MatchResult * outcome, x.2 = o) (zip images outs)).

(** How [execute] ends when the root does not resolve: what it returns
    or lets escape, and what it prints; [f] tells how the call failed. *)
Definition abort_outcome (a : args) (f : resolve_failure)
  : (exn + unit) * list output :=
  match _validate_args a with
  | inl (ValueError msg) => (inr (), [Print msg])
  | _ =>
      match f with
      | Missing =>
          (inr (), [Print "Root directory was not found. Aborting attempt."])
      | NullByte => (inr (), [Print "embedded null byte"])
      | BelowFile => (inl NotADirectoryError, [])
      | SymlinkLoop => (inl RuntimeError, [])
      | Unreadable => (inl OSError, [])
      end
  end.

(** What one turn of the loop of [_move_images] does to the two lists, to
    the log and to the file system, by outcome. *)
Definition turn (o : outcome) (img : MatchResult) (root_dir : path)
    (lists lists' : list MoveSuccess * list MoveFailure) (w w' : world) : Prop :=
  match o with
  | Moved =>
      (∃ new_path, lists' =
         (lists.1 ++ [{| ms_new_filepath := new_path;
                         ms_old_filepath := mr_file_path img |}], lists.2))
      ∧ w_log w' = w_log w
  | Failed =>
      (∃ e, lists' =
         (lists.1, lists.2 ++ [{| mf_old_filepath := mr_file_path img;
                                  mf_error := e |}]))
      ∧ w_log w' = w_log w
  | NotMoved =>
      lists' = lists
      ∧ w_log w' = w_log w ++ [MsgNotMoving]
      ∧ Fs.mkdir (target_dir img root_dir) (w_fs w) = inr (w_fs w')
  end.

(** The file system once the directory [q/c] has been asked for. *)
Definition with_dir (fs : fsys) (q : path) (c : string) : fsys :=
  if Fs.is_dir fs (q ++ [c]) then fs else <[q ++ [c] := Dir]> fs.

(** The name of the folder an image goes to, and the name it gets there. *)
Definition folder (img : MatchResult) : string :=
  match mr_toi img with
  | Some toi => if truthy toi then toi else "unorganised"
  | None => "unorganised"
  end.

Definition new_name (E : env) (w : world) (rename_files : bool)
    (img : MatchResult) : string :=
  if rename_files
  then e_uuid4 E (w_draws w) +:+ Path.suffix (mr_file_path img)
  else Path.name (mr_file_path img).

(** A small world to run the script in: two tagged images with one name,
    an image without IPTC data, and a text file. *)
Module Example.

Definition root : path := ["photos"].
Definition a_jpg : path := ["photos"; "a.jpg"].
Definition a_jpg' : path := ["photos"; "trip"; "a.jpg"].
Definition b_png : path := ["photos"; "b.png"].
Definition notes : path := ["photos"; "notes.txt"].

Definition fs : fsys :=
  list_to_map
    [ (root, Dir); (a_jpg, File "first"); (["photos"; "trip"], Dir);
      (a_jpg', File "second"); (b_png, File "third"); (notes, File "text") ].

Definition keywords : string :=
  "Iptc.Application2.Keywords  String  25  Location DATE: 1984 Paris".

Definition tool (f : path) : string * string :=
  if bool_decide (f = b_png) then ("", "") else (keywords, "").

Definition E : env :=
  {| e_resolve := λ s, if String.eqb s "/photos" then Some root else None;
     e_unresolved :=
       λ s, if String.eqb s "/photos/notes.txt/album" then BelowFile else Missing;
     e_exiv2 := Some tool;
     e_uuid4 := λ n, "1b4e28ba-2fa1-41d2-883f-0016d3cca427";
     e_write_log := λ n m, None |}.

Definition w : world :=
  {| w_fs := fs; w_log := []; w_out := []; w_verbose := Some false;
     w_draws := 0; w_writes := 0 |}.

Definition tagged (f : path) : TagReadResult :=
  {| tr_file_path := f; tr_tags := ["Location DATE: 1984 Paris"]; tr_errors := "" |}.

Definition untagged (f : path) : TagReadResult :=
  {| tr_file_path := f; tr_tags := []; tr_errors := "" |}.

Definition plain (f : path) : TagReadResult :=
  {| tr_file_path := f; tr_tags := ["Holiday snaps"]; tr_errors := "" |}.

Definition found (f : path) (toi : option string) : MatchResult :=
  {| mr_file_path := f; mr_toi := toi; mr_errors := "" |}.

(** The same world once the first image has been moved to its year. *)
Definition fs_later : fsys :=
  list_to_map
    [ (root, Dir); (["photos"; "1984"], Dir);
      (["photos"; "1984"; "a.jpg"], File "first"); (["photos"; "trip"], Dir);
      (a_jpg', File "second"); (b_png, File "third"); (notes, File "text") ].

Definition w_later : world :=
  {| w_fs := fs_later; w_log := []; w_out := []; w_verbose := Some false;
     w_draws := 0; w_writes := 0 |}.

End Example.

(** ** More definitions used by the statements *)

(** What [match] may hold: nothing yet, no match, or four digits. *)
Definition match_ok (m : local (option string)) : Prop :=
  match m with
  | Bound (Some g) => is_year g
  | _ => True
  end.

(** The token of a record, likewise. *)
Definition token_ok (img : MatchResult) : Prop :=
  match mr_toi img with
  | Some g => is_year g
  | None => True
  end.

(** A field: what [str.split()] returns as one item. *)
Definition is_field (s : string) : Prop :=
  s ≠ "" ∧ Text.all_chars (λ c, negb (Text.is_space c)) s = true.

(** An option of [execute] that [_validate_args] lets pass: empty, or the
    allowed value in any case. *)
Definition option_ok (value allowed : string) : Prop :=
  value = "" ∨ Text.upper value = allowed.

(** The arguments with the three options in upper case. *)
Definition upper_options (a : args) : args :=
  {| a_root_dir := a_root_dir a;
     a_verbose := a_verbose a;
     a_rename_files := a_rename_files a;
     a_meta_type := Text.upper (a_meta_type a);
     a_tag_type := Text.upper (a_tag_type a);
     a_tag_info_search := Text.upper (a_tag_info_search a) |}.

(** Where an image goes with the rename flag unset. *)
Definition destination (root_dir : path) (img : MatchResult) : path :=
  root_dir ++ [folder img; Path.name (mr_file_path img)].

(** The list of successes after a move that returned [moved]. *)
Definition recorded (img : MatchResult) (moved : exn + option path)
    (successful : list MoveSuccess) : list MoveSuccess :=
  match moved with
  | inr (Some p) =>
      successful ++ [{| ms_new_filepath := p; ms_old_filepath := mr_file_path img |}]
  | _ => successful
  end.

(** What the success records added by a batch say, against the file
    system the batch leaves. *)
Definition truthful (root_dir : path) (images : list MatchResult) (fs : fsys)
    (s : MoveSuccess) : Prop :=
  ∃ img, img ∈ images
         ∧ s = {| ms_new_filepath := destination root_dir img;
                  ms_old_filepath := mr_file_path img |}
         ∧ Fs.is_file fs (destination root_dir img) = true.

(** The pairs shown by [_show_progress], in order. *)
Definition progress_lines (out : list output) : list (nat * nat) :=
  omap (λ o, match o with Progress current total => Some (current, total) | _ => None end)
       out.

(** The header [_write_log] puts into an empty log file. *)
Definition log_header : string :=
  "# Output log for the fotorganizer script." +:+ newline +:+ newline.

(** [file.read(100)]: at most the first hundred characters. *)
Fixpoint take_chars (n : nat) (s : string) : string :=
  match n, s with
  | S n', String c s' => String c (take_chars n' s')
  | _, _ => EmptyString
  end.

(** [_write_log] on the text of the log file (the empty text for a file
    that is not there yet): the file is opened for appending, so every
    write lands at its end; [dt] is the time stamp and [message] the text
    logged. *)
Definition write_log_text (dt message content : string) : string :=
  let data := take_chars 100 content in
  let content :=
    if (0 <? String.length data)%nat
    then content +:+ newline
    else content +:+ log_header in
  content +:+ (newline +:+ dt +:+ "   " +:+ message).

(** The line of one entry, and a sequence of writes. *)
Definition log_line (entry : string * string) : string :=
  entry.1 +:+ "   " +:+ entry.2.

Definition write_all (entries : list (string * string)) (content : string) : string :=
  fold_left (λ content entry, write_log_text entry.1 entry.2 content)
            entries content.

(** [Q] holds of what [m] returns or raises from [w], and of the world it
    leaves. *)
Definition wp {A} (m : M A) (w : world) (Q : exn + A → world → Prop) : Prop :=
  Q (m w).1 (m w).2.

(** Every regular file of [fs] has its content somewhere in [fs']. *)
Definition keeps_files (fs fs' : fsys) : Prop :=
  ∀ p c, Fs.node_at fs p = Some (File c) →
         ∃ p', Fs.node_at fs' p' = Some (File c).

(** The messages echoed by [_v], in order. *)
Definition echoes (out : list output) : list message :=
  omap (λ o, match o with Echo m => Some m | _ => None end) out.

(** The eight messages at the end of [execute]. *)
Definition report (root_dir : path) (files : list path * list path)
    (results : list TagReadResult) (image_matches : list MatchResult)
    (moves : list MoveSuccess * list MoveFailure) : list message :=
  [ MsgFound (List.length files.1) root_dir;
    MsgExcluded (List.length files.2) root_dir;
    MsgFoundList files.1;
    MsgExcludedList files.2;
    MsgTagsRead results;
    MsgMatches image_matches;
    MsgMoved moves.1;
    MsgFailed moves.2 ].

(** The arguments of a call of [execute]. *)
Definition call_args (root_dir : string) (verbose rename_files : bool)
    (meta_type tag_type tag_info_search : string) : args :=
  {| a_root_dir := root_dir;
     a_verbose := verbose;
     a_rename_files := rename_files;
     a_meta_type := meta_type;
     a_tag_type := tag_type;
     a_tag_info_search := tag_info_search |}.

(** The calls of [_v] at the end of [execute], one per message. *)
Fixpoint v_all (E : env) (ms : list message) : M unit :=
  match ms with
  | [] => mret ()
  | m :: rest =>
      match rest with
      | [] => _v E m
      | _ => _v E m;; v_all E rest
      end
  end.

(** How a run ends whose report stopped after [j] of its messages: all
    eight written and a normal return, or a write that failed; a failure
    to encode is printed by [execute] and the run returns, whereas a file
    that cannot be written lets [OSError] escape. *)
Definition report_end (E : env) (ms : list message) (j : nat)
    (r : exn + unit) : Prop :=
  (j = List.length ms ∧ r = inr ())
  ∨ ∃ n m f, ms !! j = Some m
             ∧ e_write_log E n m = Some f
             ∧ r = match f with
                   | CannotWrite => inl OSError
                   | CannotEncode _ => inr ()
                   end.

(** What holds of a run of [execute] from [w] that ends with [r] in [w']. *)
Definition execute_post (E : env) (root_dir : string) (verbose rename_files : bool)
    (meta_type tag_type tag_info_search : string) (w : world)
    (r : exn + unit) (w' : world) : Prop :=
  (r = inr () ∨ r = inl TypeError ∨ r = inl UnboundLocalError
   ∨ (e_resolve E root_dir = None
      ∧ r = inl (resolve_exn (e_unresolved E root_dir))
      ∧ (r = inl NotADirectoryError ∨ r = inl RuntimeError ∨ r = inl OSError))
   ∨ (r = inl OSError ∧ ∃ n m, e_write_log E n m = Some CannotWrite))
  ∧ (rename_files = false → keeps_files (w_fs w) (w_fs w'))
  ∧ (r = inl TypeError ∨ r = inl UnboundLocalError ∨ e_resolve E root_dir = None →
     w_fs w' = w_fs w ∧ w_log w' = w_log w)
  ∧ (∃ entries attempts,
       w_log w' = w_log w ++ entries
       ∧ echoes (w_out w') = echoes (w_out w) ++ (if verbose then attempts else [])
       ∧ sublist entries attempts
       ∧ ((∀ n m, e_write_log E n m = None) → attempts = entries)
       ∧ (entries = []
          ∨ ∃ root results image_matches moves k j,
              e_resolve E root_dir = Some root
              ∧ entries = replicate k MsgNotMoving
                          ++ take j (report root
                                       (classify (found_paths (w_fs w) root) [] [])
                                       results image_matches moves)
              ∧ k + List.length moves.1 + List.length moves.2
                = List.length image_matches
              ∧ report_end E (report root
                                (classify (found_paths (w_fs w) root) [] [])
                                results image_matches moves) j r))
  ∧ (r = inl TypeError →
     ∃ cleaned_args,
       _validate_args (call_args root_dir verbose rename_files
                         meta_type tag_type tag_info_search) = inr cleaned_args
       ∧ is_Some (e_resolve E root_dir)
       ∧ _mode_selector E (a_meta_type cleaned_args) (a_tag_type cleaned_args) = None).

(** More worlds to run the script in: one where the year folder of the
    first image is taken by a regular file, one whose only image carries
    no IPTC data, and at the end an environment without the [exiv2]
    executable. *)
Module Cases.

Definition fs_blocked : fsys :=
  list_to_map
    [ (Example.root, Dir); (["photos"; "1984"], File "prints");
      (Example.a_jpg, File "first") ].

Definition w_blocked : world :=
  {| w_fs := fs_blocked; w_log := []; w_out := []; w_verbose := Some false;
     w_draws := 0; w_writes := 0 |}.

Definition fs_bare : fsys :=
  list_to_map [ (Example.root, Dir); (Example.b_png, File "third") ].

Definition w_bare : world :=
  {| w_fs := fs_bare; w_log := []; w_out := []; w_verbose := None;
     w_draws := 0; w_writes := 0 |}.

(** The later world of the example before [execute] has assigned the
    global, and a world where the name about to be generated is taken. *)
Definition w_unset : world :=
  {| w_fs := Example.fs_later; w_log := []; w_out := []; w_verbose := None;
     w_draws := 0; w_writes := 0 |}.

Definition fs_drawn : fsys :=
  list_to_map
    [ (Example.root, Dir); (["photos"; "1984"], Dir);
      (["photos"; "1984"; "1b4e28ba-2fa1-41d2-883f-0016d3cca427.jpg"], File "old");
      (Example.a_jpg, File "first") ].

Definition w_drawn : world :=
  {| w_fs := fs_drawn; w_log := []; w_out := []; w_verbose := Some false;
     w_draws := 0; w_writes := 0 |}.

Definition E_no_tool : env :=
  {| e_resolve := e_resolve Example.E;
     e_unresolved := e_unresolved Example.E;
     e_exiv2 := None;
     e_uuid4 := e_uuid4 Example.E;
     e_write_log := e_write_log Example.E |}.

End Cases.

(** * Properties *)

(** ** The model at work *)

Example split_example :
  Text.split (" Iptc.Application2.Keywords" +:+ String "009" "String  7 "
              +:+ String "160" "DATE:  1984 ")
  = ["Iptc.Application2.Keywords"; "String"; "7"; "DATE:"; "1984"].
Proof. vm_compute. reflexivity. Qed.

Example splitlines_example :
  Text.splitlines ("one" +:+ newline +:+ newline +:+ "two"
                   +:+ String "013" newline)
  = ["one"; ""; "two"].
Proof. vm_compute. reflexivity. Qed.

Example search_examples :
  Re.search "Location DATE: 1984 Paris" = Some "1984"
  ∧ Re.search "DATE: 19845" = Some "9845"
  ∧ Re.search "update 2001-1999" = Some "1999"
  ∧ Re.search "19 Date 84" = None
  ∧ Re.search ("date" +:+ newline +:+ "1984") = None
  ∧ Re.search ("date" +:+ newline +:+ "Date 1984") = Some "1984".
Proof. repeat split; vm_compute; reflexivity. Qed.

Example suffix_examples :
  Path.suffix ["photos"; "a.JPG"] = ".JPG"
  ∧ Path.suffix ["archive.tar.gz"] = ".gz"
  ∧ Path.suffix [".hidden"] = ""
  ∧ Path.suffix ["name."] = "".
Proof. repeat split; vm_compute; reflexivity. Qed.

Example supported_examples :
  supported ["photos"; "x.JpEg"] = true
  ∧ supported ["photos"; "x.tiff"] = true
  ∧ supported ["photos"; "x.jpg.txt"] = false
  ∧ supported ["photos"; ".png"] = false
  ∧ supported ["photos"; "png"] = false.
Proof. repeat split; vm_compute; reflexivity. Qed.

(** One run over the example world: the second a.jpg finds its name taken
    in photos/1984, and b.png, which has no tags, follows the first. *)
Example execute_example :
  let run := execute Example.E "/photos" false false "iptc" "keywords" "year"
               Example.w in
  run.1 = inr ()
  ∧ w_log run.2 !! 0 = Some MsgNotMoving
  ∧ w_log run.2 !! 1 = Some (MsgFound 3 Example.root)
  ∧ w_log run.2 !! 2 = Some (MsgExcluded 1 Example.root)
  ∧ w_log run.2 !! 7
    = Some (MsgMoved [{| ms_new_filepath := ["photos"; "1984"; "a.jpg"];
                         ms_old_filepath := Example.a_jpg |};
                      {| ms_new_filepath := ["photos"; "1984"; "b.png"];
                         ms_old_filepath := Example.b_png |}])
  ∧ w_log run.2 !! 8 = Some (MsgFailed []).
Proof. repeat split; vm_compute; reflexivity. Qed.

(** ** The Matcher *)

Section Matcher.

Lemma scan_tags_nonempty tags match_ :
  tags ≠ [] → scan_tags tags match_ = Bound (first_match tags).
Proof.
  revert match_. induction tags as [|tag rest IH]; intros match_ Hne; [done|].
  simpl. destruct (Re.search tag) as [g|]; [done|].
  destruct rest as [|tag' rest']; [done|]. by apply IH.
Qed.

Lemma scan_tags_empty (match_ : local (option string)) :
  scan_tags [] match_ = match_.
Proof. done. Qed.

Lemma match_files_tagged files match_ results :
  Forall (λ f, tr_tags f ≠ []) files →
  match_files files match_ results = inr (results ++ map own_result files).
Proof.
  intros Hall. revert match_ results.
  induction Hall as [|f rest Hf _ IH]; intros match_ results; simpl.
  - by rewrite app_nil_r.
  - rewrite (scan_tags_nonempty _ _ Hf), IH, <- app_assoc. done.
Qed.

Lemma match_files_paths files : ∀ match_ results matches,
  match_files files match_ results = inr matches →
  map mr_file_path matches = map mr_file_path results ++ map tr_file_path files.
Proof.
  induction files as [|f rest IH]; intros match_ results matches; simpl.
  - intros [= <-]. by rewrite app_nil_r.
  - destruct (scan_tags (tr_tags f) match_) as [|m]; [done|].
    intros H. apply IH in H. rewrite H, map_app, <- app_assoc. done.
Qed.

Lemma digits4_shape s g :
  Re.digits4 s = Some g →
  String.length g = 4 ∧ Text.all_chars Text.is_digit g = true.
Proof.
  destruct s as [|a [|b [|c [|d s]]]]; simpl; try done.
  destruct (Text.is_digit a) eqn:Ha, (Text.is_digit b) eqn:Hb,
    (Text.is_digit c) eqn:Hc, (Text.is_digit d) eqn:Hd; simpl; try done.
  intros [= <-]. simpl. by rewrite Ha, Hb, Hc, Hd.
Qed.

Lemma dotstar_year_shape s g :
  Re.dotstar_year s = Some g →
  String.length g = 4 ∧ Text.all_chars Text.is_digit g = true.
Proof.
  induction s as [|c s IH]; [done|].
  cbn [Re.dotstar_year]. destruct (Text.is_newline c); [done|].
  destruct (Re.dotstar_year s) as [g'|].
  - intros [= <-]. by apply IH.
  - apply digits4_shape.
Qed.

(** A token is always made of four digits, so it is a non-empty name
    without a separator. *)
Lemma search_shape s g :
  Re.search s = Some g →
  String.length g = 4 ∧ Text.all_chars Text.is_digit g = true.
Proof.
  induction s as [|c s IH]; cbn [Re.search].
  - destruct (Re.match_here "") eqn:Hm; [|done].
    intros [= <-]. unfold Re.match_here in Hm. done.
  - destruct (Re.match_here (String c s)) as [g'|] eqn:Hm; [|done].
    intros [= <-]. unfold Re.match_here in Hm.
    destruct (Re.after_date (String c s)); [|done].
    by apply dotstar_year_shape in Hm.
Qed.

Lemma first_match_shape tags g :
  first_match tags = Some g →
  String.length g = 4 ∧ Text.all_chars Text.is_digit g = true.
Proof.
  induction tags as [|tag rest IH]; [done|]. simpl.
  destruct (Re.search tag) as [g'|] eqn:Hs; [|done].
  intros [= <-]. by apply search_shape in Hs.
Qed.

Lemma first_match_none tags :
  Forall (λ tag, Re.search tag = None) tags → first_match tags = None.
Proof. induction 1 as [|tag rest Ht _ IH]; simpl; [done|]. by rewrite Ht. Qed.

Lemma first_match_skip pre tag post :
  Forall (λ t, Re.search t = None) pre →
  first_match (pre ++ tag :: post) =
    match Re.search tag with Some g => Some g | None => first_match post end.
Proof. induction 1 as [|t pre Ht _ IH]; simpl; [done|]. by rewrite Ht. Qed.

End Matcher.

(** *** The pattern, declaratively *)

Section Pattern.

Lemma digit_not_newline c : Text.is_digit c = true → Text.is_newline c = false.
Proof. destruct c as [[] [] [] [] [] [] [] []]; by vm_compute. Qed.

Lemma digits4_year s g :
  Re.digits4 s = Some g ↔ is_year g ∧ ∃ post, s = g +:+ post.
Proof.
  split.
  - intros H. split; [by apply digits4_shape in H|].
    destruct s as [|a [|b [|c [|d s]]]]; simpl in H; try done.
    destruct (_ && _); [|done]. injection H as <-. by exists s.
  - intros [[Hlen Hdig] [post ->]].
    destruct g as [|a [|b [|c [|d [|x g]]]]]; simpl in Hlen; try done.
    simpl in *.
    destruct (Text.is_digit a), (Text.is_digit b), (Text.is_digit c),
      (Text.is_digit d); done.
Qed.

Lemma dotstar_year_spec s :
  is_Some (Re.dotstar_year s)
  ↔ ∃ mid g post, s = mid +:+ g +:+ post ∧ one_line mid ∧ is_year g.
Proof.
  split.
  - induction s as [|c s IH]; cbn [Re.dotstar_year]; [by intros [? ?]|].
    destruct (Text.is_newline c) eqn:Hc; [by intros [? ?]|].
    destruct (Re.dotstar_year s) as [g|] eqn:Hs.
    + intros _. destruct IH as (mid & g' & post & -> & Hmid & Hg); [done|].
      exists (String c mid), g', post. repeat split; try done; try apply Hg.
      unfold one_line. simpl. by rewrite Hc.
    + intros [g Hg]. apply digits4_year in Hg as [Hg [post ->]].
      by exists "", g, post.
  - intros (mid & g & post & -> & Hmid & Hg).
    induction mid as [|c mid IH].
    + destruct g as [|a g]; [by destruct Hg|].
      assert (Text.is_newline a = false) as Ha.
      { apply digit_not_newline. destruct Hg as [_ Hg]. simpl in Hg.
        by destruct (Text.is_digit a). }
      assert (Re.digits4 (String a g +:+ post) = Some (String a g)) as Hd.
      { apply digits4_year. eauto. }
      change ("" +:+ String a g +:+ post) with (String a (g +:+ post)).
      change (String a g +:+ post) with (String a (g +:+ post)) in Hd.
      cbn [Re.dotstar_year]. rewrite Ha, Hd.
      by destruct (Re.dotstar_year (g +:+ post)).
    + unfold one_line in Hmid. simpl in Hmid.
      apply andb_true_iff in Hmid as [Hc Hmid].
      change (String c mid +:+ g +:+ post) with (String c (mid +:+ g +:+ post)).
      cbn [Re.dotstar_year].
      apply negb_true_iff in Hc. rewrite Hc.
      destruct (IH Hmid) as [g' ->]. done.
Qed.

Lemma after_date_spec s rest :
  Re.after_date s = Some rest ↔ ∃ d, s = d +:+ rest ∧ is_date_word d.
Proof.
  split.
  - destruct s as [|a [|b [|c [|e s]]]]; simpl; try done.
    destruct (Text.eq_nocase a "d") eqn:Ha, (Text.eq_nocase b "a") eqn:Hb,
      (Text.eq_nocase c "t") eqn:Hc, (Text.eq_nocase e "e") eqn:He;
      simpl; try done.
    intros [= <-].
    exists (String a (String b (String c (String e "")))).
    split; [done|]. by exists a, b, c, e.
  - intros (d & -> & a & b & c & e & -> & Ha & Hb & Hc & He).
    simpl. by rewrite Ha, Hb, Hc, He.
Qed.

Lemma search_spec s :
  is_Some (Re.search s)
  ↔ ∃ pre rest, s = pre +:+ rest ∧ is_Some (Re.match_here rest).
Proof.
  split.
  - induction s as [|c s IH]; cbn [Re.search].
    + destruct (Re.match_here "") eqn:Hm; [|by intros [? ?]].
      intros _. exists "", "". by rewrite Hm.
    + destruct (Re.match_here (String c s)) eqn:Hm.
      * intros _. exists "", (String c s). by rewrite Hm.
      * intros Hs. destruct (IH Hs) as (pre & rest & -> & Hrest).
        by exists (String c pre), rest.
  - intros (pre & rest & -> & [g Hg]).
    induction pre as [|c pre IH].
    + change ("" +:+ rest) with rest.
      destruct rest; cbn [Re.search]; by rewrite Hg.
    + change (String c pre +:+ rest) with (String c (pre +:+ rest)).
      cbn [Re.search].
      destruct (Re.match_here (String c (pre +:+ rest))); [by eexists|done].
Qed.

(** The model of [re.search] finds a match exactly in the texts that have
    the shape the pattern describes. *)
Lemma search_dated s : is_Some (Re.search s) ↔ dated s.
Proof.
  rewrite search_spec. unfold dated, Re.match_here. split.
  - intros (pre & rest & -> & Hm).
    destruct (Re.after_date rest) as [tail|] eqn:Hd; [|by destruct Hm].
    apply after_date_spec in Hd as (d & -> & Hd).
    apply dotstar_year_spec in Hm as (mid & g & post & -> & Hmid & Hg).
    by exists pre, d, mid, g, post.
  - intros (pre & d & mid & g & post & -> & Hd & Hmid & Hg).
    exists pre, (d +:+ mid +:+ g +:+ post). split; [done|].
    assert (Re.after_date (d +:+ mid +:+ g +:+ post) = Some (mid +:+ g +:+ post))
      as -> by (apply after_date_spec; eauto).
    apply dotstar_year_spec. by exists mid, g, post.
Qed.

Lemma search_none_undated s : Re.search s = None ↔ ¬ dated s.
Proof.
  rewrite <- search_dated. destruct (Re.search s) as [g|].
  - split; [done|]. intros H. destruct H. by exists g.
  - split; [|done]. intros _ [g Hg]. done.
Qed.

(** Greedy [.*]: the four digits taken are the last ones that can be: no
    other way of cutting the text leaves a longer run before the year. *)
Lemma dotstar_year_greedy s g :
  Re.dotstar_year s = Some g →
  ∃ mid post,
    s = mid +:+ g +:+ post ∧ one_line mid ∧ is_year g
    ∧ ∀ mid' g' post', s = mid' +:+ g' +:+ post' → one_line mid' → is_year g' →
                       (String.length mid' ≤ String.length mid)%nat.
Proof.
  revert g. induction s as [|c s IH]; intros g; cbn [Re.dotstar_year]; [done|].
  destruct (Text.is_newline c) eqn:Hc; [done|].
  destruct (Re.dotstar_year s) as [g0|] eqn:Hs.
  - intros [= <-]. destruct (IH g0 eq_refl) as (mid & post & -> & Hmid & Hg & Hmax).
    exists (String c mid), post. repeat split; try done; try apply Hg.
    { unfold one_line. simpl. by rewrite Hc. }
    intros [|c' mid'] g' post' Heq Hmid' Hg'; simpl; [lia|].
    injection Heq as -> Heq.
    unfold one_line in Hmid'. simpl in Hmid'.
    apply andb_true_iff in Hmid' as [_ Hmid'].
    specialize (Hmax mid' g' post' Heq Hmid' Hg'). lia.
  - intros Hd. apply digits4_year in Hd as [Hg [post Heq]].
    exists "", post. repeat split; try done; try apply Hg.
    intros [|c' mid'] g' post' Heq' Hmid' Hg'; simpl; [lia|].
    injection Heq' as -> Heq'.
    unfold one_line in Hmid'. simpl in Hmid'.
    apply andb_true_iff in Hmid' as [_ Hmid'].
    assert (is_Some (Re.dotstar_year s)) as [? ?]; [|congruence].
    apply dotstar_year_spec. by exists mid', g', post'.
Qed.

(** Leftmost start: the match found begins at the first place of the text
    where the pattern can match at all. *)
Lemma search_leftmost s g :
  Re.search s = Some g →
  ∃ pre rest,
    s = pre +:+ rest ∧ Re.match_here rest = Some g
    ∧ ∀ pre' rest', s = pre' +:+ rest' → is_Some (Re.match_here rest') →
                    (String.length pre ≤ String.length pre')%nat.
Proof.
  revert g. induction s as [|c s IH]; intros g; cbn [Re.search].
  - destruct (Re.match_here "") eqn:Hm; [|done]. intros [= <-].
    exists "", "". repeat split; try done; intros; simpl; lia.
  - destruct (Re.match_here (String c s)) as [g0|] eqn:Hm.
    + intros [= <-]. exists "", (String c s).
      repeat split; try done; intros; simpl; lia.
    + intros Hs. destruct (IH g Hs) as (pre & rest & -> & Hrest & Hmin).
      exists (String c pre), rest. repeat split; try done.
      intros [|c' pre'] rest' Heq [g' Hg'].
      * change ("" +:+ rest') with rest' in Heq. subst rest'.
        change (String c pre +:+ rest) with (String c (pre +:+ rest)) in Hg'.
        congruence.
      * injection Heq as -> Heq. simpl.
        specialize (Hmin pre' rest' Heq ltac:(by eexists)). lia.
Qed.

End Pattern.

Section MatcherClaims.
Import Example.

(** In the year mode, files that all carry tags get one record each,
    in order, each from the file's own tags. *)
Lemma find_target_tags_tagged files :
  Forall (λ f, tr_tags f ≠ []) files →
  find_target_tags files "YEAR" = inr (map own_result files).
Proof. intros H. unfold find_target_tags. simpl. by rewrite match_files_tagged. Qed.

(** Once [match] is bound the loop cannot raise any more. *)
Lemma match_files_bound files : ∀ m results,
  ∃ matches, match_files files (Bound m) results = inr (results ++ matches).
Proof.
  induction files as [|f rest IH]; intros m results; simpl.
  - exists []. by rewrite app_nil_r.
  - destruct (scan_tags (tr_tags f) (Bound m)) as [|m'] eqn:Hscan.
    + destruct (tr_tags f) as [|tag tags]; [done|].
      by rewrite scan_tags_nonempty in Hscan.
    + destruct (IH m' (results ++ [{| mr_file_path := tr_file_path f;
                                      mr_toi := m';
                                      mr_errors := "" |}])) as [matches ->].
      eexists. by rewrite <- app_assoc.
Qed.

(** What the code does with a file without tags: first in the batch it
    makes the function raise, ... *)
Lemma untagged_first_raises f rest :
  tr_tags f = [] →
  find_target_tags (f :: rest) "YEAR" = inl UnboundLocalError.
Proof. intros Hf. unfold find_target_tags. simpl. by rewrite Hf. Qed.

(** ... and after a file with tags it gets the token of that file. *)
Lemma untagged_file_inherits before g f after :
  Forall (λ f, tr_tags f ≠ []) before →
  tr_tags g ≠ [] →
  tr_tags f = [] →
  ∃ matches,
    find_target_tags (before ++ g :: f :: after) "YEAR"
    = inr (map own_result before
           ++ own_result g
           :: {| mr_file_path := tr_file_path f;
                 mr_toi := first_match (tr_tags g);
                 mr_errors := "" |}
           :: matches).
Proof.
  intros Hbefore Hg Hf. unfold find_target_tags. simpl.
  assert (∀ match_ results,
    match_files (before ++ g :: f :: after) match_ results
    = match_files (f :: after) (Bound (first_match (tr_tags g)))
        (results ++ map own_result before ++ [own_result g])) as ->.
  { induction Hbefore as [|b before Hb _ IH]; intros match_ results; simpl.
    - by rewrite (scan_tags_nonempty _ _ Hg).
    - rewrite (scan_tags_nonempty _ _ Hb), IH, <- app_assoc. done. }
  simpl. rewrite Hf. simpl.
  destruct (match_files_bound after (first_match (tr_tags g))
              ((map own_result before ++ [own_result g]) ++
               [{| mr_file_path := tr_file_path f;
                   mr_toi := first_match (tr_tags g);
                   mr_errors := "" |}])) as [matches ->].
  exists matches. by rewrite <- !app_assoc.
Qed.

(** C10: for every search mode other than "YEAR", [find_target_tags]
    returns the empty list whatever files it is given, so that a batch with
    at least one file does not get one MatchResult per file. *)
Theorem C10_other_mode_gives_no_result files tag_info_search :
  tag_info_search ≠ AVAILABLE_TAG_INFO_SEARCH.YEAR →
  find_target_tags files tag_info_search = inr []
  ∧ (files ≠ [] →
     ∀ matches, find_target_tags files tag_info_search = inr matches →
                List.length matches ≠ List.length files).
Proof.
  intros Hmode. unfold find_target_tags.
  destruct (String.eqb_spec tag_info_search AVAILABLE_TAG_INFO_SEARCH.YEAR); [done|].
  split; [done|]. intros Hne matches [= <-]. by destruct files.
Qed.

Lemma C10_other_mode_witness :
  find_target_tags [tagged a_jpg; plain b_png] "MONTH" = inr []
  ∧ ([tagged a_jpg; plain b_png] ≠ [] →
     ∀ matches, find_target_tags [tagged a_jpg; plain b_png] "MONTH" = inr matches →
                List.length matches ≠ List.length [tagged a_jpg; plain b_png]).
Proof. apply (C10_other_mode_gives_no_result [tagged a_jpg; plain b_png] "MONTH"). done. Defined.

(** C2: the token of a file should depend on that file's tags alone.  A
    file without tags gets the token of the file before it: "1984" after a
    file dated 1984, none after a file without a date, and alone it makes
    the function raise. *)
Theorem C2_untagged_file_takes_neighbour_token :
  find_target_tags [tagged a_jpg; untagged b_png] "YEAR"
    = inr [found a_jpg (Some "1984"); found b_png (Some "1984")]
  ∧ find_target_tags [plain a_jpg; untagged b_png] "YEAR"
    = inr [found a_jpg None; found b_png None]
  ∧ find_target_tags [untagged b_png] "YEAR" = inl UnboundLocalError.
Proof. repeat split; vm_compute; reflexivity. Qed.

End MatcherClaims.

(** ** Running the monad *)

Lemma bind_inr {A B} (m : M A) (f : A → M B) w a w' :
  m w = (inr a, w') → (m ≫= f) w = f a w'.
Proof. intros H. unfold mbind, M_bind. by rewrite H. Qed.

Lemma bind_inl {A B} (m : M A) (f : A → M B) w e w' :
  m w = (inl e, w') → (m ≫= f) w = (inl e, w').
Proof. intros H. unfold mbind, M_bind. by rewrite H. Qed.

Lemma try_except_inr {A} (body : M A) handler w a w' :
  body w = (inr a, w') → try_except body handler w = (inr a, w').
Proof. intros H. unfold try_except. by rewrite H. Qed.

Lemma try_except_inl {A} (body : M A) handler w e w' :
  body w = (inl e, w') →
  try_except body handler w =
    match handler e with Some h => h w' | None => (inl e, w') end.
Proof. intros H. unfold try_except. by rewrite H. Qed.

Ltac run :=
  unfold print, _show_progress, _write_log, mbind, M_bind, mret, M_ret,
    modify, get, raise, lift; simpl.

(** ** The Metadata Reader *)

Section Reader.

Variable E : env.

Lemma read_tags_map meta_data tags :
  read_tags meta_data tags = tags ++ map tag_of_line meta_data.
Proof.
  revert tags. induction meta_data as [|item rest IH]; intros tags; simpl.
  - by rewrite app_nil_r.
  - rewrite IH, <- app_assoc. done.
Qed.

Lemma read_files_map tool file_paths : ∀ idx total results w,
  e_exiv2 E = Some tool →
  ∃ w', read_files E file_paths idx total results w
          = (inr (results ++ map (read_of tool) file_paths), w')
        ∧ w_fs w' = w_fs w ∧ w_log w' = w_log w
        ∧ w_verbose w' = w_verbose w ∧ w_draws w' = w_draws w.
Proof.
  induction file_paths as [|f rest IH]; intros idx total results w Htool; simpl.
  - exists w. by rewrite app_nil_r.
  - unfold subprocess_run. rewrite Htool. run.
    destruct (IH (S idx) total
                (results ++ [{| tr_file_path := f;
                                tr_tags := read_tags (Text.splitlines (tool f).1) [];
                                tr_errors := (tool f).2 |}])
                (add_out (Progress idx total) w) Htool)
      as (w' & Hrun & Hfs & Hlog & Hv & Hd).
    exists w'. rewrite Hrun. repeat split; try done.
    rewrite read_tags_map, <- app_assoc. done.
Qed.

(** A line with fewer than four fields gives the empty tag. *)
Lemma tag_of_short_line line :
  List.length (Text.split line) < 4 → tag_of_line line = "".
Proof.
  intros Hlen. unfold tag_of_line.
  rewrite drop_ge; [done|]. lia.
Qed.

Lemma all_chars_snoc p s c :
  Text.all_chars p (Text.snoc s c) = Text.all_chars p s && p c.
Proof.
  unfold Text.snoc. induction s as [|d s IH]; simpl.
  - by rewrite andb_true_r.
  - rewrite IH. by rewrite andb_assoc.
Qed.

Lemma snoc_not_empty s c : String.eqb (Text.snoc s c) "" = false.
Proof. by destruct s. Qed.

(** The fields of a line are non-empty and free of white space. *)
Lemma split_from_fields s : ∀ cur,
  Text.all_chars (λ c, negb (Text.is_space c)) cur = true →
  Forall (λ field, field ≠ ""
                   ∧ Text.all_chars (λ c, negb (Text.is_space c)) field = true)
         (Text.split_from cur s).
Proof.
  induction s as [|c s IH]; intros cur Hcur; simpl.
  - destruct (String.eqb_spec cur ""); [constructor|]. by repeat constructor.
  - destruct (Text.is_space c) eqn:Hc.
    + destruct (String.eqb_spec cur ""); [by apply IH|].
      constructor; [done|]. by apply IH.
    + apply IH. rewrite all_chars_snoc, Hcur, Hc. done.
Qed.

Lemma split_fields line :
  Forall (λ field, field ≠ ""
                   ∧ Text.all_chars (λ c, negb (Text.is_space c)) field = true)
         (Text.split line).
Proof. by apply split_from_fields. Qed.

Lemma get_iptc_keywords_reads tool file_paths w :
  e_exiv2 E = Some tool →
  ∃ w', _get_iptc_keywords E file_paths w
          = (inr (map (read_of tool) file_paths), w').
Proof.
  intros Htool. unfold _get_iptc_keywords. run.
  destruct (read_files_map tool file_paths 0 (List.length file_paths) []
              (add_out (Print "Reading tags...") w) Htool) as (w' & Hrun & _).
  rewrite Hrun. simpl. eauto.
Qed.

(** C8: for every file, the record built by the Metadata Reader has one tag
    per line of the tool's standard output, each tag being the fields of
    that line from the fourth one on joined by single spaces (the empty
    string for a line with fewer than four fields), and carries the tool's
    standard error as it is. *)
Theorem C8_tags_from_fourth_field tool file_paths w :
  e_exiv2 E = Some tool →
  (∃ w', _get_iptc_keywords E file_paths w
           = (inr (map (read_of tool) file_paths), w'))
  ∧ (∀ f, tr_tags (read_of tool f)
            = map (λ line, Text.join " " (drop 3 (Text.split line)))
                  (Text.splitlines (tool f).1)
          ∧ tr_errors (read_of tool f) = (tool f).2)
  ∧ (∀ line, List.length (Text.split line) < 4 →
             Text.join " " (drop 3 (Text.split line)) = "").
Proof.
  intros Htool. split; [|split].
  - by apply get_iptc_keywords_reads.
  - done.
  - apply tag_of_short_line.
Qed.

End Reader.

Lemma C8_tags_from_fourth_field_witness :
  (∃ w', _get_iptc_keywords Example.E [Example.a_jpg; Example.b_png] Example.w
           = (inr (map (read_of Example.tool) [Example.a_jpg; Example.b_png]), w'))
  ∧ (∀ f, tr_tags (read_of Example.tool f)
            = map (λ line, Text.join " " (drop 3 (Text.split line)))
                  (Text.splitlines (Example.tool f).1)
          ∧ tr_errors (read_of Example.tool f) = (Example.tool f).2)
  ∧ (∀ line, List.length (Text.split line) < 4 →
             Text.join " " (drop 3 (Text.split line)) = "").
Proof.
  apply (C8_tags_from_fourth_field Example.E Example.tool
           [Example.a_jpg; Example.b_png] Example.w).
  reflexivity.
Defined.

Example read_of_example :
  read_of Example.tool Example.a_jpg
  = {| tr_file_path := Example.a_jpg;
       tr_tags := ["Location DATE: 1984 Paris"];
       tr_errors := "" |}.
Proof. vm_compute. reflexivity. Qed.

(** ** File Discovery *)

Section Discovery.

Lemma classify_filter found : ∀ valid_paths excluded_paths,
  classify found valid_paths excluded_paths
  = (valid_paths ++ filter (λ p, supported p) found,
     excluded_paths ++ filter (λ p, ¬ supported p) found).
Proof.
  induction found as [|p rest IH]; intros valid_paths excluded_paths; simpl.
  - by rewrite !app_nil_r.
  - destruct (supported p) eqn:Hp; rewrite IH.
    + rewrite filter_cons_True by (by rewrite Hp).
      rewrite filter_cons_False by (rewrite Hp; simpl; tauto).
      by rewrite <- app_assoc.
    + rewrite filter_cons_False by (rewrite Hp; simpl; tauto).
      rewrite filter_cons_True by (rewrite Hp; simpl; tauto).
      by rewrite <- app_assoc.
Qed.

Lemma rglob_NoDup fs root : NoDup (Fs.rglob fs root).
Proof.
  unfold Fs.rglob. destruct (Fs.is_dir fs root); [|constructor].
  apply NoDup_filter, NoDup_fst_map_to_list.
Qed.

Lemma found_paths_NoDup fs root : NoDup (found_paths fs root).
Proof. apply NoDup_filter, rglob_NoDup. Qed.

Lemma elem_of_keys (fs : fsys) p :
  p ∈ (map_to_list fs).*1 ↔ is_Some (fs !! p).
Proof.
  rewrite list_elem_of_fmap. split.
  - intros ([q n] & -> & Hin). apply elem_of_map_to_list in Hin. by exists n.
  - intros [n Hn]. exists (p, n). split; [done|]. by apply elem_of_map_to_list.
Qed.

(** The files found are the regular files anywhere below the root. *)
Lemma elem_of_found_paths fs root p :
  p ∈ found_paths fs root
  ↔ Fs.is_dir fs root = true ∧ Path.below root p = true ∧ Fs.is_file fs p = true.
Proof.
  unfold found_paths, Fs.rglob. rewrite list_elem_of_filter.
  destruct (Fs.is_dir fs root).
  - rewrite list_elem_of_filter, elem_of_keys, !Is_true_true.
    split; [intros (Hf & Hb & _); by repeat split|].
    intros (_ & Hb & Hf). repeat split; [done..|].
    unfold Fs.is_file, Fs.node_at in Hf.
    destruct p; [done|]. destruct (fs !! (s :: p)); [by eexists|done].
  - rewrite elem_of_nil. split; [intros [_ []]|intros [? _]; done].
Qed.

Lemma upper_char_dot c : Ascii.eqb (Text.upper_char c) "." = Ascii.eqb c ".".
Proof. destruct c as [[] [] [] [] [] [] [] []]; reflexivity. Qed.

Lemma lstrip_dots_upper s :
  Text.lstrip_dots (Text.upper s) = Text.upper (Text.lstrip_dots s).
Proof.
  induction s as [|c s IH]; [done|]. simpl.
  rewrite upper_char_dot. by destruct (Ascii.eqb c ".").
Qed.

Lemma rstrip_dots_upper s :
  Text.rstrip_dots (Text.upper s) = Text.upper (Text.rstrip_dots s).
Proof.
  induction s as [|c s IH]; [done|]. simpl.
  rewrite IH, upper_char_dot.
  destruct (Text.rstrip_dots s); simpl; [|done].
  by destruct (Ascii.eqb c ".").
Qed.

Lemma strip_dots_upper s :
  Text.strip_dots (Text.upper s) = Text.upper (Text.strip_dots s).
Proof. unfold Text.strip_dots. by rewrite lstrip_dots_upper, rstrip_dots_upper. Qed.

(** The test of the script is a comparison of the extension with the
    allow-list that ignores case. *)
Lemma supported_nocase p :
  supported p = true
  ↔ ∃ t, t ∈ AVAILABLE_FILE_TYPES.ALL ∧ Text.upper (extension p) = Text.upper t.
Proof.
  unfold supported, extension. rewrite bool_decide_eq_true, strip_dots_upper.
  split.
  - intros Hin. exists (Text.upper (Text.strip_dots (Path.suffix p))).
    split; [done|].
    unfold AVAILABLE_FILE_TYPES.ALL in Hin.
    repeat (apply elem_of_cons in Hin as [-> | Hin]; [reflexivity|]).
    by apply elem_of_nil in Hin.
  - intros (t & Hin & ->).
    unfold AVAILABLE_FILE_TYPES.ALL in *.
    repeat (apply elem_of_cons in Hin as [-> | Hin]; [vm_compute; set_solver|]).
    by apply elem_of_nil in Hin.
Qed.

Lemma rfind_dot_append u : ∀ t,
  Text.rfind_dot (u +:+ t)
  = match Text.rfind_dot t with
    | Some i => Some (String.length u + i)
    | None => Text.rfind_dot u
    end.
Proof.
  induction u as [|c u IH]; intros t.
  - change ("" +:+ t) with t. simpl. by destruct (Text.rfind_dot t).
  - change (String c u +:+ t) with (String c (u +:+ t)).
    cbn [Text.rfind_dot]. rewrite IH.
    destruct (Text.rfind_dot t) as [i|]; [done|].
    by destruct (Text.rfind_dot u).
Qed.

Lemma drop_chars_append u : ∀ t, Text.drop_chars (String.length u) (u +:+ t) = t.
Proof. induction u as [|c u IH]; intros t; [done|]. apply IH. Qed.

Lemma length_append u : ∀ t,
  String.length (u +:+ t) = String.length u + String.length t.
Proof.
  induction u as [|c u IH]; intros t; [done|].
  change (String c u +:+ t) with (String c (u +:+ t)). simpl. by rewrite IH.
Qed.

(** What is cut at the last dot starts with the only dot it has. *)
Lemma rfind_dot_drop n : ∀ i,
  Text.rfind_dot n = Some i →
  Text.rfind_dot (Text.drop_chars i n) = Some 0
  ∧ String.length (Text.drop_chars i n) = String.length n - i.
Proof.
  induction n as [|c n IH]; intros i; [done|].
  cbn [Text.rfind_dot].
  destruct (Text.rfind_dot n) as [j|] eqn:Hn.
  - intros [= <-]. simpl. by apply IH.
  - destruct (Ascii.eqb c ".") eqn:Hc; [|done]. intros [= <-].
    cbn [Text.drop_chars Text.rfind_dot]. rewrite Hn, Hc. split; [done|].
    simpl. lia.
Qed.

(** The suffix of a path is empty, or a dot followed by at least one
    character and no other dot. *)
Lemma suffix_cases p :
  Path.suffix p = ""
  ∨ (Text.rfind_dot (Path.suffix p) = Some 0
     ∧ (2 ≤ String.length (Path.suffix p))%nat).
Proof.
  unfold Path.suffix.
  destruct (Text.rfind_dot (Path.name p)) as [i|] eqn:Hi; [|by left].
  destruct (0 <? i)%nat eqn:H0; [|by left].
  destruct (i <? String.length (Path.name p) - 1)%nat eqn:H1; [|by left].
  right. simpl. destruct (rfind_dot_drop _ _ Hi) as [-> ->].
  split; [done|]. apply Nat.ltb_lt in H1. lia.
Qed.

Lemma capital_code C :
  capital C → (65 ≤ nat_of_ascii C)%nat ∧ (nat_of_ascii C ≤ 90)%nat.
Proof.
  unfold capital. intros H. apply andb_true_iff in H as [H1 H2].
  by apply Nat.leb_le in H1, H2.
Qed.

Lemma code_small C : capital C → nat_of_ascii (small C) = nat_of_ascii C + 32.
Proof.
  intros [H1 H2]%capital_code. unfold small. apply nat_ascii_embedding. lia.
Qed.

(** [upper] on one character gives a capital exactly for that capital and
    for its small letter. *)
Lemma upper_char_capital c C :
  capital C → Text.upper_char c = C ↔ c = C ∨ c = small C.
Proof.
  intros HC. pose proof (code_small C HC) as Hs.
  apply capital_code in HC as [H1 H2].
  unfold Text.upper_char, Text.is_lower, Text.code. split.
  - destruct ((97 <=? nat_of_ascii c)%nat && (nat_of_ascii c <=? 122)%nat) eqn:Hl.
    + intros <-. right.
      apply andb_true_iff in Hl as [Ha Hb].
      apply Nat.leb_le in Ha, Hb.
      unfold small. rewrite nat_ascii_embedding by lia.
      replace (nat_of_ascii c - 32 + 32) with (nat_of_ascii c) by lia.
      by rewrite ascii_nat_embedding.
    + by left.
  - intros [->| ->].
    + assert ((97 <=? nat_of_ascii C)%nat = false) as ->
        by (apply Nat.leb_gt; lia).
      done.
    + rewrite Hs.
      assert ((97 <=? nat_of_ascii C + 32)%nat = true) as ->
        by (apply Nat.leb_le; lia).
      assert ((nat_of_ascii C + 32 <=? 122)%nat = true) as ->
        by (apply Nat.leb_le; lia).
      simpl. replace (nat_of_ascii C + 32 - 32) with (nat_of_ascii C) by lia.
      by rewrite ascii_nat_embedding.
Qed.

Lemma upper_spells word : ∀ ext,
  capitals word → Text.upper ext = word ↔ spells ext word.
Proof.
  induction word as [|C word IH]; intros [|c ext] Hw; simpl;
    [tauto|split; [discriminate|tauto]|split; [discriminate|tauto]|].
  destruct Hw as [HC Hw]. split.
  - intros [= Hc Hext]. split; [by apply upper_char_capital|by apply IH].
  - intros [Hc Hext]. f_equal; [by apply upper_char_capital|by apply IH].
Qed.

Lemma five_capitals word :
  word ∈ ["JPG"; "JPEG"; "TIF"; "TIFF"; "PNG"] →
  capitals word ∧ word ≠ "" ∧ Text.rfind_dot word = None
  ∧ Text.strip_dots (String "." word) = word
  ∧ word ∈ AVAILABLE_FILE_TYPES.ALL.
Proof.
  intros Hin.
  repeat (apply elem_of_cons in Hin as [-> | Hin];
          [split; [by repeat split|];
           split; [done|]; split; [done|]; split; [done|];
           unfold AVAILABLE_FILE_TYPES.ALL; set_solver|]).
  by apply elem_of_nil in Hin.
Qed.

Lemma all_five word :
  word ∈ AVAILABLE_FILE_TYPES.ALL →
  word ∈ ["JPG"; "JPEG"; "TIF"; "TIFF"; "PNG"].
Proof.
  unfold AVAILABLE_FILE_TYPES.ALL. intros Hin.
  repeat (apply elem_of_cons in Hin as [-> | Hin]; [set_solver|]).
  by apply elem_of_nil in Hin.
Qed.

Lemma rfind_dot_upper s :
  Text.rfind_dot (Text.upper s) = Text.rfind_dot s.
Proof.
  induction s as [|c s IH]; [done|].
  cbn [Text.upper Text.rfind_dot]. by rewrite IH, upper_char_dot.
Qed.

Lemma rstrip_no_dot s : Text.rfind_dot s = None → Text.rstrip_dots s = s.
Proof.
  induction s as [|c s IH]; [done|]. simpl.
  destruct (Text.rfind_dot s) as [i|] eqn:Hs; [done|].
  destruct (Ascii.eqb c ".") eqn:Hc; [done|]. intros _.
  rewrite IH by done. by destruct s.
Qed.

Lemma strip_no_dot s : Text.rfind_dot s = None → Text.strip_dots s = s.
Proof.
  intros Hs. unfold Text.strip_dots.
  assert (Text.lstrip_dots s = s) as ->.
  { destruct s as [|c s]; [done|]. simpl in *.
    destruct (Text.rfind_dot s); [done|].
    by destruct (Ascii.eqb c "."). }
  by apply rstrip_no_dot.
Qed.

Lemma take_drop_chars i : ∀ n,
  n = take_chars i n +:+ Text.drop_chars i n.
Proof.
  induction i as [|i IH]; intros [|c n]; try done.
  simpl. change (String c n = String c (take_chars i n +:+ Text.drop_chars i n)).
  by rewrite <- IH.
Qed.

Lemma take_chars_empty i n :
  (0 < i)%nat → n ≠ "" → take_chars i n ≠ "".
Proof. destruct i, n; try done. lia. Qed.

Lemma rfind_dot_zero s :
  Text.rfind_dot s = Some 0 →
  ∃ ext, s = String "." ext ∧ Text.rfind_dot ext = None.
Proof.
  destruct s as [|c s]; [done|]. simpl.
  destruct (Text.rfind_dot s) as [i|] eqn:Hs; [done|].
  destruct (Ascii.eqb_spec c "."); [|done]. intros _. subst c. by exists s.
Qed.

(** The suffix of a name: the last dot and what follows it, when there
    is something on both sides. *)
Lemma suffix_spec n ext :
  Text.rfind_dot ext = None → ext ≠ "" →
  Path.suffix [n] = String "." ext
  ↔ ∃ stem, stem ≠ "" ∧ n = stem +:+ "." +:+ ext.
Proof.
  intros Hext Hne. unfold Path.suffix.
  change (Path.name [n]) with n. cbv zeta. split.
  - destruct (Text.rfind_dot n) as [i|] eqn:Hi; [|done].
    destruct (0 <? i)%nat eqn:H0; [|done].
    destruct (i <? String.length n - 1)%nat eqn:H1; [|done].
    simpl. intros Hs. exists (take_chars i n). split.
    + apply take_chars_empty; [by apply Nat.ltb_lt|]. by destruct n.
    + rewrite (take_drop_chars i n) at 1. by rewrite Hs.
  - intros (stem & Hstem & ->).
    change (stem +:+ "." +:+ ext) with (stem +:+ String "." ext).
    rewrite rfind_dot_append. cbn [Text.rfind_dot]. rewrite Hext.
    change (Ascii.eqb "." ".") with true. cbv iota.
    rewrite Nat.add_0_r, length_append.
    assert (0 < String.length stem)%nat as Hpos
      by (destruct stem; [done|simpl; lia]).
    assert (0 < String.length ext)%nat as Hpos'
      by (destruct ext; [done|simpl; lia]).
    assert ((0 <? String.length stem)%nat = true) as -> by (by apply Nat.ltb_lt).
    assert ((String.length stem
             <? String.length stem + String.length (String "." ext) - 1)%nat
            = true) as -> by (apply Nat.ltb_lt; simpl; lia).
    simpl. apply drop_chars_append.
Qed.

Lemma upper_empty s : Text.upper s = "" → s = "".
Proof. by destruct s. Qed.

(** The test of [_get_files], on the name of the file. *)
Lemma supported_image_name p :
  supported p = true ↔ ∃ n, last p = Some n ∧ image_name n.
Proof.
  assert (Path.suffix p = match last p with
                          | Some n => Path.suffix [n]
                          | None => ""
                          end) as Hsuf.
  { unfold Path.suffix, Path.name.
    destruct p as [|c p] using rev_ind; [done|].
    by rewrite last_snoc, last_last. }
  unfold supported. rewrite bool_decide_eq_true, Hsuf. split.
  - intros Hin. apply all_five in Hin.
    destruct (five_capitals _ Hin) as (Hcap & Hne & Hnodot & _).
    destruct (last p) as [n|]; [|done].
    exists n. split; [done|].
    destruct (suffix_cases [n]) as [Hs|[Hdot Hlen]].
    { by rewrite Hs in Hne. }
    destruct (rfind_dot_zero _ Hdot) as (ext & Hs & Hext).
    rewrite Hs in Hin, Hne, Hnodot, Hcap, Hlen.
    assert (Text.strip_dots (Text.upper (String "." ext)) = Text.upper ext) as Hup.
    { change (Text.upper (String "." ext)) with (String "." (Text.upper ext)).
      unfold Text.strip_dots. cbn [Text.lstrip_dots].
      change (Ascii.eqb "." ".") with true. cbv iota.
      fold (Text.strip_dots (Text.upper ext)).
      apply strip_no_dot. by rewrite rfind_dot_upper. }
    rewrite Hup in Hin, Hne, Hnodot, Hcap.
    assert (ext ≠ "") as Hext' by (intros ->; by simpl in Hne).
    apply (suffix_spec n ext Hext Hext') in Hs as (stem & Hstem & ->).
    exists stem, ext, (Text.upper ext). repeat split; try done.
    by apply upper_spells.
  - intros (n & Hlast & stem & ext & word & -> & Hstem & Hin & Hsp).
    rewrite Hlast.
    destruct (five_capitals _ Hin) as (Hcap & Hne & Hnodot & Hstrip & Hall).
    apply upper_spells in Hsp; [|done].
    assert (Text.rfind_dot ext = None) as Hext
      by (by rewrite <- rfind_dot_upper, Hsp).
    assert (ext ≠ "") as Hext' by (intros ->; by rewrite <- Hsp in Hne).
    assert (Path.suffix [stem +:+ "." +:+ ext] = String "." ext) as ->
      by (apply suffix_spec; eauto).
    change (Text.upper (String "." ext)) with (String "." (Text.upper ext)).
    by rewrite Hsp, Hstrip.
Qed.

Example image_names :
  image_name "a.jpg" ∧ image_name "trip.2019.TiFf" ∧ image_name "..png"
  ∧ ¬ image_name ".png" ∧ ¬ image_name "a.jpg.txt" ∧ ¬ image_name "jpeg"
  ∧ ¬ image_name "a.jpg.".
Proof.
  assert (∀ n, supported [n] = false → ¬ image_name n) as Hno.
  { intros n Hn Himg.
    assert (supported [n] = true) as Hyes
      by (apply supported_image_name; by exists n).
    congruence. }
  split; [|split; [|split; [|split; [|split; [|split]]]]].
  - exists "a", "jpg", "JPG". split; [done|]. split; [done|].
    split; [set_solver|]. simpl. tauto.
  - exists "trip.2019", "TiFf", "TIFF". split; [done|]. split; [done|].
    split; [set_solver|]. simpl. tauto.
  - exists ".", "png", "PNG". split; [done|]. split; [done|].
    split; [set_solver|]. simpl. tauto.
  - by apply Hno.
  - by apply Hno.
  - by apply Hno.
  - by apply Hno.
Qed.

Lemma below_continues root : ∀ p,
  Path.below root p = true ↔ continues root p.
Proof.
  unfold continues. induction root as [|r root IH]; intros [|c p]; simpl.
  - split; [done|]. by intros (rest & Hne & <-).
  - split; [|done]. intros _. by exists (c :: p).
  - split; [done|]. by intros (rest & _ & ?).
  - rewrite andb_true_iff, IH. split.
    + intros [Hrc (rest & Hne & ->)]. apply String.eqb_eq in Hrc as ->.
      by exists rest.
    + intros (rest & Hne & [= -> ->]). split; [apply String.eqb_refl|].
      by exists rest.
Qed.

(** C7: Discovery splits the regular files found anywhere below the root
    into the included and the excluded ones; the two lists together are
    the files found, each once.  The files found are the regular files at
    the paths that continue the root, which must be a directory.  A file
    is included exactly when its name is a stem that is not empty, a dot,
    and one of JPG, JPEG, TIF, TIFF and PNG written in any mix of
    cases. *)
Theorem C7_discovery_partition root_dir w :
  ∃ valid_paths excluded_paths,
    _get_files root_dir w = (inr (valid_paths, excluded_paths), w)
    ∧ valid_paths ++ excluded_paths ≡ₚ found_paths (w_fs w) root_dir
    ∧ NoDup (valid_paths ++ excluded_paths)
    ∧ (∀ p, p ∈ found_paths (w_fs w) root_dir
            ↔ (root_dir = [] ∨ w_fs w !! root_dir = Some Dir)
              ∧ continues root_dir p
              ∧ ∃ c, w_fs w !! p = Some (File c))
    ∧ (∀ p, p ∈ valid_paths
            ↔ p ∈ found_paths (w_fs w) root_dir
              ∧ ∃ n, last p = Some n ∧ image_name n)
    ∧ (∀ p, p ∈ excluded_paths
            ↔ p ∈ found_paths (w_fs w) root_dir
              ∧ ¬ ∃ n, last p = Some n ∧ image_name n).
Proof.
  set (found := found_paths (w_fs w) root_dir).
  exists (filter (λ p, supported p) found), (filter (λ p, ¬ supported p) found).
  assert (Hperm : filter (λ p, supported p) found
                  ++ filter (λ p, ¬ supported p) found ≡ₚ found)
    by apply filter_app_complement.
  split; [|split; [|split; [|split; [|split]]]].
  - unfold _get_files. run. by rewrite classify_filter.
  - done.
  - rewrite Hperm. apply found_paths_NoDup.
  - intros p. unfold found. rewrite elem_of_found_paths, below_continues.
    assert (Fs.is_dir (w_fs w) root_dir = true
            ↔ root_dir = [] ∨ w_fs w !! root_dir = Some Dir) as ->.
    { unfold Fs.is_dir, Fs.node_at. destruct root_dir as [|r root]; [tauto|].
      destruct (w_fs w !! (r :: root)) as [[]|];
        (split; [try done; by right|try done; intros [?|?]; done]). }
    assert (continues root_dir p →
            Fs.is_file (w_fs w) p = true ↔ ∃ c, w_fs w !! p = Some (File c))
      as Hfile.
    { intros (rest & Hrest & ->). unfold Fs.is_file, Fs.node_at.
      destruct (root_dir ++ rest) as [|x q] eqn:Hp.
      { apply app_eq_nil in Hp as [_ ?]. done. }
      destruct (w_fs w !! (x :: q)) as [[c|]|];
        (split; [try done; eauto|try done; intros [? ?]; done]). }
    split; intros (Hroot & Hcont & Hf); (split; [done|split; [done|]]);
      by apply Hfile.
  - intros p. rewrite list_elem_of_filter, <- supported_image_name, Is_true_true.
    tauto.
  - intros p. rewrite list_elem_of_filter, <- supported_image_name, Is_true_true.
    tauto.
Qed.

End Discovery.

(** ** Validation and the missing root *)

Section Execute.

Variable E : env.

Lemma validate_option_error value all msg e :
  validate_option value all msg = inl e → e = ValueError msg.
Proof.
  unfold validate_option.
  destruct (truthy value); [|done].
  destruct (bool_decide _); [done|]. by intros [= <-].
Qed.

(** [_validate_args] raises nothing but [ValueError]. *)
Lemma validate_args_error a e :
  _validate_args a = inl e → ∃ msg, e = ValueError msg.
Proof.
  unfold _validate_args.
  destruct (truthy (a_root_dir a) && starts_with_dot (a_root_dir a)).
  { intros [= <-]. eauto. }
  destruct (validate_option (a_meta_type a) _ _) eqn:H1.
  { intros [= <-]. apply validate_option_error in H1. eauto. }
  destruct (validate_option (a_tag_type a) _ _) eqn:H2.
  { intros [= <-]. apply validate_option_error in H2. eauto. }
  destruct (validate_option (a_tag_info_search a) _ _) eqn:H3; [|done].
  intros [= <-]. apply validate_option_error in H3. eauto.
Qed.

(** C9: a root_dir that starts with a dot makes [execute] print the text of
    the [ValueError] and stop, whatever the path resolves to and with
    nothing else changed in the world; for the empty root_dir the test on
    the root is not made. *)
Theorem C9_dot_root_rejected :
  (∀ rest verbose rename_files meta_type tag_type tag_info_search w,
     execute E (String "." rest) verbose rename_files
             meta_type tag_type tag_info_search w
     = (inr (), add_out (Print "Invalid root path. Aborting attempt.") w))
  ∧ (∀ verbose rename_files meta_type tag_type tag_info_search,
       _validate_args {| a_root_dir := "";
                         a_verbose := verbose;
                         a_rename_files := rename_files;
                         a_meta_type := meta_type;
                         a_tag_type := tag_type;
                         a_tag_info_search := tag_info_search |}
       ≠ inl (ValueError "Invalid root path. Aborting attempt.")).
Proof.
  split.
  - intros. reflexivity.
  - intros verbose rename_files meta_type tag_type tag_info_search.
    unfold _validate_args. simpl.
    destruct (validate_option meta_type _ _) eqn:H1.
    { apply validate_option_error in H1 as ->. done. }
    destruct (validate_option tag_type _ _) eqn:H2.
    { apply validate_option_error in H2 as ->. done. }
    destruct (validate_option tag_info_search _ _) eqn:H3; [|done].
    apply validate_option_error in H3 as ->. done.
Qed.

(** C4 (amended): if the root directory does not resolve, nothing is
    moved and nothing is logged, and the run stops at once.  When the
    arguments fail validation it prints the message of the validation
    and returns.  Otherwise it prints the "not found" message and returns
    when a component of the path is missing, prints "embedded null byte"
    and returns when the text holds a null byte, and in the other cases
    (a component that is a regular file, a loop of links, another error
    of the system) prints nothing and lets the exception escape. *)
Theorem C4_missing_root_aborts root_dir verbose rename_files
    meta_type tag_type tag_info_search w :
  e_resolve E root_dir = None →
  ∃ w', execute E root_dir verbose rename_files
                meta_type tag_type tag_info_search w
        = ((abort_outcome {| a_root_dir := root_dir;
                             a_verbose := verbose;
                             a_rename_files := rename_files;
                             a_meta_type := meta_type;
                             a_tag_type := tag_type;
                             a_tag_info_search := tag_info_search |}
              (e_unresolved E root_dir)).1, w')
        ∧ w_fs w' = w_fs w
        ∧ w_log w' = w_log w
        ∧ w_out w' = w_out w ++
            (abort_outcome {| a_root_dir := root_dir;
                              a_verbose := verbose;
                              a_rename_files := rename_files;
                              a_meta_type := meta_type;
                              a_tag_type := tag_type;
                              a_tag_info_search := tag_info_search |}
               (e_unresolved E root_dir)).2.
Proof.
  intros Hroot. unfold execute, abort_outcome.
  destruct (_validate_args _) as [e|cleaned] eqn:Hargs.
  - destruct (validate_args_error _ _ Hargs) as [msg ->].
    erewrite try_except_inl by (run; reflexivity). simpl.
    eexists. split; [reflexivity|]. done.
  - erewrite try_except_inl; last first.
    { run. unfold resolve_strict. rewrite Hroot. reflexivity. }
    destruct (e_unresolved E root_dir); simpl;
      (eexists; split; [reflexivity|]; simpl; by rewrite ?app_nil_r).
Qed.

End Execute.

Lemma C4_missing_root_aborts_witness :
  ∃ w', execute Example.E "/album" false false "IPTC" "KEYWORDS" "YEAR" Example.w
        = ((abort_outcome {| a_root_dir := "/album";
                             a_verbose := false;
                             a_rename_files := false;
                             a_meta_type := "IPTC";
                             a_tag_type := "KEYWORDS";
                             a_tag_info_search := "YEAR" |}
              (e_unresolved Example.E "/album")).1, w')
        ∧ w_fs w' = w_fs Example.w
        ∧ w_log w' = w_log Example.w
        ∧ w_out w' = w_out Example.w ++
            (abort_outcome {| a_root_dir := "/album";
                              a_verbose := false;
                              a_rename_files := false;
                              a_meta_type := "IPTC";
                              a_tag_type := "KEYWORDS";
                              a_tag_info_search := "YEAR" |}
               (e_unresolved Example.E "/album")).2.
Proof.
  apply (C4_missing_root_aborts Example.E "/album" false false
           "IPTC" "KEYWORDS" "YEAR" Example.w).
  reflexivity.
Defined.

(** C4 as stated fails.  "./album" does not exist, and the run ends with
    the message of the validation, not with the "not found" one; and
    "/photos/notes.txt/album" does not exist, below a regular file, and
    the run prints nothing: [NotADirectoryError] escapes [execute]. *)
Lemma C4_counterexample :
  e_resolve Example.E "./album" = None
  ∧ execute Example.E "./album" false false "IPTC" "KEYWORDS" "YEAR" Example.w
    = (inr (), add_out (Print "Invalid root path. Aborting attempt.") Example.w)
  ∧ execute Example.E "./album" false false "IPTC" "KEYWORDS" "YEAR" Example.w
    ≠ (inr (), add_out (Print "Root directory was not found. Aborting attempt.")
                       (set_verbose false Example.w))
  ∧ e_resolve Example.E "/photos/notes.txt/album" = None
  ∧ execute Example.E "/photos/notes.txt/album" false false
      "IPTC" "KEYWORDS" "YEAR" Example.w
    = (inl NotADirectoryError, set_verbose false Example.w).
Proof.
  split; [reflexivity|]. split; [reflexivity|]. split.
  - intros H. apply (f_equal (λ r, w_out r.2)) in H. discriminate H.
  - split; reflexivity.
Qed.

(** ** The Mover: one outcome at most *)

Section MoverOutcomes.

Variable E : env.

(** A refused move leaves the file system as it was. *)
Lemma shutil_move_error src dst fs e fs' :
  Fs.shutil_move src dst fs = (inl e, fs') → fs' = fs.
Proof. unfold Fs.shutil_move. repeat case_match; by intros [= ?]. Qed.

Ltac settle o :=
  exists o; do 2 eexists; (split; [reflexivity|]); simpl; eauto.

(** One turn ends without an exception, in one of three ways. *)
Lemma move_image_turn img root_dir rename_files lists w :
  ∃ o lists' w',
    move_image E img root_dir rename_files lists w = (inr lists', w')
    ∧ turn o img root_dir lists lists' w w'.
Proof.
  unfold move_image, try_except, except_Exception, except_shutil_Error,
    mkdir, shutil_move, _gen_filename, Path_resolve, _v.
  run.
  destruct (Fs.mkdir (target_dir img root_dir) (w_fs w)) as [e|fs1] eqn:Hmk; simpl.
  { settle Failed. }
  destruct rename_files; simpl.
  - destruct (Fs.shutil_move _ _ fs1) as [[e|[p|]] fs2] eqn:Hmv; simpl;
      [|settle Moved|settle Failed].
    apply shutil_move_error in Hmv as ->.
    destruct e; simpl; try (settle Failed).
    destruct (w_verbose w) as [[|]|]; simpl; [| |settle Failed];
      (destruct (e_write_log E _ _); simpl; [settle Failed|settle NotMoved]).
  - destruct (Fs.shutil_move _ _ fs1) as [[e|[p|]] fs2] eqn:Hmv; simpl;
      [|settle Moved|settle Failed].
    apply shutil_move_error in Hmv as ->.
    destruct e; simpl; try (settle Failed).
    destruct (w_verbose w) as [[|]|]; simpl; [| |settle Failed];
      (destruct (e_write_log E _ _); simpl; [settle Failed|settle NotMoved]).
Qed.

Lemma with_outcome_cons o img images out outs :
  with_outcome o (img :: images) (out :: outs)
  = (if decide (out = o) then [mr_file_path img] else [])
    ++ with_outcome o images outs.
Proof.
  unfold with_outcome. simpl. rewrite filter_cons. simpl.
  by destruct (decide (out = o)).
Qed.

(** Every image of the batch has one of the three outcomes. *)
Lemma with_outcome_cover images : ∀ outs,
  List.length outs = List.length images →
  List.length (with_outcome Moved images outs)
  + List.length (with_outcome Failed images outs)
  + List.length (with_outcome NotMoved images outs)
  = List.length images.
Proof.
  induction images as [|img images IH]; intros [|out outs] Hlen; try done.
  rewrite !with_outcome_cons, !length_app. simpl in *.
  specialize (IH outs ltac:(lia)).
  destruct out; simpl; lia.
Qed.

Lemma move_images_from_outcomes root_dir rename_files images :
  ∀ idx total lists w,
  ∃ outs lists' w',
    move_images_from E images idx total root_dir rename_files lists w
      = (inr lists', w')
    ∧ List.length outs = List.length images
    ∧ map ms_old_filepath lists'.1
      = map ms_old_filepath lists.1 ++ with_outcome Moved images outs
    ∧ map mf_old_filepath lists'.2
      = map mf_old_filepath lists.2 ++ with_outcome Failed images outs
    ∧ List.length (w_log w')
      = List.length (w_log w) + List.length (with_outcome NotMoved images outs).
Proof.
  induction images as [|img images IH]; intros idx total lists w.
  - exists [], lists, w. simpl. rewrite !app_nil_r.
    repeat split; done.
  - destruct (move_image_turn img root_dir rename_files lists w)
      as (o & lists1 & w1 & Hrun & Hturn).
    destruct (IH (S idx) total lists1 (add_out (Progress idx total) w1))
      as (outs & lists' & w' & Hrest & Hlen & Hok & Hko & Hlog).
    exists (o :: outs), lists', w'.
    cbn [move_images_from]. rewrite (bind_inr _ _ _ _ _ Hrun).
    run. rewrite Hrest, Hok, Hko, Hlog, !with_outcome_cons. simpl.
    split; [done|]. split; [by rewrite Hlen|].
    destruct o; simpl in Hturn.
    + destruct Hturn as [[new_path ->] ->]. simpl.
      rewrite map_app, <- app_assoc. done.
    + destruct Hturn as [[e ->] ->]. simpl.
      rewrite map_app, <- app_assoc. done.
    + destruct Hturn as (-> & -> & _). simpl.
      rewrite length_app. simpl. repeat split; try done. lia.
Qed.

(** The whole batch: [_move_images] returns, and labels the images so that
    the successes are the images labelled [Moved], the failures those
    labelled [Failed], and each image labelled [NotMoved] left one entry in
    the log and nothing in either list. *)
Lemma move_images_outcomes images root_dir rename_files w :
  ∃ outs successful errors w',
    _move_images E images root_dir rename_files w
      = (inr (successful, errors), w')
    ∧ List.length outs = List.length images
    ∧ map ms_old_filepath successful = with_outcome Moved images outs
    ∧ map mf_old_filepath errors = with_outcome Failed images outs
    ∧ List.length (w_log w')
      = List.length (w_log w) + List.length (with_outcome NotMoved images outs)
    ∧ List.length successful + List.length errors
      + List.length (with_outcome NotMoved images outs)
      = List.length images.
Proof.
  destruct (move_images_from_outcomes root_dir rename_files images 0
              (List.length images) ([], []) (add_out (Print "Moving images...") w))
    as (outs & [successful errors] & w' & Hrun & Hlen & Hok & Hko & Hlog).
  exists outs, successful, errors,
    (add_out (Print (newline +:+ "Task complete.")) w').
  unfold _move_images. run. rewrite Hrun. simpl in *.
  repeat split; try done.
  rewrite <- (with_outcome_cover images outs Hlen), <- Hok, <- Hko.
  by rewrite !length_map.
Qed.

(** C1 (amended): when the tool is installed and every file has tags, each
    included file gets one tag-read record and one match result, in order;
    and for every batch of match results the Mover returns having given
    each of them one of three outcomes: a success record, a failure record,
    or, where the move was refused, no record in either list and one entry
    in the log. *)
Theorem C1_one_outcome_at_most tool file_paths :
  e_exiv2 E = Some tool →
  Forall (λ f, tr_tags (read_of tool f) ≠ []) file_paths →
  let reads := map (read_of tool) file_paths in
  let matches := map own_result reads in
  (∀ w, ∃ w', _get_iptc_keywords E file_paths w = (inr reads, w'))
  ∧ map tr_file_path reads = file_paths
  ∧ find_target_tags reads "YEAR" = inr matches
  ∧ map mr_file_path matches = file_paths
  ∧ (∀ images root_dir rename_files w,
       ∃ outs successful errors w',
         _move_images E images root_dir rename_files w
           = (inr (successful, errors), w')
         ∧ List.length outs = List.length images
         ∧ map ms_old_filepath successful = with_outcome Moved images outs
         ∧ map mf_old_filepath errors = with_outcome Failed images outs
         ∧ List.length (w_log w')
           = List.length (w_log w)
             + List.length (with_outcome NotMoved images outs)
         ∧ List.length successful + List.length errors
           + List.length (with_outcome NotMoved images outs)
           = List.length images).
Proof.
  intros Htool Htags reads matches.
  split; [|split; [|split; [|split]]].
  - intros w.
    by apply get_iptc_keywords_reads.
  - unfold reads. rewrite map_map. simpl. apply map_id.
  - apply find_target_tags_tagged. unfold reads.
    apply Forall_forall. intros r Hr. apply list_elem_of_In, in_map_iff in Hr.
    destruct Hr as (f & <- & Hf).
    rewrite Forall_forall in Htags. apply Htags. by apply list_elem_of_In.
  - unfold matches, reads. rewrite !map_map. simpl. apply map_id.
  - apply move_images_outcomes.
Qed.

End MoverOutcomes.

(** ** The file system under [mkdir] and [shutil.move] *)

Lemma node_at_snoc (fs : fsys) q (c : string) :
  Fs.node_at fs (q ++ [c]) = fs !! (q ++ [c]).
Proof. by destruct q. Qed.

Section FileSystem.

Variable fs : fsys.

Lemma parent_snoc q (c : string) : Path.parent (q ++ [c]) = q.
Proof. apply removelast_last. Qed.

Lemma name_snoc q (c : string) : Path.name (q ++ [c]) = c.
Proof. apply last_last. Qed.

Lemma is_dir_exists p : Fs.is_dir fs p = true → Fs.exists_ fs p = true.
Proof. unfold Fs.is_dir, Fs.exists_. by destruct (Fs.node_at fs p) as [[]|]. Qed.

(** In a well-formed file system whatever lies above an entry is a
    directory. *)
Lemma wf_above q r :
  Fs.wf fs → r ≠ [] → Fs.exists_ fs (q ++ r) = true → Fs.is_dir fs q = true.
Proof.
  intros Hwf. induction r as [|c r IH] using rev_ind; [done|].
  intros _ Hex. rewrite app_assoc in Hex.
  unfold Fs.exists_ in Hex. rewrite node_at_snoc in Hex.
  destruct (fs !! ((q ++ r) ++ [c])) as [n|] eqn:Hn; [|done].
  apply Hwf in Hn as [_ Hn]. rewrite parent_snoc in Hn.
  destruct r as [|d r]; [by rewrite app_nil_r in Hn|].
  apply IH; [done|]. by apply is_dir_exists.
Qed.

Lemma mkdir_from_walk todo : ∀ done rest,
  Fs.wf fs → Fs.is_dir fs (done ++ todo) = true →
  Fs.mkdir_from done (todo ++ rest) fs = Fs.mkdir_from (done ++ todo) rest fs.
Proof.
  induction todo as [|c todo IH]; intros done rest Hwf Hdir.
  - by rewrite app_nil_r.
  - simpl.
    assert (Fs.is_dir fs (done ++ [c]) = true) as Hc.
    { destruct todo as [|d todo].
      - done.
      - apply (wf_above _ (d :: todo)); [done..|].
        rewrite <- app_assoc. by apply is_dir_exists. }
    unfold Fs.is_dir in Hc. rewrite node_at_snoc in Hc.
    destruct (fs !! (done ++ [c])) as [[]|]; try done.
    rewrite IH; [|done|by rewrite <- app_assoc].
    by rewrite <- app_assoc.
Qed.

(** Making a directory that is there changes nothing. *)
Lemma mkdir_existing p :
  Fs.wf fs → Fs.is_dir fs p = true → Fs.mkdir p fs = inr fs.
Proof.
  intros Hwf Hdir. unfold Fs.mkdir.
  rewrite <- (app_nil_r p) at 1. by rewrite mkdir_from_walk.
Qed.

(** Making a missing directory inside one that is there adds one entry. *)
Lemma mkdir_missing q (c : string) :
  Fs.wf fs → Fs.is_dir fs q = true → Fs.node_at fs (q ++ [c]) = None →
  Fs.mkdir (q ++ [c]) fs = inr (<[q ++ [c] := Dir]> fs).
Proof.
  intros Hwf Hdir Hnone. unfold Fs.mkdir.
  rewrite mkdir_from_walk by done. simpl.
  rewrite node_at_snoc in Hnone. by rewrite Hnone.
Qed.

Lemma mkdir_child q (c : string) :
  Fs.wf fs → Fs.is_dir fs q = true → Fs.is_file fs (q ++ [c]) = false →
  Fs.mkdir (q ++ [c]) fs = inr (with_dir fs q c).
Proof.
  intros Hwf Hdir Hfile. unfold with_dir.
  destruct (Fs.is_dir fs (q ++ [c])) eqn:Hc.
  - by apply mkdir_existing.
  - apply mkdir_missing; [done..|].
    unfold Fs.is_dir, Fs.is_file in *.
    by destruct (Fs.node_at fs (q ++ [c])) as [[]|].
Qed.

Lemma with_dir_is_dir q c : Fs.is_dir (with_dir fs q c) (q ++ [c]) = true.
Proof.
  unfold with_dir. destruct (Fs.is_dir fs (q ++ [c])) eqn:Hc; [done|].
  unfold Fs.is_dir. by rewrite node_at_snoc, lookup_insert_eq.
Qed.

Lemma with_dir_other q c p :
  p ≠ q ++ [c] → Fs.node_at (with_dir fs q c) p = Fs.node_at fs p.
Proof.
  intros Hne. unfold with_dir. destruct (Fs.is_dir fs (q ++ [c])); [done|].
  destruct p; [done|]. simpl. by rewrite lookup_insert_ne.
Qed.

End FileSystem.

Section Moves.

Variable fs : fsys.

Lemma file_not_dir p c : Fs.node_at fs p = Some (File c) → Fs.is_dir fs p = false.
Proof. unfold Fs.is_dir. by intros ->. Qed.

Lemma rename_file src dir (n c : string) :
  Fs.node_at fs src = Some (File c) →
  Fs.is_dir fs dir = true →
  Fs.node_at fs (dir ++ [n]) = None →
  Fs.rename src (dir ++ [n]) fs = inr (<[dir ++ [n] := File c]> (delete src fs)).
Proof.
  intros Hsrc Hdir Hnone. unfold Fs.rename. rewrite Hsrc.
  rewrite bool_decide_eq_false_2 by (intros ->; congruence).
  rewrite Hnone, parent_snoc.
  unfold Fs.is_dir in Hdir. by destruct (Fs.node_at fs dir) as [[]|].
Qed.

(** A file moved into a directory where its name is free. *)
Lemma shutil_move_into_dir src dir c :
  Fs.node_at fs src = Some (File c) →
  Fs.is_dir fs dir = true →
  Fs.node_at fs (dir ++ [Path.name src]) = None →
  Fs.shutil_move src dir fs
  = (inr (Some (dir ++ [Path.name src])),
     <[dir ++ [Path.name src] := File c]> (delete src fs)).
Proof.
  intros Hsrc Hdir Hnone. unfold Fs.shutil_move. rewrite Hdir.
  rewrite bool_decide_eq_false_2
    by (intros ->; apply file_not_dir in Hsrc; congruence).
  unfold Fs.exists_. rewrite Hnone.
  by rewrite (rename_file src dir (Path.name src) c).
Qed.

(** A file moved to a free name in a directory. *)
Lemma shutil_move_to_name src dir (n : string) c :
  Fs.node_at fs src = Some (File c) →
  Fs.is_dir fs dir = true →
  Fs.node_at fs (dir ++ [n]) = None →
  Fs.shutil_move src (dir ++ [n]) fs
  = (inr (Some (dir ++ [n])), <[dir ++ [n] := File c]> (delete src fs)).
Proof.
  intros Hsrc Hdir Hnone. unfold Fs.shutil_move.
  unfold Fs.is_dir at 1. rewrite Hnone.
  by rewrite (rename_file src dir n c).
Qed.

(** A move into a directory where the name is taken is refused. *)
Lemma shutil_move_taken src dir :
  Fs.is_dir fs dir = true →
  src ≠ dir →
  Fs.exists_ fs (dir ++ [Path.name src]) = true →
  Fs.shutil_move src dir fs = (inl ShutilError, fs).
Proof.
  intros Hdir Hne Hex. unfold Fs.shutil_move. rewrite Hdir, Hex.
  by rewrite bool_decide_eq_false_2.
Qed.

End Moves.

Section MoverMoves.

Variable E : env.

Lemma target_dir_folder img root_dir :
  target_dir img root_dir = root_dir ++ [folder img].
Proof.
  unfold target_dir, folder. destruct (mr_toi img) as [toi|]; [|done].
  by destruct (truthy toi).
Qed.

(** An image that is a regular file, bound for a folder that is or can be
    made a directory below an existing root and in which its new name is
    free, is moved there and recorded as a success. *)
Lemma move_image_moves img root_dir rename_files lists w c :
  Fs.wf (w_fs w) →
  Fs.is_dir (w_fs w) root_dir = true →
  Fs.node_at (w_fs w) (mr_file_path img) = Some (File c) →
  Fs.is_file (w_fs w) (root_dir ++ [folder img]) = false →
  Fs.node_at (w_fs w)
    (root_dir ++ [folder img; new_name E w rename_files img]) = None →
  ∃ w', move_image E img root_dir rename_files lists w
        = (inr (lists.1 ++
                  [{| ms_new_filepath :=
                        root_dir ++ [folder img; new_name E w rename_files img];
                      ms_old_filepath := mr_file_path img |}],
                lists.2), w')
        ∧ Fs.node_at (w_fs w')
            (root_dir ++ [folder img; new_name E w rename_files img])
          = Some (File c)
        ∧ Fs.node_at (w_fs w') (mr_file_path img) = None.
Proof.
  replace (root_dir ++ [folder img; new_name E w rename_files img])
    with ((root_dir ++ [folder img]) ++ [new_name E w rename_files img])
    by (by rewrite <- app_assoc).
  intros Hwf Hroot Hsrc Hfolder Hfree.
  set (dir := root_dir ++ [folder img]) in *.
  set (n := new_name E w rename_files img) in *.
  set (fs1 := with_dir (w_fs w) root_dir (folder img)).
  assert (Fs.node_at fs1 (mr_file_path img) = Some (File c)) as Hsrc1.
  { unfold fs1. rewrite with_dir_other; [done|].
    intros Heq. unfold Fs.is_file in Hfolder.
    fold dir in Heq. by rewrite <- Heq, Hsrc in Hfolder. }
  assert (Fs.is_dir fs1 dir = true) as Hdir1 by apply with_dir_is_dir.
  assert (Fs.node_at fs1 (dir ++ [n]) = None) as Hfree1.
  { unfold fs1. rewrite with_dir_other; [done|].
    intros Heq. apply (f_equal List.length) in Heq.
    unfold dir in Heq. rewrite !length_app in Heq. simpl in Heq. lia. }
  assert (mr_file_path img ≠ dir ++ [n]) as Hne by (intros Heq; congruence).
  assert (Fs.node_at (<[dir ++ [n] := File c]> (delete (mr_file_path img) fs1))
            (dir ++ [n]) = Some (File c)) as Hthere.
  { rewrite node_at_snoc. by rewrite lookup_insert_eq. }
  assert (Fs.node_at (<[dir ++ [n] := File c]> (delete (mr_file_path img) fs1))
            (mr_file_path img) = None) as Hgone.
  { destruct (mr_file_path img) as [|x src] eqn:Hp; [done|].
    simpl. rewrite lookup_insert_ne by done. by rewrite lookup_delete_eq. }
  unfold move_image, try_except, except_Exception, except_shutil_Error,
    mkdir, shutil_move, _gen_filename, Path_resolve.
  run. rewrite target_dir_folder.
  rewrite (mkdir_child _ _ _ Hwf Hroot Hfolder). fold fs1. fold dir. simpl.
  unfold n, new_name in *. destruct rename_files; simpl.
  - rewrite (shutil_move_to_name fs1 _ dir _ c Hsrc1 Hdir1 Hfree1). simpl. eauto.
  - rewrite (shutil_move_into_dir fs1 _ dir c Hsrc1 Hdir1 Hfree1). simpl. eauto.
Qed.

(** An image bound for a directory that already holds its name: the turn
    ends without an exception, with the file system and the list of
    successes as they were. *)
Lemma move_image_taken img root_dir lists w :
  Fs.wf (w_fs w) →
  Fs.exists_ (w_fs w)
    (root_dir ++ [folder img; Path.name (mr_file_path img)]) = true →
  ∃ lists' w', move_image E img root_dir false lists w = (inr lists', w')
               ∧ lists'.1 = lists.1
               ∧ w_fs w' = w_fs w
               ∧ (w_verbose w ≠ None →
                  e_write_log E (w_writes w) MsgNotMoving = None →
                  mr_file_path img ≠ root_dir ++ [folder img] →
                  lists' = lists ∧ w_log w' = w_log w ++ [MsgNotMoving]).
Proof.
  intros Hwf Hex.
  set (dir := root_dir ++ [folder img]).
  assert (Fs.is_dir (w_fs w) dir = true) as Hdir.
  { apply (wf_above _ _ [Path.name (mr_file_path img)]); [done..|].
    unfold dir. by rewrite <- app_assoc. }
  assert (Fs.exists_ (w_fs w) (dir ++ [Path.name (mr_file_path img)]) = true)
    as Hex' by (unfold dir; by rewrite <- app_assoc).
  unfold move_image, try_except, except_Exception, except_shutil_Error,
    mkdir, shutil_move, Path_resolve, _v.
  run. rewrite target_dir_folder. fold dir.
  rewrite (mkdir_existing _ _ Hwf Hdir). simpl.
  assert (set_fs (w_fs w) w = w) as -> by (by destruct w).
  destruct (decide (mr_file_path img = dir)) as [Heq|Hne].
  - unfold Fs.shutil_move. rewrite Hdir, bool_decide_eq_true_2 by done. simpl.
    assert (set_fs (w_fs w) w = w) as -> by (by destruct w).
    do 2 eexists. split; [reflexivity|]. simpl. repeat split; done.
  - rewrite (shutil_move_taken _ _ _ Hdir Hne Hex'). simpl.
    assert (set_fs (w_fs w) w = w) as -> by (by destruct w).
    destruct (w_verbose w) as [[|]|] eqn:Hv; simpl;
      [| |do 2 eexists; split; [reflexivity|]; simpl; repeat split; done];
      (destruct (e_write_log E _ _) eqn:Hlog; simpl;
       do 2 eexists; (split; [reflexivity|]); simpl; repeat split; done).
Qed.

End MoverMoves.

(** ** The Mover: where a file goes *)

Section MoverClaims.

Variable E : env.

Lemma suffix_snoc q (n : string) : Path.suffix (q ++ [n]) = Path.suffix [n].
Proof. unfold Path.suffix. by rewrite !name_snoc. Qed.

(** C5 (amended): a file a.jpg whose first tag matching the date pattern is
    "Location DATE: 1984 Paris", in a batch of files that all have tags,
    gets the token "1984"; and when it is a regular file, the root is a
    directory in which 1984 is or can be made a directory, and the name it
    is to get there is free, it is moved to <root>/1984/a.jpg with the
    rename flag unset and to <root>/1984/<uuid>.jpg with the flag set. *)
Theorem C5_first_dated_tag_decides dir pre post errs before after
    root_dir (rename_files : bool) lists w c :
  let f := {| tr_file_path := dir ++ ["a.jpg"];
              tr_tags := pre ++ "Location DATE: 1984 Paris" :: post;
              tr_errors := errs |} in
  let img := {| mr_file_path := dir ++ ["a.jpg"];
                mr_toi := Some "1984";
                mr_errors := "" |} in
  let n := if rename_files then e_uuid4 E (w_draws w) +:+ ".jpg" else "a.jpg" in
  Forall (λ t, ¬ dated t) pre →
  Forall (λ f, tr_tags f ≠ []) before →
  Forall (λ f, tr_tags f ≠ []) after →
  Fs.wf (w_fs w) →
  Fs.is_dir (w_fs w) root_dir = true →
  Fs.node_at (w_fs w) (dir ++ ["a.jpg"]) = Some (File c) →
  Fs.is_file (w_fs w) (root_dir ++ ["1984"]) = false →
  Fs.node_at (w_fs w) (root_dir ++ ["1984"; n]) = None →
  find_target_tags (before ++ f :: after) "YEAR"
  = inr (map own_result before ++ img :: map own_result after)
  ∧ ∃ w', move_image E img root_dir rename_files lists w
          = (inr (lists.1 ++ [{| ms_new_filepath := root_dir ++ ["1984"; n];
                                 ms_old_filepath := dir ++ ["a.jpg"] |}],
                  lists.2), w')
          ∧ Fs.node_at (w_fs w') (root_dir ++ ["1984"; n]) = Some (File c)
          ∧ Fs.node_at (w_fs w') (dir ++ ["a.jpg"]) = None.
Proof.
  intros f img n Hpre Hbefore Hafter Hwf Hroot Hsrc Hfolder Hfree.
  split.
  - rewrite find_target_tags_tagged.
    + rewrite map_app. simpl. do 3 f_equal.
      unfold own_result, f, img. simpl. f_equal.
      rewrite first_match_skip; [done|].
      eapply Forall_impl; [exact Hpre|]. intros t. apply search_none_undated.
    + apply Forall_app. split; [done|]. constructor; [|done].
      unfold f. simpl. by destruct pre.
  - assert (new_name E w rename_files img = n) as Hn.
    { unfold new_name, n, img. simpl. rewrite suffix_snoc, name_snoc.
      by destruct rename_files. }
    pose proof (move_image_moves E img root_dir rename_files lists w c) as Hmove.
    rewrite Hn in Hmove. by apply Hmove.
Qed.

(** C6: with the rename flag unset, an image whose destination already
    holds a file of its name costs no exception: the turn returns, nothing
    in the file system changes, so that the file stays where it was, the
    list of successes is as before, and the loop goes on with the images
    that remain and returns. *)
Theorem C6_collision_is_not_fatal img rest idx total root_dir lists w :
  Fs.wf (w_fs w) →
  Fs.exists_ (w_fs w)
    (root_dir ++ [folder img; Path.name (mr_file_path img)]) = true →
  ∃ lists' w',
    move_image E img root_dir false lists w = (inr lists', w')
    ∧ lists'.1 = lists.1
    ∧ w_fs w' = w_fs w
    ∧ move_images_from E (img :: rest) idx total root_dir false lists w
      = move_images_from E rest (S idx) total root_dir false lists'
          (add_out (Progress idx total) w')
    ∧ ∃ result w'',
        move_images_from E (img :: rest) idx total root_dir false lists w
        = (inr result, w'').
Proof.
  intros Hwf Hex.
  destruct (move_image_taken E img root_dir lists w Hwf Hex)
    as (lists' & w' & Hrun & Hok & Hfs & _).
  exists lists', w'. repeat split; try done.
  - cbn [move_images_from]. rewrite (bind_inr _ _ _ _ _ Hrun). by run.
  - destruct (move_images_from_outcomes E root_dir false (img :: rest)
                idx total lists w) as (_ & result & w'' & Hall & _).
    eauto.
Qed.

End MoverClaims.

Lemma fs_wf : Fs.wf Example.fs.
Proof. apply (bool_decide_unpack (Fs.wf Example.fs)). vm_compute. exact I. Defined.

Lemma fs_later_wf : Fs.wf Example.fs_later.
Proof. apply (bool_decide_unpack (Fs.wf Example.fs_later)). vm_compute. exact I. Defined.

Lemma C6_collision_witness :
  ∃ lists' w',
    move_image Example.E (Example.found Example.a_jpg' (Some "1984"))
      Example.root false ([], []) Example.w_later = (inr lists', w')
    ∧ lists'.1 = []
    ∧ w_fs w' = Example.fs_later.
Proof.
  destruct (C6_collision_is_not_fatal Example.E
              (Example.found Example.a_jpg' (Some "1984")) [] 0 1
              Example.root ([], []) Example.w_later fs_later_wf)
    as (lists' & w' & Hrun & Hok & Hfs & _).
  - vm_compute. reflexivity.
  - exists lists', w'. repeat split; assumption.
Defined.

Lemma C5_first_dated_tag_witness :
  find_target_tags [Example.tagged Example.a_jpg] "YEAR"
  = inr [Example.found Example.a_jpg (Some "1984")]
  ∧ ∃ w', move_image Example.E (Example.found Example.a_jpg (Some "1984"))
            Example.root false ([], []) Example.w
          = (inr ([{| ms_new_filepath := ["photos"; "1984"; "a.jpg"];
                      ms_old_filepath := Example.a_jpg |}], []), w')
          ∧ Fs.node_at (w_fs w') ["photos"; "1984"; "a.jpg"] = Some (File "first")
          ∧ Fs.node_at (w_fs w') Example.a_jpg = None.
Proof.
  apply (C5_first_dated_tag_decides Example.E ["photos"] [] [] "" [] []
           Example.root false ([], []) Example.w "first").
  - apply Forall_nil_2.
  - apply Forall_nil_2.
  - apply Forall_nil_2.
  - exact fs_wf.
  - reflexivity.
  - reflexivity.
  - reflexivity.
  - reflexivity.
Defined.

(** C5 as stated fails: the tags of a.jpg include the 1984 tag, but an
    earlier tag has a date too and decides, so the token is "2001" and the
    file goes to <root>/2001. *)
Lemma C5_counterexample :
  find_target_tags
    [{| tr_file_path := Example.a_jpg;
        tr_tags := ["Date 2001"; "Location DATE: 1984 Paris"];
        tr_errors := "" |}] "YEAR"
  = inr [Example.found Example.a_jpg (Some "2001")]
  ∧ (_move_images Example.E [Example.found Example.a_jpg (Some "2001")]
       Example.root false Example.w).1
    = inr ([{| ms_new_filepath := ["photos"; "2001"; "a.jpg"];
               ms_old_filepath := Example.a_jpg |}], []).
Proof. split; vm_compute; reflexivity. Qed.

Lemma C1_one_outcome_witness :
  find_target_tags
    (map (read_of Example.tool) [Example.a_jpg; Example.a_jpg']) "YEAR"
  = inr (map own_result
           (map (read_of Example.tool) [Example.a_jpg; Example.a_jpg']))
  ∧ ∃ outs successful errors w',
      _move_images Example.E
        [Example.found Example.a_jpg (Some "1984");
         Example.found Example.a_jpg' (Some "1984")]
        Example.root false Example.w
      = (inr (successful, errors), w')
      ∧ List.length outs = 2
      ∧ List.length successful + List.length errors
        + List.length
            (with_outcome NotMoved
               [Example.found Example.a_jpg (Some "1984");
                Example.found Example.a_jpg' (Some "1984")] outs)
        = 2.
Proof.
  destruct (C1_one_outcome_at_most Example.E Example.tool
              [Example.a_jpg; Example.a_jpg'])
    as (_ & _ & Hmatch & _ & Hmove).
  - reflexivity.
  - apply (bool_decide_unpack
             (Forall (λ f, tr_tags (read_of Example.tool f) ≠ [])
                     [Example.a_jpg; Example.a_jpg'])).
    vm_compute. exact I.
  - split; [exact Hmatch|].
    destruct (Hmove [Example.found Example.a_jpg (Some "1984");
                     Example.found Example.a_jpg' (Some "1984")]
                Example.root false Example.w)
      as (outs & successful & errors & w' & Hrun & Hlen & _ & _ & _ & Hsum).
    exists outs, successful, errors, w'. repeat split; assumption.
Defined.

(** C1 as stated fails: of two images with one name and one year the
    second finds its destination taken; the batch of two leaves one
    success, no failure, and for the second image no record at all. *)
Lemma C1_counterexample :
  (_move_images Example.E
     [Example.found Example.a_jpg (Some "1984");
      Example.found Example.a_jpg' (Some "1984")]
     Example.root false Example.w).1
  = inr ([{| ms_new_filepath := ["photos"; "1984"; "a.jpg"];
             ms_old_filepath := Example.a_jpg |}], []).
Proof. vm_compute. reflexivity. Qed.

(** ** Files without a date *)

Section Undated.

Variable E : env.

(** A file with tags none of which has a date, in a batch of files that
    all have tags, gets no token, and with the rename flag unset it is
    moved under its own name to <root>/unorganised when that is possible. *)
Lemma undated_file_goes_to_unorganised f before after root_dir lists w c :
  tr_tags f ≠ [] →
  Forall (λ t, ¬ dated t) (tr_tags f) →
  Forall (λ f, tr_tags f ≠ []) before →
  Forall (λ f, tr_tags f ≠ []) after →
  Fs.wf (w_fs w) →
  Fs.is_dir (w_fs w) root_dir = true →
  Fs.node_at (w_fs w) (tr_file_path f) = Some (File c) →
  Fs.is_file (w_fs w) (root_dir ++ ["unorganised"]) = false →
  Fs.node_at (w_fs w)
    (root_dir ++ ["unorganised"; Path.name (tr_file_path f)]) = None →
  find_target_tags (before ++ f :: after) "YEAR"
  = inr (map own_result before
         ++ {| mr_file_path := tr_file_path f; mr_toi := None; mr_errors := "" |}
         :: map own_result after)
  ∧ ∃ w', move_image E
            {| mr_file_path := tr_file_path f; mr_toi := None; mr_errors := "" |}
            root_dir false lists w
          = (inr (lists.1 ++
                    [{| ms_new_filepath :=
                          root_dir ++ ["unorganised"; Path.name (tr_file_path f)];
                        ms_old_filepath := tr_file_path f |}],
                  lists.2), w')
          ∧ Fs.node_at (w_fs w')
              (root_dir ++ ["unorganised"; Path.name (tr_file_path f)])
            = Some (File c)
          ∧ Fs.node_at (w_fs w') (tr_file_path f) = None.
Proof.
  intros Htags Hnone Hbefore Hafter Hwf Hroot Hsrc Hfolder Hfree.
  split.
  - rewrite find_target_tags_tagged.
    + rewrite map_app. simpl. do 2 f_equal.
      unfold own_result. rewrite first_match_none; [done|].
      eapply Forall_impl; [exact Hnone|]. intros t. apply search_none_undated.
    + apply Forall_app. split; [done|]. by constructor.
  - by apply (move_image_moves E
                {| mr_file_path := tr_file_path f; mr_toi := None; mr_errors := "" |}
                root_dir false lists w c).
Qed.

End Undated.

(** C3: a file none of whose tags has a date should get no token and go to
    <root>/unorganised.  A file with no tags at all, coming after a file
    dated 1984, gets the token "1984" and is moved to <root>/1984, nothing
    arriving in <root>/unorganised; coming first, it makes the Matcher
    raise. *)
Theorem C3_untagged_file_follows_neighbour :
  find_target_tags [Example.tagged Example.a_jpg; Example.untagged Example.b_png]
    "YEAR"
  = inr [Example.found Example.a_jpg (Some "1984");
         Example.found Example.b_png (Some "1984")]
  ∧ (_move_images Example.E
       [Example.found Example.a_jpg (Some "1984");
        Example.found Example.b_png (Some "1984")]
       Example.root false Example.w).1
    = inr ([{| ms_new_filepath := ["photos"; "1984"; "a.jpg"];
               ms_old_filepath := Example.a_jpg |};
            {| ms_new_filepath := ["photos"; "1984"; "b.png"];
               ms_old_filepath := Example.b_png |}], [])
  ∧ Fs.node_at
      (w_fs (_move_images Example.E
               [Example.found Example.a_jpg (Some "1984");
                Example.found Example.b_png (Some "1984")]
               Example.root false Example.w).2)
      ["photos"; "unorganised"; "b.png"] = None
  ∧ find_target_tags [Example.untagged Example.b_png; Example.tagged Example.a_jpg]
      "YEAR"
    = inl UnboundLocalError.
Proof. repeat split; vm_compute; reflexivity. Qed.

(** * Further properties *)

(** ** More on the Matcher *)

Section MatcherMore.

Lemma scan_tags_ok tags : ∀ m, match_ok m → match_ok (scan_tags tags m).
Proof.
  induction tags as [|tag rest IH]; intros m Hm; simpl; [done|].
  destruct (Re.search tag) as [g|] eqn:Hs.
  - simpl. by apply search_shape in Hs.
  - by apply IH.
Qed.

Lemma match_files_ok files : ∀ m results matches,
  match_ok m → Forall token_ok results →
  match_files files m results = inr matches →
  Forall token_ok matches.
Proof.
  induction files as [|f rest IH]; intros m results matches Hm Hres; simpl.
  - by intros [= <-].
  - pose proof (scan_tags_ok (tr_tags f) m Hm) as Hscan.
    destruct (scan_tags (tr_tags f) m) as [|m']; [done|].
    apply IH; [done|].
    apply Forall_app. split; [done|]. by repeat constructor.
Qed.

Lemma match_files_errors files : ∀ m results matches,
  Forall (λ r, mr_errors r = "") results →
  match_files files m results = inr matches →
  Forall (λ r, mr_errors r = "") matches.
Proof.
  induction files as [|f rest IH]; intros m results matches Hres; simpl.
  - by intros [= <-].
  - destruct (scan_tags (tr_tags f) m) as [|m']; [done|].
    apply IH. apply Forall_app. split; [done|]. by repeat constructor.
Qed.

Lemma match_files_cons_tagged f rest m results :
  tr_tags f ≠ [] →
  match_files (f :: rest) m results
  = match_files rest (Bound (first_match (tr_tags f))) (results ++ [own_result f]).
Proof. intros Hf. cbn [match_files]. by rewrite scan_tags_nonempty. Qed.

(** X1: in the year mode [find_target_tags] raises [UnboundLocalError]
    exactly when the batch starts with a file without tags; in every other
    case it returns one record per file, in the order of the batch, each
    with an empty error text. *)
Theorem matcher_raises_iff_first_untagged files :
  (find_target_tags files "YEAR" = inl UnboundLocalError
   ∧ ∃ f rest, files = f :: rest ∧ tr_tags f = [])
  ∨ ((∀ f rest, files = f :: rest → tr_tags f ≠ [])
     ∧ ∃ matches,
         find_target_tags files "YEAR" = inr matches
         ∧ map mr_file_path matches = map tr_file_path files
         ∧ Forall (λ r, mr_errors r = "") matches).
Proof.
  destruct files as [|f rest].
  - right. split; [done|]. exists []. by repeat split.
  - destruct (tr_tags f) as [|tag tags] eqn:Hf.
    + left. split; [by apply untagged_first_raises|]. by exists f, rest.
    + right. split; [intros ? ? [= <- <-]; by rewrite Hf|].
      assert (tr_tags f ≠ []) as Hne by (by rewrite Hf).
      unfold find_target_tags.
      change (String.eqb "YEAR" AVAILABLE_TAG_INFO_SEARCH.YEAR) with true.
      cbv iota. rewrite (match_files_cons_tagged f rest Unbound [] Hne).
      destruct (match_files_bound rest (first_match (tr_tags f))
                  ([] ++ [own_result f])) as [matches Hrun].
      rewrite Hrun. eexists. split; [done|]. split.
      * apply match_files_paths in Hrun. by rewrite Hrun.
      * eapply match_files_errors; [|exact Hrun]. by repeat constructor.
Qed.

(** X2: whatever the search mode and the batch, a record returned by
    [find_target_tags] carries no token or a token of four digits (four
    characters that [\d] matches), so that the folder the Mover derives
    from it is a direct child of the root named by four digits or
    "unorganised". *)
Theorem matcher_tokens_are_years files tag_info_search matches :
  find_target_tags files tag_info_search = inr matches →
  Forall (λ img, token_ok img
                 ∧ ∀ root_dir,
                     target_dir img root_dir = root_dir ++ [folder img]
                     ∧ (folder img = "unorganised" ∨ is_year (folder img)))
         matches.
Proof.
  intros Hrun.
  assert (Forall token_ok matches) as Hok.
  { unfold find_target_tags in Hrun.
    destruct (String.eqb _ _); [|injection Hrun as <-; constructor].
    by eapply (match_files_ok files Unbound []). }
  eapply Forall_impl; [exact Hok|].
  intros img Himg. split; [done|]. intros root_dir.
  split; [apply target_dir_folder|].
  unfold token_ok in Himg. unfold folder.
  destruct (mr_toi img) as [g|]; [|by left].
  destruct (truthy g); [by right|by left].
Qed.

End MatcherMore.

Lemma matcher_tokens_are_years_witness :
  Forall (λ img, token_ok img
                 ∧ ∀ root_dir,
                     target_dir img root_dir = root_dir ++ [folder img]
                     ∧ (folder img = "unorganised" ∨ is_year (folder img)))
         [Example.found Example.a_jpg (Some "1984");
          Example.found Example.b_png None].
Proof.
  apply (matcher_tokens_are_years
           [Example.tagged Example.a_jpg; Example.plain Example.b_png] "YEAR").
  vm_compute. reflexivity.
Defined.

(** ** More on the pattern *)

Section PatternMore.

Lemma append_length_inv a : ∀ a' b b',
  a +:+ b = a' +:+ b' → String.length a = String.length a' → a = a' ∧ b = b'.
Proof.
  induction a as [|c a IH]; intros [|c' a'] b b' Heq Hlen; try done.
  injection Heq as -> Heq. injection Hlen as Hlen.
  destruct (IH a' b b' Heq Hlen) as [-> ->]. done.
Qed.

Lemma date_word_length d : is_date_word d → String.length d = 4.
Proof. by intros (a & b & c & e & -> & _). Qed.

Lemma match_here_spec rest :
  is_Some (Re.match_here rest)
  ↔ ∃ d mid g post, rest = d +:+ mid +:+ g +:+ post
                    ∧ is_date_word d ∧ one_line mid ∧ is_year g.
Proof.
  unfold Re.match_here. split.
  - destruct (Re.after_date rest) as [tail|] eqn:Hd; [|by intros [? ?]].
    intros Hm. apply after_date_spec in Hd as (d & -> & Hd).
    apply dotstar_year_spec in Hm as (mid & g & post & -> & Hmid & Hg).
    by exists d, mid, g, post.
  - intros (d & mid & g & post & -> & Hd & Hmid & Hg).
    assert (Re.after_date (d +:+ mid +:+ g +:+ post) = Some (mid +:+ g +:+ post))
      as -> by (apply after_date_spec; eauto).
    apply dotstar_year_spec. by exists mid, g, post.
Qed.

(** X3: the token taken from a tag.  The tag is cut as text, the word
    "date", a run without newline, the four digits of the token, and a
    rest; no other such cut starts the word "date" earlier, and among the
    cuts that start it at the same place none has a longer run before the
    digits: the first "date" counts, and after it the last four digits in
    a row. *)
Theorem token_is_last_year_after_first_date s g :
  Re.search s = Some g →
  ∃ pre d mid post,
    s = pre +:+ d +:+ mid +:+ g +:+ post
    ∧ is_date_word d ∧ one_line mid ∧ is_year g
    ∧ ∀ pre' d' mid' g' post',
        s = pre' +:+ d' +:+ mid' +:+ g' +:+ post' →
        is_date_word d' → one_line mid' → is_year g' →
        (String.length pre ≤ String.length pre')%nat
        ∧ (String.length pre' = String.length pre →
           (String.length mid' ≤ String.length mid)%nat).
Proof.
  intros Hs.
  destruct (search_leftmost s g Hs) as (pre & rest & -> & Hrest & Hmin).
  unfold Re.match_here in Hrest.
  destruct (Re.after_date rest) as [tail|] eqn:Hd; [|done].
  apply after_date_spec in Hd as (d & -> & Hd).
  destruct (dotstar_year_greedy tail g Hrest)
    as (mid & post & -> & Hmid & Hg & Hmax).
  exists pre, d, mid, post.
  split; [done|]. split; [done|]. split; [done|]. split; [done|].
  intros pre' d' mid' g' post' Heq Hd' Hmid' Hg'. split.
  - apply (Hmin pre' (d' +:+ mid' +:+ g' +:+ post')); [done|].
    apply match_here_spec. by exists d', mid', g', post'.
  - intros Hlen.
    destruct (append_length_inv _ _ _ _ Heq (eq_sym Hlen)) as [_ Hrest'].
    destruct (append_length_inv _ _ _ _ Hrest') as [_ Htail].
    { by rewrite !date_word_length. }
    by apply (Hmax mid' g' post').
Qed.

End PatternMore.

Lemma token_is_last_year_witness :
  ∃ pre d mid post,
    "Born DATE: 1984, married date 2001-2002" = pre +:+ d +:+ mid +:+ "2002" +:+ post
    ∧ is_date_word d ∧ one_line mid ∧ is_year "2002"
    ∧ ∀ pre' d' mid' g' post',
        "Born DATE: 1984, married date 2001-2002"
          = pre' +:+ d' +:+ mid' +:+ g' +:+ post' →
        is_date_word d' → one_line mid' → is_year g' →
        (String.length pre ≤ String.length pre')%nat
        ∧ (String.length pre' = String.length pre →
           (String.length mid' ≤ String.length mid)%nat).
Proof.
  apply (token_is_last_year_after_first_date
           "Born DATE: 1984, married date 2001-2002" "2002").
  vm_compute. reflexivity.
Defined.

Section MatcherDated.

Lemma first_match_dated tags :
  is_Some (first_match tags) ↔ Exists dated tags.
Proof.
  induction tags as [|tag rest IH]; simpl.
  - split; [by intros [? ?]|by intros ?%Exists_nil].
  - rewrite Exists_cons, <- IH, <- search_dated.
    destruct (Re.search tag); split; eauto.
    + intros [[? ?]|?]; done.
Qed.

(** X4: a file with tags, alone in the batch, gets a token exactly when
    one of its tags has the word "date" in any case followed on the same
    line by four digits in a row, and the token is then made of four
    digits. *)
Theorem tagged_file_token_iff_dated f :
  tr_tags f ≠ [] →
  ∃ toi,
    find_target_tags [f] "YEAR"
    = inr [{| mr_file_path := tr_file_path f; mr_toi := toi; mr_errors := "" |}]
    ∧ (is_Some toi ↔ Exists dated (tr_tags f))
    ∧ ∀ g, toi = Some g → is_year g.
Proof.
  intros Hf. exists (first_match (tr_tags f)). split; [|split].
  - by rewrite (find_target_tags_tagged [f]) by (by constructor).
  - apply first_match_dated.
  - intros g. apply first_match_shape.
Qed.

End MatcherDated.

Lemma tagged_file_token_witness :
  ∃ toi,
    find_target_tags [Example.tagged Example.a_jpg] "YEAR"
    = inr [{| mr_file_path := Example.a_jpg; mr_toi := toi; mr_errors := "" |}]
    ∧ (is_Some toi ↔ Exists dated ["Location DATE: 1984 Paris"])
    ∧ ∀ g, toi = Some g → is_year g.
Proof.
  apply (tagged_file_token_iff_dated (Example.tagged Example.a_jpg)).
  discriminate.
Defined.

(** ** More on the Metadata Reader *)

Section ReaderMore.

Lemma append_assoc (a b c : string) : (a +:+ b) +:+ c = a +:+ b +:+ c.
Proof.
  induction a as [|x a IH]; [done|].
  change (String x ((a +:+ b) +:+ c) = String x (a +:+ b +:+ c)). by rewrite IH.
Qed.

Lemma append_empty_r (a : string) : a +:+ "" = a.
Proof.
  induction a as [|x a IH]; [done|].
  change (String x (a +:+ "") = String x a). by rewrite IH.
Qed.

Lemma append_not_empty (a b : string) : a ≠ "" → a +:+ b ≠ "".
Proof. by destruct a. Qed.

(** Reading through a run without white space only grows the field. *)
Lemma split_from_run f : ∀ cur rest,
  Text.all_chars (λ c, negb (Text.is_space c)) f = true →
  Text.split_from cur (f +:+ rest) = Text.split_from (cur +:+ f) rest.
Proof.
  induction f as [|c f IH]; intros cur rest Hf.
  - by rewrite append_empty_r.
  - simpl in Hf. apply andb_true_iff in Hf as [Hc Hf].
    apply negb_true_iff in Hc.
    change (String c f +:+ rest) with (String c (f +:+ rest)).
    cbn [Text.split_from]. rewrite Hc, IH by done.
    unfold Text.snoc. rewrite append_assoc. done.
Qed.

Lemma eqb_empty_false (s : string) : s ≠ "" → String.eqb s "" = false.
Proof. intros Hs. by apply String.eqb_neq. Qed.

(** Fields joined by single spaces split into the same fields. *)
Lemma split_join fields :
  Forall is_field fields → Text.split (Text.join " " fields) = fields.
Proof.
  unfold Text.split, Text.join.
  induction 1 as [|f rest [Hne Hf] Hrest IH]; [done|].
  destruct rest as [|g rest].
  - cbn [String.concat]. rewrite <- (append_empty_r f) at 1.
    rewrite split_from_run by done.
    cbn [Text.split_from String.append]. by rewrite eqb_empty_false.
  - change (String.concat " " (f :: g :: rest))
      with (f +:+ String " " (String.concat " " (g :: rest))).
    rewrite split_from_run by done.
    cbn [Text.split_from String.append].
    change (Text.is_space " ") with true. cbv iota.
    rewrite eqb_empty_false by done. by rewrite IH.
Qed.

(** X5: the tag kept for a line is in normal form: split again it gives
    the fields of the line from the fourth on, and it is those fields
    joined by single spaces, so that it has no white space at its ends and
    none but single spaces inside, whatever the tool put between the
    fields. *)
Theorem tag_is_whitespace_normalised line :
  Text.split (tag_of_line line) = drop 3 (Text.split line)
  ∧ Text.join " " (Text.split (tag_of_line line)) = tag_of_line line
  ∧ Forall is_field (Text.split (tag_of_line line)).
Proof.
  assert (Forall is_field (drop 3 (Text.split line))) as Hfields.
  { apply Forall_drop. apply split_fields. }
  assert (Text.split (tag_of_line line) = drop 3 (Text.split line)) as Heq.
  { unfold tag_of_line. by apply split_join. }
  rewrite Heq. by repeat split.
Qed.

End ReaderMore.

(** ** What [_validate_args] accepts *)

Section Validation.

Lemma validate_option_inr value allowed msg v' :
  validate_option value [allowed] msg = inr v'
  ↔ option_ok value allowed ∧ v' = Text.upper value.
Proof.
  unfold validate_option, option_ok, truthy.
  destruct (String.eqb_spec value "") as [->|Hne]; simpl.
  - split; [intros [= <-]; by split; [left|]|by intros [_ ->]].
  - destruct (decide (Text.upper value = allowed)) as [Heq|Hneq].
    + rewrite bool_decide_eq_true_2 by (rewrite Heq; apply list_elem_of_singleton; done).
      split; [intros [= <-]; by split; [right|]|by intros [_ ->]].
    + rewrite bool_decide_eq_false_2 by (rewrite list_elem_of_singleton; done).
      split; [done|]. intros [[?|?] _]; done.
Qed.

Lemma starts_with_dot_truthy s :
  truthy s && starts_with_dot s = starts_with_dot s.
Proof. by destruct s. Qed.

Lemma validate_args_spec a a' :
  _validate_args a = inr a'
  ↔ starts_with_dot (a_root_dir a) = false
    ∧ option_ok (a_meta_type a) "IPTC"
    ∧ option_ok (a_tag_type a) "KEYWORDS"
    ∧ option_ok (a_tag_info_search a) "YEAR"
    ∧ a' = upper_options a.
Proof.
  unfold _validate_args. rewrite starts_with_dot_truthy.
  destruct (starts_with_dot (a_root_dir a)); [split; [done|by intros [? _]]|].
  unfold AVAILABLE_META_TYPES.ALL, AVAILABLE_TAG_TYPES.ALL,
    AVAILABLE_TAG_INFO_SEARCH.ALL.
  destruct (validate_option (a_meta_type a) _ _) as [e1|m] eqn:H1.
  { split; [done|]. intros (_ & Hm & _).
    assert (validate_option (a_meta_type a) [AVAILABLE_META_TYPES.IPTC]
              "Invalid meta type option. Aborting attempt."
            = inr (Text.upper (a_meta_type a))) as H
      by (by apply validate_option_inr).
    congruence. }
  apply validate_option_inr in H1 as [Hm ->].
  destruct (validate_option (a_tag_type a) _ _) as [e2|t] eqn:H2.
  { split; [done|]. intros (_ & _ & Ht & _).
    assert (validate_option (a_tag_type a) [AVAILABLE_TAG_TYPES.KEYWORDS]
              "Invalid tag type option. Aborting attempt."
            = inr (Text.upper (a_tag_type a))) as H
      by (by apply validate_option_inr).
    congruence. }
  apply validate_option_inr in H2 as [Ht ->].
  destruct (validate_option (a_tag_info_search a) _ _) as [e3|s] eqn:H3.
  { split; [done|]. intros (_ & _ & _ & Hs & _).
    assert (validate_option (a_tag_info_search a) [AVAILABLE_TAG_INFO_SEARCH.YEAR]
              "Invalid tag search option. Aborting attempt."
            = inr (Text.upper (a_tag_info_search a))) as H
      by (by apply validate_option_inr).
    congruence. }
  apply validate_option_inr in H3 as [Hs ->].
  split; [by intros [= <-]|]. by intros (_ & _ & _ & _ & ->).
Qed.

(** X6: [_validate_args] accepts exactly the arguments whose root does not
    start with a dot and whose three options are each empty or, case
    ignored, the one allowed value; what it returns is the arguments with
    the three options in upper case, the root and the flags as given. *)
Theorem validate_args_accepts a a' :
  _validate_args a = inr a'
  ↔ starts_with_dot (a_root_dir a) = false
    ∧ option_ok (a_meta_type a) "IPTC"
    ∧ option_ok (a_tag_type a) "KEYWORDS"
    ∧ option_ok (a_tag_info_search a) "YEAR"
    ∧ a' = upper_options a.
Proof. apply validate_args_spec. Qed.

Lemma upper_char_idem c : Text.upper_char (Text.upper_char c) = Text.upper_char c.
Proof. destruct c as [[] [] [] [] [] [] [] []]; reflexivity. Qed.

Lemma upper_idem s : Text.upper (Text.upper s) = Text.upper s.
Proof.
  induction s as [|c s IH]; [done|]. simpl. by rewrite upper_char_idem, IH.
Qed.

Lemma option_ok_upper value allowed :
  option_ok value allowed → option_ok (Text.upper value) allowed.
Proof. intros [->|H]; [by left|right; by rewrite upper_idem]. Qed.

(** X7: validated arguments validate to themselves: checking the cleaned
    arguments again changes nothing and raises nothing. *)
Theorem validate_args_idempotent a a' :
  _validate_args a = inr a' → _validate_args a' = inr a'.
Proof.
  intros H. apply validate_args_spec in H as (Hroot & Hm & Ht & Hs & ->).
  apply validate_args_spec. unfold upper_options. simpl.
  repeat split; try done; try by apply option_ok_upper.
  by rewrite !upper_idem.
Qed.

End Validation.

Lemma validate_args_idempotent_witness :
  _validate_args {| a_root_dir := "/photos"; a_verbose := true;
                    a_rename_files := false; a_meta_type := "IPTC";
                    a_tag_type := "KEYWORDS"; a_tag_info_search := "YEAR" |}
  = inr {| a_root_dir := "/photos"; a_verbose := true;
           a_rename_files := false; a_meta_type := "IPTC";
           a_tag_type := "KEYWORDS"; a_tag_info_search := "YEAR" |}.
Proof.
  apply (validate_args_idempotent
           {| a_root_dir := "/photos"; a_verbose := true;
              a_rename_files := false; a_meta_type := "iptc";
              a_tag_type := "Keywords"; a_tag_info_search := "year" |}).
  reflexivity.
Defined.

(** ** What [mkdir] and [shutil.move] leave alone *)

Section FsFrame.

Lemma below_app q : ∀ r, r ≠ [] → Path.below q (q ++ r) = true.
Proof.
  induction q as [|c q IH]; intros r Hr; simpl.
  - by destruct r.
  - rewrite String.eqb_refl. by apply IH.
Qed.

Lemma within_app q r : Path.within q (q ++ r) = true.
Proof.
  unfold Path.within. destruct r as [|c r].
  - rewrite app_nil_r. by rewrite bool_decide_eq_true_2.
  - rewrite below_app by done. by rewrite orb_true_r.
Qed.

Lemma below_trans_app q p : ∀ r, Path.below q p = true → Path.below q (p ++ r) = true.
Proof.
  revert p. induction q as [|c q IH]; intros [|d p] r H; simpl in *; try done.
  apply andb_true_iff in H as [-> H]. simpl. by apply IH.
Qed.

Lemma within_trans_app q p r : Path.within q p = true → Path.within q (p ++ r) = true.
Proof.
  unfold Path.within. intros H. apply orb_true_iff in H as [H|H].
  - apply bool_decide_eq_true in H as ->. apply within_app.
  - rewrite below_trans_app by done. by rewrite orb_true_r.
Qed.

Lemma below_length q : ∀ p, Path.below q p = true → (List.length q < List.length p)%nat.
Proof.
  induction q as [|c q IH]; intros [|d p] H; simpl in *; try done; [lia|].
  apply andb_true_iff in H as [_ H]. apply IH in H. lia.
Qed.

Lemma within_length q p : Path.within q p = true → (List.length q ≤ List.length p)%nat.
Proof.
  unfold Path.within. intros H. apply orb_true_iff in H as [H|H].
  - by apply bool_decide_eq_true in H as ->.
  - apply below_length in H. lia.
Qed.

(** [mkdir] keeps every entry, and what it adds are directories on the way
    to the one asked for. *)
Lemma mkdir_from_frame todo : ∀ done fs fs',
  Fs.mkdir_from done todo fs = inr fs' →
  (∀ q n, fs !! q = Some n → fs' !! q = Some n)
  ∧ (∀ q, fs !! q = None → is_Some (fs' !! q) →
          fs' !! q = Some Dir ∧ Path.within q (done ++ todo) = true)
  ∧ (todo ≠ [] → fs' !! (done ++ todo) = Some Dir).
Proof.
  induction todo as [|c todo IH]; intros done fs fs'; simpl.
  - intros [= <-]. split; [done|]. split; [|done].
    intros q Hq [n Hn]. congruence.
  - destruct (fs !! (done ++ [c])) as [[content|]|] eqn:Hc; [done|..].
    + intros Hrun. destruct (IH _ _ _ Hrun) as (Hkeep & Hnew & Hlast).
      rewrite <- app_assoc in Hnew, Hlast. simpl in Hnew, Hlast.
      split; [done|]. split; [done|]. intros _.
      destruct todo as [|d todo]; [|by apply Hlast].
      simpl in Hrun. injection Hrun as <-. done.
    + intros Hrun. destruct (IH _ _ _ Hrun) as (Hkeep & Hnew & Hlast).
      rewrite <- app_assoc in Hnew, Hlast. simpl in Hnew, Hlast.
      split; [|split].
      * intros q n Hq. apply Hkeep. rewrite lookup_insert_ne; [done|].
        intros <-. congruence.
      * intros q Hq Hsome.
        destruct (decide (q = done ++ [c])) as [->|Hne].
        -- split; [apply Hkeep; by rewrite lookup_insert_eq|].
           replace (done ++ c :: todo) with ((done ++ [c]) ++ todo)
             by (by rewrite <- app_assoc).
           apply within_app.
        -- apply Hnew; [by rewrite lookup_insert_ne|done].
      * intros _. destruct todo as [|d todo]; [|by apply Hlast].
        simpl in Hrun. injection Hrun as <-. by rewrite lookup_insert_eq.
Qed.

Lemma mkdir_frame p fs fs' :
  Fs.mkdir p fs = inr fs' →
  (∀ q n, fs !! q = Some n → fs' !! q = Some n)
  ∧ (∀ q, fs !! q = None → is_Some (fs' !! q) →
          fs' !! q = Some Dir ∧ Path.within q p = true)
  ∧ Fs.is_dir fs' p = true.
Proof.
  intros Hrun. destruct (mkdir_from_frame p [] fs fs' Hrun) as (H1 & H2 & H3).
  split; [done|]. split; [done|].
  unfold Fs.is_dir, Fs.node_at. destruct p as [|c p]; [done|].
  specialize (H3 ltac:(done)). simpl in H3. by rewrite H3.
Qed.

(** A move into a directory, of a source that is no directory unless the
    destination lies in it: either nothing changes and no path is returned,
    or the source was a regular file, its name was free in the directory,
    and the file is now there. *)
Lemma shutil_move_into_dir_cases src dst fs :
  Fs.is_dir fs dst = true →
  (Fs.is_dir fs src = true → Path.within src dst = true) →
  ((Fs.shutil_move src dst fs).2 = fs
   ∧ ∀ p, (Fs.shutil_move src dst fs).1 ≠ inr (Some p))
  ∨ ∃ c, Fs.node_at fs src = Some (File c)
         ∧ Fs.node_at fs (dst ++ [Path.name src]) = None
         ∧ Fs.shutil_move src dst fs
           = (inr (Some (dst ++ [Path.name src])),
              <[dst ++ [Path.name src] := File c]> (delete src fs)).
Proof.
  intros Hdst Hsrc.
  destruct (Fs.node_at fs src) as [[c|]|] eqn:Hnode.
  - destruct (Fs.node_at fs (dst ++ [Path.name src])) as [n|] eqn:Hreal.
    + left. unfold Fs.shutil_move. rewrite Hdst.
      destruct (bool_decide (src = dst)); [done|].
      unfold Fs.exists_. rewrite Hreal. done.
    + right. exists c. split; [done|]. split; [done|].
      by apply shutil_move_into_dir.
  - left. assert (Fs.is_dir fs src = true) as Hd
      by (unfold Fs.is_dir; by rewrite Hnode).
    specialize (Hsrc Hd).
    unfold Fs.shutil_move. rewrite Hdst.
    destruct (bool_decide (src = dst)); [done|].
    destruct (Fs.exists_ fs (dst ++ [Path.name src])); [done|].
    unfold Fs.rename. rewrite Hnode.
    destruct (bool_decide (src = dst ++ [Path.name src])) eqn:Heq.
    { simpl. split; [done|].
      apply bool_decide_eq_true in Heq. intros p [= <-].
      (* the source cannot be its own child *)
      apply (f_equal List.length) in Heq.
      rewrite length_app in Heq. simpl in Heq.
      apply within_length in Hsrc. lia. }
    rewrite (within_trans_app _ _ _ Hsrc). rewrite Hd, Hsrc. simpl. split; [reflexivity|intros p; discriminate].
  - left. unfold Fs.shutil_move. rewrite Hdst.
    destruct (bool_decide (src = dst)); [done|].
    destruct (Fs.exists_ fs (dst ++ [Path.name src])); [done|].
    unfold Fs.rename. rewrite Hnode.
    assert (Fs.is_dir fs src = false) as -> by (unfold Fs.is_dir; by rewrite Hnode).
    simpl. split; [reflexivity|intros p; discriminate].
Qed.

End FsFrame.

Section MkdirTwice.

Lemma mkdir_from_again todo : ∀ above fs fs',
  Fs.mkdir_from above todo fs = inr fs' →
  Fs.mkdir_from above todo fs' = inr fs'.
Proof.
  induction todo as [|c todo IH]; intros above fs fs'; simpl; [done|].
  destruct (fs !! (above ++ [c])) as [[content|]|] eqn:Hc; [done|..];
    intros Hrun.
  - destruct (mkdir_from_frame _ _ _ _ Hrun) as (Hkeep & _).
    rewrite (Hkeep _ _ Hc). by apply (IH _ fs).
  - destruct (mkdir_from_frame _ _ _ _ Hrun) as (Hkeep & _).
    rewrite (Hkeep (above ++ [c]) Dir) by (by rewrite lookup_insert_eq).
    by apply (IH _ (<[above ++ [c] := Dir]> fs)).
Qed.

(** X8: making the directory is idempotent.  When
    [mkdir(parents=True, exist_ok=True)] succeeds, the path is a directory
    afterwards, every entry that was there is still there unchanged, and
    asking for the same directory again succeeds and changes nothing. *)
Theorem mkdir_twice_is_mkdir_once p fs fs' :
  Fs.mkdir p fs = inr fs' →
  Fs.mkdir p fs' = inr fs'
  ∧ Fs.is_dir fs' p = true
  ∧ ∀ q n, fs !! q = Some n → fs' !! q = Some n.
Proof.
  intros Hrun. destruct (mkdir_frame p fs fs' Hrun) as (Hkeep & _ & Hdir).
  split; [by apply (mkdir_from_again p [] fs)|]. by split.
Qed.

End MkdirTwice.

Lemma mkdir_twice_witness :
  Fs.mkdir ["photos"; "1984"] (with_dir Example.fs Example.root "1984")
  = inr (with_dir Example.fs Example.root "1984")
  ∧ Fs.is_dir (with_dir Example.fs Example.root "1984") ["photos"; "1984"] = true
  ∧ ∀ q n, Example.fs !! q = Some n →
           with_dir Example.fs Example.root "1984" !! q = Some n.
Proof.
  apply (mkdir_twice_is_mkdir_once ["photos"; "1984"] Example.fs
           (with_dir Example.fs Example.root "1984")).
  vm_compute. reflexivity.
Defined.

(** ** The Mover: nothing is lost *)

Section MoverSafe.

Variable E : env.

Ltac settle' :=
  do 2 eexists; (split; [reflexivity|]); simpl; eauto.

(** One turn with the rename flag unset, in terms of the file system. *)
Lemma move_image_plain_fs img root_dir lists w :
  ∃ lists' w',
    move_image E img root_dir false lists w = (inr lists', w')
    ∧ match Fs.mkdir (target_dir img root_dir) (w_fs w) with
      | inl _ => w_fs w' = w_fs w ∧ lists'.1 = lists.1
      | inr fs1 =>
          let moved := Fs.shutil_move (mr_file_path img)
                         (target_dir img root_dir) fs1 in
          w_fs w' = moved.2 ∧ lists'.1 = recorded img moved.1 lists.1
      end.
Proof.
  unfold move_image, try_except, except_Exception, except_shutil_Error,
    mkdir, shutil_move, Path_resolve, _v.
  run.
  destruct (Fs.mkdir (target_dir img root_dir) (w_fs w)) as [e|fs1] eqn:Hmk; simpl.
  { settle'. }
  destruct (Fs.shutil_move _ _ fs1) as [[e|[p|]] fs2] eqn:Hmv; simpl;
    [|settle'..].
  destruct e; simpl; try settle'.
  destruct (w_verbose w) as [[|]|]; simpl; [| |settle'];
    (destruct (e_write_log E _ _); simpl; settle').
Qed.

Lemma is_file_lookup (fs : fsys) p :
  Fs.is_file fs p = true → p ≠ [] ∧ ∃ c, fs !! p = Some (File c).
Proof.
  unfold Fs.is_file, Fs.node_at. destruct p as [|x p]; [done|].
  destruct (fs !! (x :: p)) as [[c|]|]; try done. eauto.
Qed.

Lemma node_at_lookup (fs : fsys) p : p ≠ [] → Fs.node_at fs p = fs !! p.
Proof. by destruct p. Qed.

Lemma lookup_node_at (fs fs' : fsys) :
  (∀ q n, fs !! q = Some n → fs' !! q = Some n) →
  ∀ q n, Fs.node_at fs q = Some n → Fs.node_at fs' q = Some n.
Proof. intros H [|x q] n; [done|]. apply H. Qed.

(** One turn with the rename flag unset, for an image that is not a
    directory: every other entry stays as it is, and a regular file is
    afterwards where it was or at its destination, which was free. *)
Lemma move_image_safe img root_dir lists w :
  Fs.is_dir (w_fs w) (mr_file_path img) = false →
  ∃ lists' w',
    move_image E img root_dir false lists w = (inr lists', w')
    ∧ (∀ q n, q ≠ mr_file_path img →
              w_fs w !! q = Some n → w_fs w' !! q = Some n)
    ∧ (((∀ n, w_fs w !! mr_file_path img = Some n →
              w_fs w' !! mr_file_path img = Some n)
        ∧ lists'.1 = lists.1)
       ∨ ∃ c, w_fs w !! mr_file_path img = Some (File c)
              ∧ w_fs w !! destination root_dir img = None
              ∧ w_fs w' !! destination root_dir img = Some (File c)
              ∧ lists'.1 = lists.1 ++
                  [{| ms_new_filepath := destination root_dir img;
                      ms_old_filepath := mr_file_path img |}]).
Proof.
  intros Hsrc.
  destruct (move_image_plain_fs img root_dir lists w)
    as (lists' & w' & Hrun & Hfs).
  exists lists', w'. split; [done|].
  destruct (Fs.mkdir (target_dir img root_dir) (w_fs w)) as [e|fs1] eqn:Hmk.
  { destruct Hfs as [-> ->]. split; [done|]. by left. }
  destruct (mkdir_frame _ _ _ Hmk) as (Hkeep & Hnew & Hdir).
  assert (mr_file_path img ≠ []) as Hne.
  { intros Heq. by rewrite Heq in Hsrc. }
  assert (Fs.is_dir fs1 (mr_file_path img) = true →
          Path.within (mr_file_path img) (target_dir img root_dir) = true) as Hin.
  { intros Hd. unfold Fs.is_dir in Hd, Hsrc.
    rewrite node_at_lookup in Hd, Hsrc by done.
    destruct (w_fs w !! mr_file_path img) as [n|] eqn:Hn.
    - rewrite (Hkeep _ _ Hn) in Hd. by destruct n.
    - apply Hnew; [done|]. by destruct (fs1 !! mr_file_path img). }
  simpl in Hfs. destruct Hfs as [Hfs' Hlists].
  assert (target_dir img root_dir ++ [Path.name (mr_file_path img)]
          = destination root_dir img) as Hdst.
  { rewrite target_dir_folder. unfold destination. by rewrite <- app_assoc. }
  destruct (shutil_move_into_dir_cases (mr_file_path img)
              (target_dir img root_dir) fs1 Hdir Hin)
    as [[Hsame Hnone]|(c & Hfile & Hfree & Hmoved)].
  - rewrite Hsame in Hfs'. split.
    + intros q n _ Hq. rewrite Hfs'. by apply Hkeep.
    + left. split.
      * intros n Hn. rewrite Hfs'. by apply Hkeep.
      * rewrite Hlists.
        destruct (Fs.shutil_move _ _ fs1).1 as [e|[p|]] eqn:Hres; try done.
        by destruct (Hnone p).
  - rewrite Hmoved in Hfs', Hlists. simpl in Hfs', Hlists.
    rewrite Hdst in Hfs', Hlists, Hfree.
    assert (destination root_dir img ≠ []) as Hdne
      by (unfold destination; by destruct root_dir).
    rewrite node_at_lookup in Hfile, Hfree by done.
    split.
    + intros q n Hq Hn. rewrite Hfs'.
      apply Hkeep in Hn.
      rewrite lookup_insert_ne by (intros <-; congruence).
      by rewrite lookup_delete_ne.
    + right. exists c. repeat split.
      * destruct (w_fs w !! mr_file_path img) as [n|] eqn:Hn.
        -- apply Hkeep in Hn. congruence.
        -- destruct (Hnew _ Hn) as [Hd _]; [by eexists|]. congruence.
      * destruct (w_fs w !! destination root_dir img) as [n|] eqn:Hn; [|done].
        apply Hkeep in Hn. congruence.
      * rewrite Hfs'. by rewrite lookup_insert_eq.
      * done.
Qed.

Lemma lookup_is_file (fs : fsys) p c :
  p ≠ [] → fs !! p = Some (File c) → Fs.is_file fs p = true.
Proof.
  intros Hp Hc. unfold Fs.is_file. rewrite node_at_lookup by done. by rewrite Hc.
Qed.

Lemma destination_not_root root_dir img : destination root_dir img ≠ [].
Proof. unfold destination. by destruct root_dir. Qed.

Lemma move_images_from_safe root_dir images : ∀ idx total lists w,
  NoDup (map mr_file_path images) →
  Forall (λ img, Fs.is_file (w_fs w) (mr_file_path img) = true) images →
  ∃ lists' w' news,
    move_images_from E images idx total root_dir false lists w = (inr lists', w')
    ∧ (∀ q n, q ∉ map mr_file_path images →
              w_fs w !! q = Some n → w_fs w' !! q = Some n)
    ∧ (∀ img c, img ∈ images →
                w_fs w !! mr_file_path img = Some (File c) →
                w_fs w' !! mr_file_path img = Some (File c)
                ∨ w_fs w' !! destination root_dir img = Some (File c))
    ∧ lists'.1 = lists.1 ++ news
    ∧ Forall (truthful root_dir images (w_fs w')) news.
Proof.
  induction images as [|img rest IH]; intros idx total lists w Hnodup Hfiles.
  - exists lists, w, []. simpl. rewrite app_nil_r.
    repeat split; try done. intros img c Himg. by apply elem_of_nil in Himg.
  - simpl in Hnodup. apply NoDup_cons in Hnodup as [Hfresh Hnodup].
    apply Forall_cons in Hfiles as [Hsrc Hfiles].
    destruct (is_file_lookup _ _ Hsrc) as [Hne [c0 Hc0]].
    assert (Fs.is_dir (w_fs w) (mr_file_path img) = false) as Hnodir.
    { unfold Fs.is_dir. rewrite node_at_lookup by done. by rewrite Hc0. }
    destruct (move_image_safe img root_dir lists w Hnodir)
      as (lists1 & w1 & Hrun & Hothers & Hself).
    assert (Forall (λ r, Fs.is_file (w_fs (add_out (Progress idx total) w1))
                           (mr_file_path r) = true) rest) as Hfiles1.
    { rewrite Forall_forall in Hfiles. apply Forall_forall. intros r Hr.
      destruct (is_file_lookup _ _ (Hfiles r Hr)) as [Hrne [c Hc]].
      apply (lookup_is_file _ _ c); [done|]. simpl. apply Hothers; [|done].
      intros Heq. apply Hfresh. rewrite <- Heq.
      apply list_elem_of_fmap. by exists r. }
    destruct (IH (S idx) total lists1 (add_out (Progress idx total) w1)
                Hnodup Hfiles1)
      as (lists' & w' & news & Hrest & Hothers' & Hself' & Hlists & Hnews).
    simpl in Hothers', Hself'.
    assert (∀ r, r ∈ rest → destination root_dir img ≠ mr_file_path r
                 ∨ is_Some (w_fs w !! destination root_dir img)) as Hdest.
    { intros r Hr. rewrite Forall_forall in Hfiles.
      destruct (is_file_lookup _ _ (Hfiles r Hr)) as [_ [c Hc]].
      destruct (decide (destination root_dir img = mr_file_path r)) as [->|?];
        [right; by eexists|by left]. }
    assert (∀ c, w_fs w !! destination root_dir img = None →
                 w_fs w1 !! destination root_dir img = Some (File c) →
                 w_fs w' !! destination root_dir img = Some (File c)) as Hstay.
    { intros c Hfree Hthere. apply Hothers'; [|done].
      intros Hin. apply list_elem_of_fmap in Hin as (r & Heq & Hr).
      destruct (Hdest r Hr) as [?|[n Hn]]; [done|congruence]. }
    cbn [move_images_from]. rewrite (bind_inr _ _ _ _ _ Hrun). run.
    rewrite Hrest.
    destruct Hself as [[Hkept Hl1]|(c & Hc & Hfree & Hthere & Hl1)].
    + exists lists', w', news. split; [done|]. split; [|split; [|split]].
      * intros q n Hq Hn. apply not_elem_of_cons in Hq as [Hq1 Hq2].
        apply Hothers'; [done|]. by apply Hothers.
      * intros img' c Himg' Hc.
        apply elem_of_cons in Himg' as [->|Hin].
        -- left. apply Hothers'; [done|]. by apply Hkept.
        -- apply (Hself' img' c Hin). apply Hothers; [|done].
           intros Heq. apply Hfresh. rewrite <- Heq.
           apply list_elem_of_fmap. by exists img'.
      * by rewrite Hlists, Hl1.
      * eapply Forall_impl; [exact Hnews|].
        intros s (r & Hr & -> & Hf). exists r. split; [by right|done].
    + exists lists', w',
        ({| ms_new_filepath := destination root_dir img;
            ms_old_filepath := mr_file_path img |} :: news).
      split; [done|]. split; [|split; [|split]].
      * intros q n Hq Hn. apply not_elem_of_cons in Hq as [Hq1 Hq2].
        apply Hothers'; [done|]. by apply Hothers.
      * intros img' c' Himg' Hc'.
        apply elem_of_cons in Himg' as [->|Hin].
        -- right. assert (c' = c) as -> by congruence. by apply Hstay.
        -- apply (Hself' img' c' Hin). apply Hothers; [|done].
           intros Heq. apply Hfresh. rewrite <- Heq.
           apply list_elem_of_fmap. by exists img'.
      * rewrite Hlists, Hl1, <- app_assoc. done.
      * constructor.
        -- exists img. split; [by left|]. split; [done|].
           apply (lookup_is_file _ _ c); [apply destination_not_root|].
           by apply Hstay.
        -- eapply Forall_impl; [exact Hnews|].
           intros s (r & Hr & -> & Hf). exists r. split; [by right|done].
Qed.

(** X9: with the rename flag unset, a batch of images that are regular
    files at distinct paths loses nothing: [_move_images] returns, every
    entry of the file system that is not one of the images is as before,
    each image is afterwards where it was or at
    <root>/<folder>/<its name> with its content, and every success record
    names the image's old path and that destination, where a regular file
    then is. *)
Theorem mover_never_loses_a_file images root_dir w :
  NoDup (map mr_file_path images) →
  Forall (λ img, Fs.is_file (w_fs w) (mr_file_path img) = true) images →
  ∃ successful errors w',
    _move_images E images root_dir false w = (inr (successful, errors), w')
    ∧ (∀ q n, q ∉ map mr_file_path images →
              Fs.node_at (w_fs w) q = Some n → Fs.node_at (w_fs w') q = Some n)
    ∧ (∀ img c, img ∈ images →
                Fs.node_at (w_fs w) (mr_file_path img) = Some (File c) →
                Fs.node_at (w_fs w') (mr_file_path img) = Some (File c)
                ∨ Fs.node_at (w_fs w') (destination root_dir img) = Some (File c))
    ∧ Forall (truthful root_dir images (w_fs w')) successful.
Proof.
  intros Hnodup Hfiles.
  destruct (move_images_from_safe root_dir images 0 (List.length images)
              ([], []) (add_out (Print "Moving images...") w) Hnodup Hfiles)
    as ([successful errors] & w' & news & Hrun & Hothers & Hself & Hlists & Hnews).
  simpl in *. subst successful.
  exists news, errors, (add_out (Print (newline +:+ "Task complete.")) w').
  unfold _move_images. run. rewrite Hrun. simpl.
  split; [done|]. split; [|split; [|done]].
  - intros [|x q] n Hq; [done|]. apply Hothers. done.
  - intros img c Himg.
    rewrite Forall_forall in Hfiles.
    destruct (is_file_lookup _ _ (Hfiles img Himg)) as [Hne _].
    rewrite !node_at_lookup by (done || apply destination_not_root).
    by apply Hself.
Qed.

End MoverSafe.

(** ** The Mover: progress, and moves that cannot be made *)

Section MoverTurns.

Variable E : env.

Ltac settle' :=
  do 2 eexists; (split; [reflexivity|]); simpl;
  unfold progress_lines; rewrite ?omap_app, ?app_nil_r;
  split; (congruence || reflexivity).

(** What a turn does to the rest of the world: the global stays, and the
    console gets no progress line from it. *)
Lemma move_image_world img root_dir rename_files lists w :
  ∃ lists' w',
    move_image E img root_dir rename_files lists w = (inr lists', w')
    ∧ w_verbose w' = w_verbose w
    ∧ progress_lines (w_out w') = progress_lines (w_out w).
Proof.
  unfold move_image, try_except, except_Exception, except_shutil_Error,
    mkdir, shutil_move, _gen_filename, Path_resolve, _v.
  run.
  destruct (Fs.mkdir (target_dir img root_dir) (w_fs w)) as [e|fs1] eqn:Hmk; simpl.
  { settle'. }
  destruct rename_files; simpl.
  - destruct (Fs.shutil_move _ _ fs1) as [[e|[p|]] fs2] eqn:Hmv; simpl;
      [|settle'..].
    destruct e; simpl; try settle'.
    destruct (w_verbose w) as [[|]|] eqn:Hv; simpl; [| |settle'];
      (destruct (e_write_log E _ _); simpl; settle').
  - destruct (Fs.shutil_move _ _ fs1) as [[e|[p|]] fs2] eqn:Hmv; simpl;
      [|settle'..].
    destruct e; simpl; try settle'.
    destruct (w_verbose w) as [[|]|] eqn:Hv; simpl; [| |settle'];
      (destruct (e_write_log E _ _); simpl; settle').
Qed.

Lemma move_images_from_world root_dir rename_files images :
  ∀ idx total lists w,
  ∃ lists' w',
    move_images_from E images idx total root_dir rename_files lists w
      = (inr lists', w')
    ∧ w_verbose w' = w_verbose w
    ∧ progress_lines (w_out w')
      = progress_lines (w_out w)
        ++ map (λ i, (i, total)) (seq idx (List.length images)).
Proof.
  induction images as [|img rest IH]; intros idx total lists w.
  - exists lists, w. simpl. by rewrite app_nil_r.
  - destruct (move_image_world img root_dir rename_files lists w)
      as (lists1 & w1 & Hrun & Hv & Hout).
    destruct (IH (S idx) total lists1 (add_out (Progress idx total) w1))
      as (lists' & w' & Hrest & Hv' & Hout').
    exists lists', w'. cbn [move_images_from].
    rewrite (bind_inr _ _ _ _ _ Hrun). run. rewrite Hrest. split; [done|].
    split; [by rewrite Hv'|].
    rewrite Hout'. simpl. unfold progress_lines at 1.
    rewrite omap_app. fold (progress_lines (w_out w1)). rewrite Hout. simpl.
    by rewrite <- app_assoc.
Qed.

(** X10: [_move_images] shows one progress line per image, numbered from 0:
    for a batch of n images the pairs shown are (0, n), ..., (n-1, n), so
    the total shown is never zero and the last line stays one short of it. *)
Theorem mover_progress_counts_from_zero images root_dir rename_files w :
  ∃ result w',
    _move_images E images root_dir rename_files w = (inr result, w')
    ∧ progress_lines (w_out w')
      = progress_lines (w_out w)
        ++ map (λ i, (i, List.length images)) (seq 0 (List.length images))
    ∧ Forall (λ line, line.1 < line.2)
        (map (λ i, (i, List.length images)) (seq 0 (List.length images))).
Proof.
  destruct (move_images_from_world root_dir rename_files images 0
              (List.length images) ([], []) (add_out (Print "Moving images...") w))
    as (lists' & w' & Hrun & _ & Hout).
  exists lists', (add_out (Print (newline +:+ "Task complete.")) w').
  unfold _move_images. run. rewrite Hrun. simpl. split; [done|]. split.
  - unfold progress_lines at 1. rewrite omap_app.
    fold (progress_lines (w_out w')). rewrite Hout. simpl.
    unfold progress_lines at 1. rewrite omap_app. simpl.
    by rewrite !app_nil_r.
  - apply Forall_forall. intros line Hin.
    apply list_elem_of_In, in_map_iff in Hin as (i & <- & Hi).
    apply in_seq in Hi. simpl. lia.
Qed.

End MoverTurns.

Section MoverEdges.

Variable E : env.

Lemma set_fs_same w : set_fs (w_fs w) w = w.
Proof. by destruct w. Qed.

(** An image that already is at its destination: the turn logs that it is
    not moving, or records the failure of the write, and changes nothing
    else. *)
Lemma move_image_in_place img root_dir lists w v :
  Fs.wf (w_fs w) →
  w_verbose w = Some v →
  mr_file_path img = destination root_dir img →
  Fs.exists_ (w_fs w) (mr_file_path img) = true →
  move_image E img root_dir false lists w
  = match e_write_log E (w_writes w) MsgNotMoving with
    | None =>
        (inr lists,
         add_log MsgNotMoving
           (next_write (if v then add_out (Echo MsgNotMoving) w else w)))
    | Some f =>
        (inr (lists.1,
              lists.2 ++ [{| mf_old_filepath := mr_file_path img;
                             mf_error := write_exn f |}]),
         next_write (if v then add_out (Echo MsgNotMoving) w else w))
    end.
Proof.
  intros Hwf Hv Hat Hex.
  set (dir := root_dir ++ [folder img]).
  assert (destination root_dir img = dir ++ [Path.name (mr_file_path img)])
    as Hdst by (unfold destination, dir; by rewrite <- app_assoc).
  assert (Fs.exists_ (w_fs w) (dir ++ [Path.name (mr_file_path img)]) = true)
    as Hex' by (by rewrite <- Hdst, <- Hat).
  assert (Fs.is_dir (w_fs w) dir = true) as Hdir.
  { by apply (wf_above _ _ [Path.name (mr_file_path img)]). }
  assert (mr_file_path img ≠ dir) as Hne.
  { rewrite Hat, Hdst. intros Heq. apply (f_equal List.length) in Heq.
    rewrite length_app in Heq. simpl in Heq. lia. }
  unfold move_image, try_except, except_Exception, except_shutil_Error,
    mkdir, shutil_move, Path_resolve, _v.
  run. rewrite target_dir_folder. fold dir.
  rewrite (mkdir_existing _ _ Hwf Hdir). simpl. rewrite set_fs_same.
  rewrite (shutil_move_taken _ _ _ Hdir Hne Hex'). simpl.
  rewrite set_fs_same, Hv.
  destruct v; simpl; by destruct (e_write_log E _ _).
Qed.

Lemma move_images_from_in_place root_dir images v : ∀ idx total lists w,
  Fs.wf (w_fs w) →
  w_verbose w = Some v →
  Forall (λ img, mr_file_path img = destination root_dir img
                 ∧ Fs.exists_ (w_fs w) (mr_file_path img) = true) images →
  ∃ errors w',
    move_images_from E images idx total root_dir false lists w
    = (inr (lists.1, lists.2 ++ errors), w')
    ∧ w_fs w' = w_fs w
    ∧ w_verbose w' = w_verbose w
    ∧ (List.length errors ≤ List.length images)%nat
    ∧ w_log w' = w_log w
        ++ replicate (List.length images - List.length errors) MsgNotMoving
    ∧ Forall (λ r, ∃ f, mf_error r = write_exn f) errors
    ∧ ((∀ n, e_write_log E n MsgNotMoving = None) → errors = []).
Proof.
  induction images as [|img rest IH]; intros idx total lists w Hwf Hv Hall.
  - exists [], w. simpl. rewrite !app_nil_r. by destruct lists.
  - apply Forall_cons in Hall as [[Hat Hex] Hrest].
    pose proof (move_image_in_place img root_dir lists w v Hwf Hv Hat Hex) as Hrun.
    remember (next_write (if v then add_out (Echo MsgNotMoving) w else w))
      as w0 eqn:Hw0.
    assert (w_fs w0 = w_fs w) as Hfs0 by (rewrite Hw0; by destruct v).
    assert (w_verbose w0 = Some v) as Hv0 by (rewrite Hw0; by destruct v).
    assert (w_log w0 = w_log w) as Hlog0 by (rewrite Hw0; by destruct v).
    clear Hw0.
    destruct (e_write_log E (w_writes w) MsgNotMoving) as [f|] eqn:Hwrite.
    + destruct (IH (S idx) total
                  (lists.1, lists.2 ++ [{| mf_old_filepath := mr_file_path img;
                                           mf_error := write_exn f |}])
                  (add_out (Progress idx total) w0))
        as (errors & w' & Hrest' & Hfs & Hvb & Hlen & Hlog & Herr & Hnone).
      { simpl. by rewrite Hfs0. }
      { done. }
      { simpl. by rewrite Hfs0. }
      exists ({| mf_old_filepath := mr_file_path img;
                 mf_error := write_exn f |} :: errors), w'.
      cbn [move_images_from]. rewrite (bind_inr _ _ _ _ _ Hrun).
      run. rewrite Hrest'. simpl in *.
      rewrite <- app_assoc. split; [done|].
      split; [by rewrite Hfs|]. split; [by rewrite Hvb, Hv|].
      split; [lia|]. split; [by rewrite Hlog, Hlog0|].
      split; [constructor; eauto|].
      intros Hall. by rewrite Hall in Hwrite.
    + destruct (IH (S idx) total lists
                  (add_out (Progress idx total) (add_log MsgNotMoving w0)))
        as (errors & w' & Hrest' & Hfs & Hvb & Hlen & Hlog & Herr & Hnone).
      { simpl. by rewrite Hfs0. }
      { done. }
      { simpl. by rewrite Hfs0. }
      exists errors, w'.
      cbn [move_images_from]. rewrite (bind_inr _ _ _ _ _ Hrun).
      run. rewrite Hrest'. simpl in *.
      split; [done|]. split; [by rewrite Hfs|]. split; [by rewrite Hvb, Hv|].
      split; [lia|]. split; [|done].
      rewrite Hlog, Hlog0, <- app_assoc.
      replace (S (List.length rest) - List.length errors)
        with (S (List.length rest - List.length errors)) by lia.
      done.
Qed.

(** X11: a second run changes nothing in the file system.  When every
    image of the batch already is at <root>/<folder>/<its name>,
    [_move_images] with the rename flag unset returns no success and
    leaves the file system as it is; each image gets one "not moving"
    entry in the log or, where that entry could not be written, a
    failure record with the error of the write.  So when the log can be
    written there is no failure either, and one entry per image. *)
Theorem mover_leaves_organised_tree images root_dir w v :
  Fs.wf (w_fs w) →
  w_verbose w = Some v →
  Forall (λ img, mr_file_path img = destination root_dir img
                 ∧ Fs.exists_ (w_fs w) (mr_file_path img) = true) images →
  ∃ errors w',
    _move_images E images root_dir false w = (inr ([], errors), w')
    ∧ w_fs w' = w_fs w
    ∧ w_log w' = w_log w
        ++ replicate (List.length images - List.length errors) MsgNotMoving
    ∧ Forall (λ r, ∃ f, mf_error r = write_exn f) errors
    ∧ ((∀ n, e_write_log E n MsgNotMoving = None) → errors = []).
Proof.
  intros Hwf Hv Hall.
  destruct (move_images_from_in_place root_dir images v 0 (List.length images)
              ([], []) (add_out (Print "Moving images...") w) Hwf Hv Hall)
    as (errors & w' & Hrun & Hfs & _ & _ & Hlog & Herr & Hnone).
  exists errors, (add_out (Print (newline +:+ "Task complete.")) w').
  unfold _move_images. run. by rewrite Hrun.
Qed.

Lemma mkdir_blocked (fs : fsys) q (c content : string) :
  Fs.wf fs → Fs.is_dir fs q = true →
  Fs.node_at fs (q ++ [c]) = Some (File content) →
  Fs.mkdir (q ++ [c]) fs = inl FileExistsError.
Proof.
  intros Hwf Hdir Hfile. unfold Fs.mkdir.
  rewrite mkdir_from_walk by done. simpl.
  rewrite node_at_snoc in Hfile. by rewrite Hfile.
Qed.

(** X12: a regular file that has the name of the folder blocks the move:
    whatever the rename flag, the image gets a failure record with
    [FileExistsError], and nothing else changes, not even the count of
    UUIDs drawn. *)
Theorem folder_name_taken_by_file img root_dir rename_files lists w content :
  Fs.wf (w_fs w) →
  Fs.is_dir (w_fs w) root_dir = true →
  Fs.node_at (w_fs w) (root_dir ++ [folder img]) = Some (File content) →
  move_image E img root_dir rename_files lists w
  = (inr (lists.1,
          lists.2 ++ [{| mf_old_filepath := mr_file_path img;
                         mf_error := FileExistsError |}]),
     w).
Proof.
  intros Hwf Hroot Hfile.
  unfold move_image, try_except, except_Exception, mkdir.
  run. rewrite target_dir_folder.
  by rewrite (mkdir_blocked _ _ _ _ Hwf Hroot Hfile).
Qed.

(** X13: an image that is no longer there when its turn comes, bound for
    a folder in which the name it is to get is free, gets a failure
    record with [FileNotFoundError]; by then its folder has been made,
    and stays.  (Where the name is taken and the rename flag unset, the
    move is refused before the source is looked at, as for any other
    image.) *)
Theorem vanished_image_leaves_folder img root_dir rename_files lists w :
  Fs.wf (w_fs w) →
  Fs.is_dir (w_fs w) root_dir = true →
  Fs.node_at (w_fs w) (mr_file_path img) = None →
  mr_file_path img ≠ root_dir ++ [folder img] →
  Fs.is_file (w_fs w) (root_dir ++ [folder img]) = false →
  Fs.node_at (w_fs w)
    (root_dir ++ [folder img; new_name E w rename_files img]) = None →
  ∃ w', move_image E img root_dir rename_files lists w
        = (inr (lists.1,
                lists.2 ++ [{| mf_old_filepath := mr_file_path img;
                               mf_error := FileNotFoundError |}]),
           w')
        ∧ w_fs w' = with_dir (w_fs w) root_dir (folder img)
        ∧ Fs.is_dir (w_fs w') (root_dir ++ [folder img]) = true.
Proof.
  replace (root_dir ++ [folder img; new_name E w rename_files img])
    with ((root_dir ++ [folder img]) ++ [new_name E w rename_files img])
    by (by rewrite <- app_assoc).
  intros Hwf Hroot Hsrc Hne Hfolder Hfree.
  set (dir := root_dir ++ [folder img]) in *.
  set (fs1 := with_dir (w_fs w) root_dir (folder img)).
  assert (Fs.node_at fs1 (mr_file_path img) = None) as Hsrc1
    by (unfold fs1; by rewrite with_dir_other).
  assert (Fs.is_dir fs1 (mr_file_path img) = false) as Hnodir
    by (unfold Fs.is_dir; by rewrite Hsrc1).
  assert (Fs.is_dir fs1 dir = true) as Hdir1 by apply with_dir_is_dir.
  assert (Fs.node_at fs1 (dir ++ [new_name E w rename_files img]) = None)
    as Hfree1.
  { unfold fs1. rewrite with_dir_other; [done|].
    intros Heq. apply (f_equal List.length) in Heq.
    unfold dir in Heq. rewrite !length_app in Heq. simpl in Heq. lia. }
  unfold move_image, try_except, except_Exception, except_shutil_Error,
    mkdir, shutil_move, _gen_filename, Path_resolve.
  run. rewrite target_dir_folder.
  rewrite (mkdir_child _ _ _ Hwf Hroot Hfolder). fold fs1. fold dir. simpl.
  assert (Fs.is_dir fs1 (dir ++ [new_name E w rename_files img]) = false)
    as Hnd by (unfold Fs.is_dir; by rewrite Hfree1).
  assert (Fs.exists_ fs1 (dir ++ [new_name E w rename_files img]) = false)
    as Hnex by (unfold Fs.exists_; by rewrite Hfree1).
  unfold new_name in Hnd, Hnex. destruct rename_files; simpl.
  - unfold Fs.shutil_move. rewrite Hnd.
    unfold Fs.rename. rewrite Hsrc1, Hnodir. simpl.
    eexists. split; [reflexivity|]. simpl.
    split; [reflexivity|apply with_dir_is_dir].
  - unfold Fs.shutil_move. rewrite Hdir1.
    rewrite bool_decide_eq_false_2 by done.
    rewrite Hnex.
    unfold Fs.rename. rewrite Hsrc1, Hnodir. simpl.
    eexists. split; [reflexivity|]. simpl.
    split; [reflexivity|apply with_dir_is_dir].
Qed.

End MoverEdges.

Section MoverHandlers.

Variable E : env.

(** X14: the "not moving" message needs the global.  When [_move_images]
    runs before [execute] has assigned [_verbose_output], a refused move
    is not logged: [_v] raises [NameError] inside the handler of
    [shutil.Error], the outer handler takes it, and the image gets a
    failure record with that error; the file stays where it was. *)
Theorem collision_without_global_is_a_failure img root_dir lists w :
  Fs.wf (w_fs w) →
  w_verbose w = None →
  Fs.exists_ (w_fs w) (destination root_dir img) = true →
  mr_file_path img ≠ root_dir ++ [folder img] →
  move_image E img root_dir false lists w
  = (inr (lists.1,
          lists.2 ++ [{| mf_old_filepath := mr_file_path img;
                         mf_error := NameError |}]),
     w).
Proof.
  intros Hwf Hv Hex Hne.
  set (dir := root_dir ++ [folder img]) in *.
  assert (destination root_dir img = dir ++ [Path.name (mr_file_path img)])
    as Hdst by (unfold destination, dir; by rewrite <- app_assoc).
  rewrite Hdst in Hex.
  assert (Fs.is_dir (w_fs w) dir = true) as Hdir
    by (by apply (wf_above _ _ [Path.name (mr_file_path img)])).
  unfold move_image, try_except, except_Exception, except_shutil_Error,
    mkdir, shutil_move, Path_resolve, _v.
  run. rewrite target_dir_folder. fold dir.
  rewrite (mkdir_existing _ _ Hwf Hdir). simpl. rewrite set_fs_same.
  rewrite (shutil_move_taken _ _ _ Hdir Hne Hex). simpl.
  by rewrite set_fs_same, Hv.
Qed.

(** X15: with the rename flag set there is no test of the destination.
    When the generated name is the name of a regular file already in the
    folder, [shutil.move] renames the image onto it: the move is recorded
    as a success, the destination now holds the content of the image, and
    what it held before is gone. *)
Theorem renamed_move_replaces_existing_file img root_dir lists w c c' :
  Fs.wf (w_fs w) →
  Fs.node_at (w_fs w) (mr_file_path img) = Some (File c) →
  Fs.node_at (w_fs w)
    (root_dir ++ [folder img; new_name E w true img]) = Some (File c') →
  mr_file_path img ≠ root_dir ++ [folder img; new_name E w true img] →
  ∃ w', move_image E img root_dir true lists w
        = (inr (lists.1 ++
                  [{| ms_new_filepath :=
                        root_dir ++ [folder img; new_name E w true img];
                      ms_old_filepath := mr_file_path img |}],
                lists.2), w')
        ∧ Fs.node_at (w_fs w')
            (root_dir ++ [folder img; new_name E w true img])
          = Some (File c)
        ∧ Fs.node_at (w_fs w') (mr_file_path img) = None
        ∧ w_log w' = w_log w.
Proof.
  replace (root_dir ++ [folder img; new_name E w true img])
    with ((root_dir ++ [folder img]) ++ [new_name E w true img])
    by (by rewrite <- app_assoc).
  intros Hwf Hsrc Hdst Hne.
  set (dir := root_dir ++ [folder img]) in *.
  set (n := new_name E w true img) in *.
  assert (Fs.is_dir (w_fs w) dir = true) as Hdir.
  { apply (wf_above _ _ [n]); [done..|]. unfold Fs.exists_. by rewrite Hdst. }
  assert (Fs.node_at (<[dir ++ [n] := File c]> (delete (mr_file_path img) (w_fs w)))
            (dir ++ [n]) = Some (File c)) as Hthere.
  { rewrite node_at_snoc. by rewrite lookup_insert_eq. }
  assert (Fs.node_at (<[dir ++ [n] := File c]> (delete (mr_file_path img) (w_fs w)))
            (mr_file_path img) = None) as Hgone.
  { destruct (mr_file_path img) as [|x src] eqn:Hp; [done|].
    simpl. rewrite lookup_insert_ne by done. by rewrite lookup_delete_eq. }
  assert (Fs.shutil_move (mr_file_path img) (dir ++ [n]) (w_fs w)
          = (inr (Some (dir ++ [n])),
             <[dir ++ [n] := File c]> (delete (mr_file_path img) (w_fs w))))
    as Hmove.
  { unfold Fs.shutil_move.
    assert (Fs.is_dir (w_fs w) (dir ++ [n]) = false) as ->
      by (by apply (file_not_dir _ _ c')).
    unfold Fs.rename. rewrite Hsrc.
    rewrite bool_decide_eq_false_2 by done. by rewrite Hdst. }
  unfold move_image, try_except, except_Exception, except_shutil_Error,
    mkdir, shutil_move, _gen_filename, Path_resolve.
  run. rewrite target_dir_folder. fold dir.
  rewrite (mkdir_existing _ _ Hwf Hdir). simpl.
  unfold n, new_name in *. simpl in *. rewrite Hmove. simpl. eauto.
Qed.

End MoverHandlers.

(** ** Generated names, and the log file as text *)

Section Suffix.

(** A name made of a text without dot and a suffix has that suffix. *)
Lemma suffix_of_generated u s q :
  u ≠ "" → Text.rfind_dot u = None →
  (s = "" ∨ (Text.rfind_dot s = Some 0 ∧ (2 ≤ String.length s)%nat)) →
  Path.suffix (q ++ [u +:+ s]) = s.
Proof.
  intros Hu Hnodot Hs. unfold Path.suffix. rewrite name_snoc.
  rewrite rfind_dot_append.
  destruct Hs as [->|[Hdot Hlen]].
  - simpl. by rewrite Hnodot.
  - rewrite Hdot, Nat.add_0_r, length_append.
    assert (0 < String.length u)%nat as Hpos by (destruct u; [done|simpl; lia]).
    assert ((0 <? String.length u)%nat = true) as -> by (by apply Nat.ltb_lt).
    assert ((String.length u <? String.length u + String.length s - 1)%nat = true)
      as -> by (apply Nat.ltb_lt; lia).
    simpl. apply drop_chars_append.
Qed.

(** X16: a renamed image keeps its type.  The text drawn for a UUID is not
    empty and has no dot; the name [_gen_filename] makes from it and from
    the suffix of an image then has that same suffix, so that the renamed
    file is a supported image exactly when the original was, and one UUID
    has been drawn. *)
Theorem generated_name_keeps_suffix (E : env) p q w :
  e_uuid4 E (w_draws w) ≠ "" →
  Text.rfind_dot (e_uuid4 E (w_draws w)) = None →
  ∃ n, _gen_filename E (Path.suffix p) w = (inr n, next_draw w)
       ∧ n = e_uuid4 E (w_draws w) +:+ Path.suffix p
       ∧ Path.suffix (q ++ [n]) = Path.suffix p
       ∧ supported (q ++ [n]) = supported p.
Proof.
  intros Hu Hnodot. eexists. split; [reflexivity|]. split; [done|].
  assert (Path.suffix (q ++ [e_uuid4 E (w_draws w) +:+ Path.suffix p])
          = Path.suffix p) as Hsuf
    by (apply suffix_of_generated; [done..|apply suffix_cases]).
  split; [done|]. unfold supported. by rewrite Hsuf.
Qed.

End Suffix.

Lemma generated_name_keeps_suffix_witness :
  ∃ n, _gen_filename Example.E (Path.suffix Example.a_jpg) Example.w
       = (inr n, next_draw Example.w)
       ∧ n = "1b4e28ba-2fa1-41d2-883f-0016d3cca427" +:+ ".jpg"
       ∧ Path.suffix (["photos"; "1984"] ++ [n]) = Path.suffix Example.a_jpg
       ∧ supported (["photos"; "1984"] ++ [n]) = supported Example.a_jpg.
Proof.
  apply (generated_name_keeps_suffix Example.E Example.a_jpg
           ["photos"; "1984"] Example.w).
  - discriminate.
  - reflexivity.
Defined.

Section LogText.

Lemma write_log_text_nonempty dt message content :
  content ≠ "" →
  write_log_text dt message content
  = content +:+ newline +:+ newline +:+ log_line (dt, message).
Proof.
  intros Hne. unfold write_log_text, log_line. cbv zeta. cbn [fst snd].
  assert ((0 <? String.length (take_chars 100 content))%nat = true) as ->.
  { apply Nat.ltb_lt. destruct content; [done|simpl; lia]. }
  by rewrite !append_assoc.
Qed.

Lemma write_log_text_empty dt message :
  write_log_text dt message EmptyString
  = log_header +:+ newline +:+ log_line (dt, message).
Proof. reflexivity. Qed.

Lemma concat_cons (x : string) xs :
  String.concat EmptyString (x :: xs) = x +:+ String.concat EmptyString xs.
Proof. destruct xs; [by rewrite append_empty_r|done]. Qed.

Lemma write_all_nonempty entries : ∀ content,
  content ≠ "" →
  write_all entries content
  = content +:+ String.concat EmptyString
      (map (λ e, newline +:+ newline +:+ log_line e) entries).
Proof.
  induction entries as [|[dt message] entries IH]; intros content Hne.
  - simpl. by rewrite append_empty_r.
  - unfold write_all. cbn [fold_left].
    fold (write_all entries (write_log_text dt message content)).
    rewrite write_log_text_nonempty by done.
    rewrite IH by (by apply append_not_empty).
    cbn [map]. rewrite concat_cons. by rewrite !append_assoc.
Qed.

(** X17: the log as text.  Written to a file that has text, an entry goes
    to the end, after one empty line, and no header is written; written to
    an empty or missing file, the first entry comes after the header, also
    after one empty line.  So a sequence of entries written to an empty
    file gives the header once, then the lines of the entries with one
    empty line before each; the earlier text is never changed. *)
Theorem log_text_after_writes entry entries content :
  content ≠ "" →
  write_all entries content
  = content +:+ String.concat EmptyString
      (map (λ e, newline +:+ newline +:+ log_line e) entries)
  ∧ write_all (entry :: entries) EmptyString
    = log_header +:+ newline +:+ log_line entry
      +:+ String.concat EmptyString
            (map (λ e, newline +:+ newline +:+ log_line e) entries).
Proof.
  intros Hne. split; [by apply write_all_nonempty|].
  destruct entry as [dt message]. unfold write_all. cbn [fold_left].
  fold (write_all entries (write_log_text dt message EmptyString)).
  rewrite write_log_text_empty, write_all_nonempty by done.
  by rewrite !append_assoc.
Qed.

End LogText.

Lemma log_text_after_writes_witness :
  write_all [("2024-05-01 10:00:01", "2 files were excluded.")]
    "kept from an earlier tool"
  = "kept from an earlier tool" +:+ String.concat EmptyString
      (map (λ e, newline +:+ newline +:+ log_line e)
           [("2024-05-01 10:00:01", "2 files were excluded.")])
  ∧ write_all [("2024-05-01 10:00:00", "3 files were found.");
               ("2024-05-01 10:00:01", "2 files were excluded.")] EmptyString
    = log_header +:+ newline
      +:+ log_line ("2024-05-01 10:00:00", "3 files were found.")
      +:+ String.concat EmptyString
            (map (λ e, newline +:+ newline +:+ log_line e)
                 [("2024-05-01 10:00:01", "2 files were excluded.")]).
Proof.
  apply (log_text_after_writes
           ("2024-05-01 10:00:00", "3 files were found.")
           [("2024-05-01 10:00:01", "2 files were excluded.")]
           "kept from an earlier tool").
  discriminate.
Defined.

(** ** A run of [execute], stage by stage *)

Section Wp.

Lemma wp_bind {A B} (m : M A) (f : A → M B) w Q :
  wp m w (λ r w', match r with
                  | inr a => wp (f a) w' Q
                  | inl e => Q (inl e) w'
                  end) →
  wp (m ≫= f) w Q.
Proof. unfold wp, mbind, M_bind. by destruct (m w) as [[e|a] w']. Qed.

Lemma wp_try {A} (body : M A) handler w Q :
  wp body w (λ r w', match r with
                     | inr a => Q (inr a) w'
                     | inl e => match handler e with
                                | Some h => wp h w' Q
                                | None => Q (inl e) w'
                                end
                     end) →
  wp (try_except body handler) w Q.
Proof.
  unfold wp, try_except. destruct (body w) as [[e|a] w']; simpl; [|done].
  by destruct (handler e).
Qed.

Lemma wp_ret {A} (a : A) w (Q : exn + A → world → Prop) :
  Q (inr a) w → wp (mret a) w Q.
Proof. done. Qed.

Lemma wp_raise {A} e w (Q : exn + A → world → Prop) :
  Q (inl e) w → wp (raise e) w Q.
Proof. done. Qed.

Lemma wp_lift {A} (r : exn + A) w Q : Q r w → wp (lift r) w Q.
Proof. done. Qed.

Lemma wp_modify f w Q : Q (inr ()) (f w) → wp (modify f) w Q.
Proof. done. Qed.

Lemma wp_print s w Q : Q (inr ()) (add_out (Print s) w) → wp (print s) w Q.
Proof. done. Qed.

End Wp.

Section Stages.

Variable E : env.

Lemma wp_get_files root_dir w Q :
  Q (inr (classify (found_paths (w_fs w) root_dir) [] [])) w →
  wp (_get_files root_dir) w Q.
Proof. done. Qed.

Lemma echoes_snoc out m :
  echoes (out ++ [Echo m]) = echoes out ++ [m].
Proof. unfold echoes. by rewrite omap_app. Qed.

(** [_v] echoes first and writes then: the write may fail, and the
    message has been echoed all the same. *)
Lemma wp_v m w v Q :
  w_verbose w = Some v →
  (e_write_log E (w_writes w) m = None →
   ∀ w', w_fs w' = w_fs w → w_verbose w' = Some v →
         w_log w' = w_log w ++ [m] →
         echoes (w_out w') = echoes (w_out w) ++ (if v then [m] else []) →
         Q (inr ()) w') →
  (∀ f w', e_write_log E (w_writes w) m = Some f →
           w_fs w' = w_fs w → w_verbose w' = Some v →
           w_log w' = w_log w →
           echoes (w_out w') = echoes (w_out w) ++ (if v then [m] else []) →
           Q (inl (write_exn f)) w') →
  wp (_v E m) w Q.
Proof.
  intros Hv Hok Hko. unfold wp, _v. run. rewrite Hv.
  destruct v; simpl;
    (destruct (e_write_log E (w_writes w) m) as [f|] eqn:Hw; simpl;
     [apply (Hko f); simpl; rewrite ?echoes_snoc, ?app_nil_r; done
     |apply Hok; simpl; rewrite ?echoes_snoc, ?app_nil_r; done]).
Qed.

Lemma v_all_cons m rest w :
  v_all E (m :: rest) w = (_v E m;; v_all E rest) w.
Proof.
  destruct rest as [|m' rest]; [|done].
  simpl. unfold mbind, M_bind. by destruct (_v E m w) as [[e|[]] w'].
Qed.

(** A report: the messages are written in order up to the first write
    that fails, and echoed up to that one included. *)
Lemma wp_v_all ms : ∀ w v (Q : exn + unit → world → Prop),
  w_verbose w = Some v →
  (∀ w', w_fs w' = w_fs w →
         w_log w' = w_log w ++ ms →
         echoes (w_out w') = echoes (w_out w) ++ (if v then ms else []) →
         Q (inr ()) w') →
  (∀ j n m f w',
     ms !! j = Some m →
     e_write_log E n m = Some f →
     w_fs w' = w_fs w →
     w_log w' = w_log w ++ take j ms →
     echoes (w_out w') = echoes (w_out w) ++ (if v then take (S j) ms else []) →
     Q (inl (write_exn f)) w') →
  wp (v_all E ms) w Q.
Proof.
  induction ms as [|m rest IH]; intros w v Q Hv Hok Hko.
  - apply wp_ret. apply Hok; rewrite ?app_nil_r; try done.
    destruct v; by rewrite app_nil_r.
  - unfold wp. rewrite v_all_cons. apply wp_bind.
    apply (wp_v m w v); [done|..].
    + intros Hw w1 Hfs1 Hv1 Hlog1 Hout1.
      apply (IH w1 v); [done|..].
      * intros w' Hfs Hlog Hout. apply Hok.
        -- by rewrite Hfs.
        -- by rewrite Hlog, Hlog1, <- app_assoc.
        -- rewrite Hout, Hout1, <- app_assoc. by destruct v.
      * intros j n m' f w' Hj Hw' Hfs Hlog Hout.
        apply (Hko (S j) n m' f); [done|done|..].
        -- by rewrite Hfs.
        -- by rewrite Hlog, Hlog1, <- app_assoc.
        -- rewrite Hout, Hout1, <- app_assoc. by destruct v.
    + intros f w1 Hw Hfs1 Hv1 Hlog1 Hout1.
      apply (Hko 0 (w_writes w) m f); [done|done|done|..].
      * by rewrite Hlog1, app_nil_r.
      * rewrite Hout1. by destruct v.
Qed.

(** The reader touches neither the file system nor the log, and echoes
    nothing. *)
Lemma read_files_quiet file_paths : ∀ idx total results w,
  let run := read_files E file_paths idx total results w in
  w_fs run.2 = w_fs w ∧ w_log run.2 = w_log w
  ∧ w_verbose run.2 = w_verbose w
  ∧ echoes (w_out run.2) = echoes (w_out w).
Proof.
  induction file_paths as [|f rest IH]; intros idx total results w; simpl; [done|].
  unfold subprocess_run. destruct (e_exiv2 E) as [tool|]; run; [|done].
  set (results' := results ++ _).
  destruct (IH (S idx) total results' (add_out (Progress idx total) w))
    as (Hfs & Hlog & Hv & Hout).
  rewrite Hfs, Hlog, Hv, Hout. simpl. repeat split.
  unfold echoes. rewrite omap_app. simpl. by rewrite app_nil_r.
Qed.

(** It can raise nothing but what a missing tool raises. *)
Lemma wp_reader file_paths w Q :
  (∀ r w', w_fs w' = w_fs w → w_log w' = w_log w →
           w_verbose w' = w_verbose w →
           echoes (w_out w') = echoes (w_out w) →
           (r = inl FileNotFoundError
            ∨ ∃ results, r = inr results
                         ∧ map tr_file_path results = file_paths) →
           Q r w') →
  wp (_get_iptc_keywords E file_paths) w Q.
Proof.
  intros HQ. unfold wp.
  destruct (read_files_quiet file_paths 0 (List.length file_paths) []
              (add_out (Print "Reading tags...") w))
    as (Hfs & Hlog & Hv & Hout).
  assert (echoes (w_out (add_out (Print "Reading tags...") w)) = echoes (w_out w))
    as Hout0.
  { simpl. unfold echoes. rewrite omap_app. simpl. by rewrite app_nil_r. }
  rewrite Hout0 in Hout. simpl in Hfs, Hlog, Hv.
  unfold _get_iptc_keywords. run.
  destruct (e_exiv2 E) as [tool|] eqn:Htool.
  - destruct (read_files_map E tool file_paths 0 (List.length file_paths) []
                (add_out (Print "Reading tags...") w) Htool)
      as (w' & Hrun & _).
    rewrite Hrun in Hfs, Hlog, Hv, Hout. rewrite Hrun. simpl in *.
    apply HQ; simpl; try done.
    + unfold echoes. rewrite omap_app. simpl. rewrite app_nil_r. exact Hout.
    + right. eexists. split; [done|].
      rewrite map_map. simpl. apply map_id.
  - destruct file_paths as [|f rest].
    + simpl. apply HQ; simpl; try done.
      * unfold echoes. rewrite !omap_app. simpl. by rewrite !app_nil_r.
      * right. by exists [].
    + simpl. unfold subprocess_run. rewrite Htool. simpl.
      apply HQ; simpl; try done. by left.
Qed.

Lemma find_target_tags_result files tag_info_search :
  find_target_tags files tag_info_search = inl UnboundLocalError
  ∨ ∃ matches,
      find_target_tags files tag_info_search = inr matches
      ∧ (map mr_file_path matches = map tr_file_path files ∨ matches = []).
Proof.
  unfold find_target_tags. destruct (String.eqb _ _); [|right; exists []; split; [done|by right]].
  destruct (match_files files Unbound []) as [e|matches] eqn:Hrun.
  - left. f_equal. clear -Hrun. revert Hrun.
    generalize (@Unbound (option string)) ([] : list MatchResult).
    induction files as [|f rest IH]; intros m results; simpl; [done|].
    destruct (scan_tags (tr_tags f) m); [by intros [= <-]|]. apply IH.
  - right. exists matches. split; [done|]. left.
    by apply match_files_paths in Hrun.
Qed.

Ltac settle_k k a :=
  do 2 eexists; exists k, a; (split; [reflexivity|]); simpl;
  rewrite ?echoes_snoc, ?length_app, ?app_nil_r; simpl;
  rewrite ?app_nil_r;
  repeat split; try done; try lia.

(** One turn of the Mover tries to log "not moving" once or not at all,
    echoes it when the global says so, and adds one record unless the
    entry is written. *)
Lemma move_image_report img root_dir rename_files lists w v :
  w_verbose w = Some v →
  ∃ lists' w' k a,
    move_image E img root_dir rename_files lists w = (inr lists', w')
    ∧ w_log w' = w_log w ++ replicate k MsgNotMoving
    ∧ echoes (w_out w')
      = echoes (w_out w) ++ (if v then replicate a MsgNotMoving else [])
    ∧ (k ≤ a)%nat
    ∧ ((∀ n, e_write_log E n MsgNotMoving = None) → a = k)
    ∧ k + List.length lists'.1 + List.length lists'.2
      = S (List.length lists.1 + List.length lists.2).
Proof.
  intros Hv.
  unfold move_image, try_except, except_Exception, except_shutil_Error,
    mkdir, shutil_move, _gen_filename, Path_resolve, _v.
  run.
  destruct (Fs.mkdir (target_dir img root_dir) (w_fs w)) as [e|fs1] eqn:Hmk; simpl.
  { settle_k 0 0; by destruct v; rewrite ?app_nil_r. }
  destruct rename_files; simpl.
  - destruct (Fs.shutil_move _ _ fs1) as [[e|[p|]] fs2] eqn:Hmv; simpl;
      [|settle_k 0 0; by destruct v; rewrite ?app_nil_r..].
    destruct e; simpl; try (settle_k 0 0; by destruct v; rewrite ?app_nil_r).
    rewrite Hv.
    destruct v; simpl;
      (destruct (e_write_log E (w_writes w) MsgNotMoving) as [f|] eqn:Hw; simpl;
       [settle_k 0 1; intros Hall; by rewrite Hall in Hw|settle_k 1 1]).
  - destruct (Fs.shutil_move _ _ fs1) as [[e|[p|]] fs2] eqn:Hmv; simpl;
      [|settle_k 0 0; by destruct v; rewrite ?app_nil_r..].
    destruct e; simpl; try (settle_k 0 0; by destruct v; rewrite ?app_nil_r).
    rewrite Hv.
    destruct v; simpl;
      (destruct (e_write_log E (w_writes w) MsgNotMoving) as [f|] eqn:Hw; simpl;
       [settle_k 0 1; intros Hall; by rewrite Hall in Hw|settle_k 1 1]).
Qed.

Lemma move_images_from_report root_dir rename_files v images :
  ∀ idx total lists w,
  w_verbose w = Some v →
  ∃ lists' w' k a,
    move_images_from E images idx total root_dir rename_files lists w
      = (inr lists', w')
    ∧ w_log w' = w_log w ++ replicate k MsgNotMoving
    ∧ echoes (w_out w')
      = echoes (w_out w) ++ (if v then replicate a MsgNotMoving else [])
    ∧ (k ≤ a)%nat
    ∧ ((∀ n, e_write_log E n MsgNotMoving = None) → a = k)
    ∧ k + List.length lists'.1 + List.length lists'.2
      = List.length images + List.length lists.1 + List.length lists.2.
Proof.
  induction images as [|img rest IH]; intros idx total lists w Hv.
  - exists lists, w, 0, 0. simpl. rewrite !app_nil_r.
    repeat split; try done. by destruct v; rewrite ?app_nil_r.
  - destruct (move_image_report img root_dir rename_files lists w v Hv)
      as (lists1 & w1 & k1 & a1 & Hrun & Hlog1 & Hout1 & Hle1 & Hall1 & Hk1).
    destruct (move_image_world E img root_dir rename_files lists w)
      as (lists1' & w1' & Hrun' & Hv1 & _).
    rewrite Hrun in Hrun'. injection Hrun' as <- <-.
    destruct (IH (S idx) total lists1 (add_out (Progress idx total) w1))
      as (lists' & w' & k & a & Hrest & Hlog & Hout & Hle & Hall & Hk).
    { simpl. by rewrite Hv1. }
    exists lists', w', (k1 + k), (a1 + a). cbn [move_images_from].
    rewrite (bind_inr _ _ _ _ _ Hrun). run. rewrite Hrest. split; [done|].
    simpl in Hlog, Hout. rewrite Hlog, Hlog1, replicate_add, <- app_assoc.
    split; [done|]. split; [|split; [lia|split; [|simpl; lia]]].
    + rewrite Hout. unfold echoes at 1. rewrite omap_app. simpl.
      rewrite app_nil_r. fold (echoes (w_out w1)). rewrite Hout1.
      rewrite <- app_assoc, replicate_add. by destruct v.
    + intros Hnone. by rewrite (Hall1 Hnone), (Hall Hnone).
Qed.

(** The Mover never raises and leaves the global alone; with the rename
    flag unset and regular files at distinct paths it keeps every file. *)
Lemma wp_move_images images root_dir rename_files w v Q :
  w_verbose w = Some v →
  (∀ moves w' k a,
     w_verbose w' = Some v →
     w_log w' = w_log w ++ replicate k MsgNotMoving →
     echoes (w_out w')
       = echoes (w_out w) ++ (if v then replicate a MsgNotMoving else []) →
     (k ≤ a)%nat →
     ((∀ n, e_write_log E n MsgNotMoving = None) → a = k) →
     k + List.length moves.1 + List.length moves.2 = List.length images →
     (rename_files = false →
      NoDup (map mr_file_path images) →
      Forall (λ img, Fs.is_file (w_fs w) (mr_file_path img) = true) images →
      keeps_files (w_fs w) (w_fs w')) →
     Q (inr moves) w') →
  wp (_move_images E images root_dir rename_files) w Q.
Proof.
  intros Hv0 HQ. unfold wp, _move_images. run.
  destruct (move_images_from_world E root_dir rename_files images 0
              (List.length images) ([], []) (add_out (Print "Moving images...") w))
    as (lists' & w' & Hrun & Hv & _).
  destruct (move_images_from_report root_dir rename_files v images 0
              (List.length images) ([], []) (add_out (Print "Moving images...") w) Hv0)
    as (lists3 & w3 & k & a & Hrun3 & Hlog & Hout & Hle & Hall & Hk).
  rewrite Hrun in Hrun3. injection Hrun3 as <- <-.
  rewrite Hrun. simpl in *. apply (HQ _ _ k a); simpl.
  - by rewrite Hv.
  - done.
  - unfold echoes at 1. rewrite omap_app. simpl. rewrite app_nil_r.
    fold (echoes (w_out w')). rewrite Hout.
    unfold echoes at 1. rewrite omap_app. simpl. by rewrite app_nil_r.
  - done.
  - done.
  - lia.
  - intros -> Hnodup Hfiles.
    destruct (move_images_from_safe E root_dir images 0 (List.length images)
                ([], []) (add_out (Print "Moving images...") w) Hnodup Hfiles)
      as (lists2 & w2 & news & Hrun2 & Hothers & Hself & _).
    rewrite Hrun in Hrun2. injection Hrun2 as <- <-. simpl in *.
    intros p c Hp.
    destruct (decide (p ∈ map mr_file_path images)) as [Hin|Hnotin].
    + apply list_elem_of_In, in_map_iff in Hin as (img & <- & Himg).
      apply list_elem_of_In in Himg.
      rewrite Forall_forall in Hfiles.
      destruct (is_file_lookup _ _ (Hfiles img Himg)) as [Hne _].
      rewrite node_at_lookup in Hp by done.
      destruct (Hself img c Himg Hp) as [H|H].
      * exists (mr_file_path img). by rewrite node_at_lookup.
      * exists (destination root_dir img).
        by rewrite node_at_lookup by apply destination_not_root.
    + exists p. destruct p as [|x p]; [done|]. by apply Hothers.
Qed.

End Stages.

Section ExecuteOutcome.

Variable E : env.

Lemma keeps_files_refl fs : keeps_files fs fs.
Proof. intros p c Hp. by exists p. Qed.

Lemma valid_paths_files fs root_dir :
  NoDup (classify (found_paths fs root_dir) [] []).1
  ∧ Forall (λ p, Fs.is_file fs p = true)
           (classify (found_paths fs root_dir) [] []).1.
Proof.
  rewrite classify_filter. simpl. split.
  - apply NoDup_filter, found_paths_NoDup.
  - apply Forall_forall. intros p Hp.
    apply list_elem_of_filter in Hp as [_ Hp].
    by apply elem_of_found_paths in Hp as (_ & _ & Hfile).
Qed.

Lemma echoes_print out s : echoes (out ++ [Print s]) = echoes out.
Proof. unfold echoes. rewrite omap_app. simpl. by rewrite app_nil_r. Qed.

Lemma resolve_exn_not_TypeError f : resolve_exn f ≠ TypeError.
Proof. by destruct f. Qed.

Lemma sublist_replicate (m : message) k a :
  (k ≤ a)%nat → sublist (replicate k m) (replicate a m).
Proof.
  intros Hle. replace a with (k + (a - k)) by lia.
  rewrite replicate_add. by apply sublist_inserts_r.
Qed.

Lemma sublist_take_S (ms : list message) j :
  sublist (take j ms) (take (S j) ms).
Proof.
  replace (take j ms) with (take j (take (S j) ms))
    by (rewrite take_take; f_equal; lia).
  apply sublist_take.
Qed.

(** A run that stops before the Mover. *)
Lemma execute_post_early root_dir verbose rename_files
    meta_type tag_type tag_info_search w r w' :
  w_fs w' = w_fs w → w_log w' = w_log w →
  echoes (w_out w') = echoes (w_out w) →
  (r = inr () ∨ r = inl UnboundLocalError
   ∨ (e_resolve E root_dir = None
      ∧ r = inl (resolve_exn (e_unresolved E root_dir))
      ∧ (r = inl NotADirectoryError ∨ r = inl RuntimeError ∨ r = inl OSError))
   ∨ r = inl TypeError
     ∧ ∃ cleaned_args,
         _validate_args (call_args root_dir verbose rename_files
                           meta_type tag_type tag_info_search) = inr cleaned_args
         ∧ is_Some (e_resolve E root_dir)
         ∧ _mode_selector E (a_meta_type cleaned_args) (a_tag_type cleaned_args)
           = None) →
  execute_post E root_dir verbose rename_files
    meta_type tag_type tag_info_search w r w'.
Proof.
  intros Hfs Hlog Hout Hr. unfold execute_post.
  split; [|split; [|split; [|split]]].
  - destruct Hr as [->|[->|[(? & Hr & ?)|[-> _]]]]; auto 10.
  - intros _. rewrite Hfs. apply keeps_files_refl.
  - done.
  - exists [], []. rewrite Hlog, Hout, !app_nil_r.
    split; [done|]. split; [by destruct verbose; rewrite ?app_nil_r|].
    split; [done|]. split; [done|by left].
  - intros ->. destruct Hr as [?|[?|[(_ & Heq & _)|[_ ?]]]]; try done.
    injection Heq as Heq. by destruct (resolve_exn_not_TypeError _ (eq_sym Heq)).
Qed.

Ltac early :=
  apply execute_post_early; simpl; rewrite ?echoes_print; auto.

(** A run that got to its report and stopped after [j] of its messages. *)
Lemma execute_post_late root_dir (verbose : bool) rename_files
    meta_type tag_type tag_info_search w r w' root results matches moves k a j :
  e_resolve E root_dir = Some root →
  (rename_files = false → keeps_files (w_fs w) (w_fs w')) →
  w_log w' = w_log w ++ replicate k MsgNotMoving
             ++ take j (report root (classify (found_paths (w_fs w) root) [] [])
                          results matches moves) →
  echoes (w_out w')
  = echoes (w_out w)
    ++ (if verbose
        then replicate a MsgNotMoving
             ++ take (S j) (report root
                              (classify (found_paths (w_fs w) root) [] [])
                              results matches moves)
        else []) →
  (k ≤ a)%nat →
  ((∀ n, e_write_log E n MsgNotMoving = None) → a = k) →
  k + List.length moves.1 + List.length moves.2 = List.length matches →
  report_end E (report root (classify (found_paths (w_fs w) root) [] [])
                  results matches moves) j r →
  execute_post E root_dir verbose rename_files
    meta_type tag_type tag_info_search w r w'.
Proof.
  intros Hroot Hkeep Hlog Hout Hle Hall Hk Hend.
  set (ms := report root (classify (found_paths (w_fs w) root) [] [])
               results matches moves) in *.
  assert (r = inr () ∨ r = inl OSError ∧ ∃ n m, e_write_log E n m = Some CannotWrite)
    as Hr.
  { destruct Hend as [[_ ->]|(n & m & f & _ & Hw & ->)]; [by left|].
    destruct f; [right; eauto|by left]. }
  unfold execute_post. split; [|split; [done|split; [|split]]].
  - destruct Hr as [->|[-> ?]]; auto 10.
  - intros [->|[->|Hnone]]; [| |congruence];
      destruct Hr as [?|[? _]]; done.
  - exists (replicate k MsgNotMoving ++ take j ms),
      (replicate a MsgNotMoving ++ take (S j) ms).
    split; [done|]. split; [done|]. split; [|split].
    + apply sublist_app; [by apply sublist_replicate|apply sublist_take_S].
    + intros Hnone. rewrite Hall by (intros n; apply Hnone). f_equal.
      destruct Hend as [[-> _]|(n & m & f & _ & Hw & _)].
      * by rewrite !take_ge by lia.
      * by rewrite Hnone in Hw.
    + right. exists root, results, matches, moves, k, j. by fold ms.
  - intros ->. destruct Hr as [?|[? _]]; done.
Qed.

(** What a run can end in, what it keeps, and what it logs. *)
Lemma execute_outcome root_dir verbose rename_files
    meta_type tag_type tag_info_search w :
  wp (execute E root_dir verbose rename_files meta_type tag_type tag_info_search)
     w
     (execute_post E root_dir verbose rename_files
        meta_type tag_type tag_info_search w).
Proof.
  unfold execute. apply wp_try. apply wp_bind, wp_lift.
  fold (call_args root_dir verbose rename_files meta_type tag_type tag_info_search).
  destruct (_validate_args _) as [e|cleaned] eqn:Hargs.
  { destruct (validate_args_error _ _ Hargs) as [msg ->]. simpl.
    apply wp_print. early. }
  apply wp_bind, wp_modify. apply wp_bind. unfold resolve_strict.
  destruct (e_resolve E root_dir) as [root|] eqn:Hroot;
    [apply wp_ret|apply wp_raise].
  2:{ destruct (e_unresolved E root_dir) eqn:Hf; simpl;
        [apply wp_print; early| |apply wp_print; early| |];
        (early; right; right; left; rewrite Hf; simpl; auto). }
  apply wp_bind, wp_print. apply wp_bind, wp_get_files. simpl.
  set (files := classify (found_paths (w_fs w) root) [] []).
  apply wp_bind.
  destruct (_mode_selector E _ _) as [reader|] eqn:Hsel;
    [apply wp_ret|apply wp_raise].
  2:{ simpl. early.
      right; right; right. split; [done|]. exists cleaned. by rewrite Hroot. }
  assert (reader = _get_iptc_keywords E) as ->.
  { unfold _mode_selector in Hsel. destruct (_ && _); by inversion Hsel. }
  apply wp_bind, wp_reader. simpl.
  intros r w3 Hfs3 Hlog3 Hv3 Hout3 Hr.
  assert (echoes (w_out w3) = echoes (w_out w)) as Hout3'
    by (by rewrite Hout3, echoes_print).
  destruct Hr as [->|(results & -> & Hpaths)].
  { simpl. apply wp_print. early. }
  apply wp_bind, wp_lift.
  destruct (find_target_tags_result results (a_tag_info_search cleaned))
    as [->|(matches & -> & Hmatches)].
  { simpl. early. }
  apply wp_bind. eapply wp_move_images; [by rewrite Hv3|].
  intros moves w4 k a Hv4 Hlog4 Hout4 Hle Hall Hk Hkeep.
  assert (rename_files = false → keeps_files (w_fs w) (w_fs w4)) as Hkept.
  { intros Hrf. rewrite <- Hfs3. apply Hkeep; [done|..].
    - destruct Hmatches as [->| ->]; [|constructor].
      rewrite Hpaths. apply valid_paths_files.
    - destruct Hmatches as [Hm| ->]; [|constructor].
      apply Forall_forall. intros img Himg. rewrite Hfs3.
      destruct (valid_paths_files (w_fs w) root) as [_ Hfiles].
      rewrite Forall_forall in Hfiles. apply Hfiles.
      fold files. rewrite <- Hpaths, <- Hm.
      apply list_elem_of_fmap. by exists img. }
  match goal with
  | |- wp _ ?w0 ?Q =>
      change (wp (v_all E (report root files results matches moves)) w0 Q)
  end.
  apply (wp_v_all E _ w4 verbose); [done|..].
  - intros w5 Hfs5 Hlog5 Hout5.
    apply (execute_post_late _ _ _ _ _ _ _ _ _ root results matches moves k a 8);
      try done.
    + intros Hrf. rewrite Hfs5. by apply Hkept.
    + rewrite Hlog5, Hlog4, Hlog3. by rewrite <- app_assoc.
    + rewrite Hout5, Hout4, Hout3'. fold files.
      destruct verbose; by rewrite <- ?app_assoc, ?app_nil_r.
    + by left.
  - intros j n m f w5 Hj Hw Hfs5 Hlog5 Hout5.
    assert (execute_post E root_dir verbose rename_files
              meta_type tag_type tag_info_search w
              (match f with
               | CannotWrite => inl OSError
               | CannotEncode _ => inr ()
               end) w5) as Hpost.
    { apply (execute_post_late _ _ _ _ _ _ _ _ _ root results matches moves k a j);
        try done.
      + intros Hrf. rewrite Hfs5. by apply Hkept.
      + rewrite Hlog5, Hlog4, Hlog3. by rewrite <- app_assoc.
      + rewrite Hout5, Hout4, Hout3'. fold files.
        destruct verbose; by rewrite <- ?app_assoc, ?app_nil_r.
      + right. by exists n, m, f. }
    destruct f as [|msg]; simpl; [exact Hpost|].
    apply wp_print. unfold execute_post in *. simpl.
    by rewrite echoes_print.
Qed.

(** X18: what can escape [execute], by origin.  A run ends normally, or
    lets escape [TypeError] (no reader for the mode), [UnboundLocalError]
    (the Matcher), what the resolution of the root raised when that is
    [NotADirectoryError], [RuntimeError] or another [OSError], or the
    [OSError] of a write to the log file; nothing else escapes, in
    particular no [FileNotFoundError], no [ValueError], no [NameError]
    and no error of a move.  When [TypeError] or [UnboundLocalError]
    escapes, or the root did not resolve, the file system and the log
    file are as they were before the run. *)
Theorem execute_escapes_by_origin root_dir verbose rename_files
    meta_type tag_type tag_info_search w :
  let run := execute E root_dir verbose rename_files
               meta_type tag_type tag_info_search w in
  (run.1 = inr ()
   ∨ run.1 = inl TypeError
   ∨ run.1 = inl UnboundLocalError
   ∨ (e_resolve E root_dir = None
      ∧ run.1 = inl (resolve_exn (e_unresolved E root_dir))
      ∧ (run.1 = inl NotADirectoryError ∨ run.1 = inl RuntimeError
         ∨ run.1 = inl OSError))
   ∨ (run.1 = inl OSError ∧ ∃ n m, e_write_log E n m = Some CannotWrite))
  ∧ (run.1 = inl TypeError ∨ run.1 = inl UnboundLocalError
     ∨ e_resolve E root_dir = None →
     w_fs run.2 = w_fs w ∧ w_log run.2 = w_log w).
Proof.
  destruct (execute_outcome root_dir verbose rename_files
              meta_type tag_type tag_info_search w)
    as (H1 & _ & H3 & _).
  split; [exact H1|exact H3].
Qed.

(** X19: with the rename flag unset a run loses no file: however it ends,
    the content of every regular file of the file system it started from
    is the content of a regular file of the file system it leaves. *)
Theorem execute_keeps_every_file root_dir verbose
    meta_type tag_type tag_info_search w :
  let run := execute E root_dir verbose false
               meta_type tag_type tag_info_search w in
  ∀ p c, Fs.node_at (w_fs w) p = Some (File c) →
         ∃ p', Fs.node_at (w_fs run.2) p' = Some (File c).
Proof.
  destruct (execute_outcome root_dir verbose false
              meta_type tag_type tag_info_search w) as (_ & H & _).
  by apply H.
Qed.

(** X20: the echo covers the log.  [_v] echoes a message before it
    writes it, and the write can fail: over a whole run the entries
    appended to the log file are, in their order, among the messages for
    which [_v] was called, which are the messages echoed to the console
    when the verbose flag is set; when no write fails the two sequences
    are equal.  When the flag is unset nothing is echoed. *)
Theorem echo_covers_log root_dir verbose rename_files
    meta_type tag_type tag_info_search w :
  let run := execute E root_dir verbose rename_files
               meta_type tag_type tag_info_search w in
  ∃ entries attempts,
    w_log run.2 = w_log w ++ entries
    ∧ echoes (w_out run.2) = echoes (w_out w) ++ (if verbose then attempts else [])
    ∧ sublist entries attempts
    ∧ ((∀ n m, e_write_log E n m = None) → attempts = entries).
Proof.
  destruct (execute_outcome root_dir verbose rename_files
              meta_type tag_type tag_info_search w)
    as (_ & _ & _ & (entries & attempts & Hlog & Hout & Hsub & Hall & _) & _).
  by exists entries, attempts.
Qed.

(** X21: what a run logs is the start of a report.  Either the log file
    is as it was, or the root resolved and the log got one "not moving"
    entry per refused move that could be logged, followed by the first j
    of the eight messages of the report, in the order of the code, the
    counts and the lists of found and excluded files being those of the
    file system the run started from; refused moves that were logged,
    successes and failures add up to the number of match results.  All
    eight are there when the run returns with every write done;
    otherwise the write of the next message failed, and the run returned
    after printing the error of the encoding, or let [OSError] escape. *)
Theorem log_is_start_of_report root_dir verbose rename_files
    meta_type tag_type tag_info_search w :
  let run := execute E root_dir verbose rename_files
               meta_type tag_type tag_info_search w in
  w_log run.2 = w_log w
  ∨ ∃ root results image_matches moves k j,
      e_resolve E root_dir = Some root
      ∧ w_log run.2
        = w_log w ++ replicate k MsgNotMoving
          ++ take j (report root (classify (found_paths (w_fs w) root) [] [])
                       results image_matches moves)
      ∧ k + List.length moves.1 + List.length moves.2
        = List.length image_matches
      ∧ report_end E (report root (classify (found_paths (w_fs w) root) [] [])
                        results image_matches moves) j run.1.
Proof.
  destruct (execute_outcome root_dir verbose rename_files
              meta_type tag_type tag_info_search w)
    as (_ & _ & _ & (entries & attempts & Hlog & _ & _ & _ & Hentries) & _).
  destruct Hentries
    as [->|(root & results & matches & moves & k & j & Hroot & -> & Hk & Hend)].
  - left. by rewrite Hlog, app_nil_r.
  - right. exists root, results, matches, moves, k, j. by rewrite Hlog.
Qed.

End ExecuteOutcome.

Section ExecuteEdges.

Variable E : env.

Lemma mode_selector_none meta_type tag_type :
  option_ok meta_type "IPTC" → option_ok tag_type "KEYWORDS" →
  _mode_selector E (Text.upper meta_type) (Text.upper tag_type) = None
  ↔ meta_type = "" ∨ tag_type = "".
Proof.
  intros Hm Ht. unfold _mode_selector.
  destruct Hm as [->|Hm]; [simpl; split; [by left|done]|].
  destruct Ht as [->|Ht].
  { rewrite Hm. simpl. split; [by right|done]. }
  rewrite Hm, Ht. simpl. split; [done|].
  intros [->| ->]; done.
Qed.

Lemma get_iptc_keywords_run tool file_paths w :
  e_exiv2 E = Some tool →
  ∃ w', _get_iptc_keywords E file_paths w
          = (inr (map (read_of tool) file_paths), w')
        ∧ w_fs w' = w_fs w ∧ w_log w' = w_log w.
Proof.
  intros Htool. unfold _get_iptc_keywords. run.
  destruct (read_files_map E tool file_paths 0 (List.length file_paths) []
              (add_out (Print "Reading tags...") w) Htool)
    as (w' & Hrun & Hfs & Hlog & _).
  rewrite Hrun. simpl. eauto.
Qed.

(** A run with validated arguments and a root that resolves, up to the
    choice of the reader. *)
Lemma execute_no_reader root_dir verbose rename_files
    meta_type tag_type tag_info_search w cleaned_args root :
  _validate_args (call_args root_dir verbose rename_files
                    meta_type tag_type tag_info_search) = inr cleaned_args →
  e_resolve E root_dir = Some root →
  _mode_selector E (a_meta_type cleaned_args) (a_tag_type cleaned_args) = None →
  execute E root_dir verbose rename_files meta_type tag_type tag_info_search w
  = (inl TypeError, add_out (Print "Starting process...") (set_verbose verbose w)).
Proof.
  intros Hargs Hroot Hsel. unfold execute.
  fold (call_args root_dir verbose rename_files meta_type tag_type tag_info_search).
  erewrite try_except_inl; last first.
  { run. rewrite Hargs. simpl. unfold resolve_strict. rewrite Hroot. simpl.
    unfold _get_files. run. rewrite Hsel. reflexivity. }
  reflexivity.
Qed.

(** X22: [execute] ends in [TypeError] exactly when the arguments pass
    [_validate_args], the root resolves, and the meta type or the tag type
    is the empty string: [_mode_selector] then returns [None], which is
    called.  By then the run has printed "Starting process..." and done
    nothing else. *)
Theorem type_error_iff_empty_mode root_dir verbose rename_files
    meta_type tag_type tag_info_search w :
  let run := execute E root_dir verbose rename_files
               meta_type tag_type tag_info_search w in
  (run.1 = inl TypeError
   ↔ starts_with_dot root_dir = false
     ∧ option_ok meta_type "IPTC"
     ∧ option_ok tag_type "KEYWORDS"
     ∧ option_ok tag_info_search "YEAR"
     ∧ is_Some (e_resolve E root_dir)
     ∧ (meta_type = "" ∨ tag_type = ""))
  ∧ (run.1 = inl TypeError →
     run.2 = add_out (Print "Starting process...") (set_verbose verbose w)).
Proof.
  assert ((execute E root_dir verbose rename_files
             meta_type tag_type tag_info_search w).1 = inl TypeError →
          starts_with_dot root_dir = false
          ∧ option_ok meta_type "IPTC"
          ∧ option_ok tag_type "KEYWORDS"
          ∧ option_ok tag_info_search "YEAR"
          ∧ is_Some (e_resolve E root_dir)
          ∧ (meta_type = "" ∨ tag_type = "")) as Hif.
  { intros Hrun.
    destruct (execute_outcome E root_dir verbose rename_files
                meta_type tag_type tag_info_search w)
      as (_ & _ & _ & _ & Htype).
    destruct (Htype Hrun) as (cleaned & Hargs & Hroot & Hsel).
    apply validate_args_spec in Hargs as (Hdot & Hm & Ht & Hs & ->).
    simpl in *. repeat split; try done.
    by apply (mode_selector_none meta_type tag_type). }
  assert (starts_with_dot root_dir = false
          ∧ option_ok meta_type "IPTC"
          ∧ option_ok tag_type "KEYWORDS"
          ∧ option_ok tag_info_search "YEAR"
          ∧ is_Some (e_resolve E root_dir)
          ∧ (meta_type = "" ∨ tag_type = "") →
          execute E root_dir verbose rename_files
            meta_type tag_type tag_info_search w
          = (inl TypeError,
             add_out (Print "Starting process...") (set_verbose verbose w)))
    as Honly.
  { intros (Hdot & Hm & Ht & Hs & [root Hroot] & Hempty).
    apply (execute_no_reader _ _ _ _ _ _ _
             (upper_options (call_args root_dir verbose rename_files
                               meta_type tag_type tag_info_search)) root).
    - by apply validate_args_spec.
    - done.
    - simpl. by apply mode_selector_none. }
  simpl. split; [split|].
  - exact Hif.
  - intros H. by rewrite (Honly H).
  - intros H. by rewrite (Honly (Hif H)).
Qed.

(** X23: a missing tool is reported as a missing root.  When there is no
    [exiv2] executable and at least one supported file is found,
    [subprocess.run] raises [FileNotFoundError] at the first file and the
    handler of [execute] prints "Root directory was not found. Aborting
    attempt." for a root that resolved; nothing is moved or logged. *)
Theorem missing_tool_reported_as_missing_root root_dir verbose rename_files
    meta_type tag_type tag_info_search w cleaned_args root p :
  e_exiv2 E = None →
  _validate_args (call_args root_dir verbose rename_files
                    meta_type tag_type tag_info_search) = inr cleaned_args →
  a_meta_type cleaned_args = "IPTC" →
  a_tag_type cleaned_args = "KEYWORDS" →
  e_resolve E root_dir = Some root →
  p ∈ found_paths (w_fs w) root →
  supported p = true →
  execute E root_dir verbose rename_files meta_type tag_type tag_info_search w
  = (inr (),
     add_out (Print "Root directory was not found. Aborting attempt.")
       (add_out (Print "Reading tags...")
          (add_out (Print "Starting process...") (set_verbose verbose w)))).
Proof.
  intros Htool Hargs Hm Ht Hroot Hp Hsup. unfold execute.
  fold (call_args root_dir verbose rename_files meta_type tag_type tag_info_search).
  assert (∃ f rest, (classify (found_paths (w_fs w) root) [] []).1 = f :: rest)
    as (f & rest & Hfiles).
  { rewrite classify_filter. simpl.
    destruct (filter (λ p, supported p) (found_paths (w_fs w) root))
      as [|f rest] eqn:Hfilter; [|by eauto].
    assert (p ∈ filter (λ p, supported p) (found_paths (w_fs w) root)) as Hin
      by (apply list_elem_of_filter; by rewrite Hsup).
    rewrite Hfilter in Hin. by apply elem_of_nil in Hin. }
  erewrite try_except_inl; last first.
  { run. rewrite Hargs. simpl. unfold resolve_strict. rewrite Hroot. simpl.
    unfold _get_files, _mode_selector. run. rewrite Hm, Ht. simpl.
    rewrite Hfiles. unfold _get_iptc_keywords. run.
    unfold subprocess_run. rewrite Htool. reflexivity. }
  reflexivity.
Qed.

(** X24: an image without IPTC data first in the batch stops the whole
    run: when the tool prints no line for the first supported file found,
    [find_target_tags] reads its variable [match] before any assignment
    and [execute] ends in [UnboundLocalError], with nothing moved and
    nothing logged. *)
Theorem first_image_without_tags_stops_run root_dir verbose rename_files
    meta_type tag_type tag_info_search w cleaned_args root tool f rest :
  e_exiv2 E = Some tool →
  _validate_args (call_args root_dir verbose rename_files
                    meta_type tag_type tag_info_search) = inr cleaned_args →
  a_meta_type cleaned_args = "IPTC" →
  a_tag_type cleaned_args = "KEYWORDS" →
  a_tag_info_search cleaned_args = "YEAR" →
  e_resolve E root_dir = Some root →
  (classify (found_paths (w_fs w) root) [] []).1 = f :: rest →
  Text.splitlines (tool f).1 = [] →
  ∃ w', execute E root_dir verbose rename_files
          meta_type tag_type tag_info_search w = (inl UnboundLocalError, w')
        ∧ w_fs w' = w_fs w ∧ w_log w' = w_log w.
Proof.
  intros Htool Hargs Hm Ht Hs Hroot Hfiles Hlines. unfold execute.
  fold (call_args root_dir verbose rename_files meta_type tag_type tag_info_search).
  destruct (get_iptc_keywords_run tool (f :: rest)
              (add_out (Print "Starting process...") (set_verbose verbose w))
              Htool)
    as (w1 & Hread & Hfs & Hlog).
  erewrite try_except_inl; last first.
  { run. rewrite Hargs. simpl. unfold resolve_strict. rewrite Hroot. simpl.
    unfold _get_files, _mode_selector. run. rewrite Hm, Ht. simpl.
    rewrite Hfiles, Hread. simpl. rewrite Hs.
    rewrite untagged_first_raises; [reflexivity|].
    simpl. by rewrite Hlines. }
  simpl. eexists. split; [reflexivity|]. simpl. by rewrite Hfs, Hlog.
Qed.

End ExecuteEdges.

(** ** Instances in the example worlds *)

Lemma fs_blocked_wf : Fs.wf Cases.fs_blocked.
Proof. apply (bool_decide_unpack (Fs.wf Cases.fs_blocked)). vm_compute. exact I. Defined.

Lemma mover_never_loses_a_file_witness :
  ∃ successful errors w',
    _move_images Example.E
      [Example.found Example.a_jpg (Some "1984");
       Example.found Example.a_jpg' (Some "1984");
       Example.found Example.b_png None]
      Example.root false Example.w
    = (inr (successful, errors), w')
    ∧ (∀ c, Fs.node_at Example.fs Example.a_jpg' = Some (File c) →
            Fs.node_at (w_fs w') Example.a_jpg' = Some (File c)
            ∨ Fs.node_at (w_fs w') ["photos"; "1984"; "a.jpg"] = Some (File c))
    ∧ Fs.node_at (w_fs w') Example.notes = Some (File "text").
Proof.
  destruct (mover_never_loses_a_file Example.E
              [Example.found Example.a_jpg (Some "1984");
               Example.found Example.a_jpg' (Some "1984");
               Example.found Example.b_png None]
              Example.root Example.w)
    as (successful & errors & w' & Hrun & Hothers & Hself & _).
  - apply (bool_decide_unpack
             (NoDup (map mr_file_path
                       [Example.found Example.a_jpg (Some "1984");
                        Example.found Example.a_jpg' (Some "1984");
                        Example.found Example.b_png None]))).
    vm_compute. exact I.
  - apply (bool_decide_unpack
             (Forall (λ img, Fs.is_file (w_fs Example.w) (mr_file_path img) = true)
                [Example.found Example.a_jpg (Some "1984");
                 Example.found Example.a_jpg' (Some "1984");
                 Example.found Example.b_png None])).
    vm_compute. exact I.
  - exists successful, errors, w'. split; [exact Hrun|]. split.
    + intros c.
      apply (Hself (Example.found Example.a_jpg' (Some "1984")) c).
      apply (bool_decide_unpack _). vm_compute. exact I.
    + apply (Hothers Example.notes (File "text")).
      * apply (bool_decide_unpack _). vm_compute. exact I.
      * reflexivity.
Defined.

Lemma mover_leaves_organised_tree_witness :
  ∃ w', _move_images Example.E
          [Example.found ["photos"; "1984"; "a.jpg"] (Some "1984")]
          Example.root false Example.w_later
        = (inr ([], []), w')
        ∧ w_fs w' = Example.fs_later
        ∧ w_log w' = [MsgNotMoving].
Proof.
  destruct (mover_leaves_organised_tree Example.E
              [Example.found ["photos"; "1984"; "a.jpg"] (Some "1984")]
              Example.root Example.w_later false)
    as (errors & w' & Hrun & Hfs & Hlog & _ & Hnone).
  - exact fs_later_wf.
  - reflexivity.
  - apply (bool_decide_unpack
             (Forall (λ img, mr_file_path img = destination Example.root img
                             ∧ Fs.exists_ (w_fs Example.w_later)
                                 (mr_file_path img) = true)
                [Example.found ["photos"; "1984"; "a.jpg"] (Some "1984")])).
    vm_compute. exact I.
  - rewrite (Hnone (λ n, eq_refl)) in Hrun, Hlog.
    exists w'. split; [exact Hrun|]. split; [exact Hfs|exact Hlog].
Defined.

Lemma folder_name_taken_witness :
  move_image Example.E (Example.found Example.a_jpg (Some "1984"))
    Example.root true ([], []) Cases.w_blocked
  = (inr ([], [{| mf_old_filepath := Example.a_jpg;
                  mf_error := FileExistsError |}]),
     Cases.w_blocked).
Proof.
  apply (folder_name_taken_by_file Example.E
           (Example.found Example.a_jpg (Some "1984"))
           Example.root true ([], []) Cases.w_blocked "prints").
  - exact fs_blocked_wf.
  - reflexivity.
  - reflexivity.
Defined.

Lemma vanished_image_witness :
  ∃ w', move_image Example.E (Example.found ["photos"; "gone.jpg"] (Some "1984"))
          Example.root false ([], []) Example.w
        = (inr ([], [{| mf_old_filepath := ["photos"; "gone.jpg"];
                        mf_error := FileNotFoundError |}]),
           w')
        ∧ w_fs w' = with_dir Example.fs Example.root "1984"
        ∧ Fs.is_dir (w_fs w') ["photos"; "1984"] = true.
Proof.
  apply (vanished_image_leaves_folder Example.E
           (Example.found ["photos"; "gone.jpg"] (Some "1984"))
           Example.root false ([], []) Example.w).
  - exact fs_wf.
  - reflexivity.
  - reflexivity.
  - apply (bool_decide_unpack _). vm_compute. exact I.
  - reflexivity.
  - reflexivity.
Defined.

Lemma missing_tool_witness :
  execute Cases.E_no_tool "/photos" false false "iptc" "keywords" "year" Example.w
  = (inr (),
     add_out (Print "Root directory was not found. Aborting attempt.")
       (add_out (Print "Reading tags...")
          (add_out (Print "Starting process...") (set_verbose false Example.w)))).
Proof.
  apply (missing_tool_reported_as_missing_root Cases.E_no_tool
           "/photos" false false "iptc" "keywords" "year" Example.w
           (upper_options (call_args "/photos" false false "iptc" "keywords" "year"))
           Example.root Example.a_jpg).
  - reflexivity.
  - reflexivity.
  - reflexivity.
  - reflexivity.
  - reflexivity.
  - apply (bool_decide_unpack _). vm_compute. exact I.
  - reflexivity.
Defined.

Lemma first_image_without_tags_witness :
  ∃ w', execute Example.E "/photos" true false "IPTC" "KEYWORDS" "YEAR" Cases.w_bare
        = (inl UnboundLocalError, w')
        ∧ w_fs w' = Cases.fs_bare ∧ w_log w' = [].
Proof.
  apply (first_image_without_tags_stops_run Example.E
           "/photos" true false "IPTC" "KEYWORDS" "YEAR" Cases.w_bare
           (call_args "/photos" true false "IPTC" "KEYWORDS" "YEAR")
           Example.root Example.tool Example.b_png []).
  - reflexivity.
  - reflexivity.
  - reflexivity.
  - reflexivity.
  - reflexivity.
  - reflexivity.
  - vm_compute. reflexivity.
  - reflexivity.
Defined.

Lemma execute_keeps_every_file_witness :
  ∃ p', Fs.node_at
          (w_fs (execute Example.E "/photos" false false
                   "IPTC" "KEYWORDS" "YEAR" Example.w).2) p'
        = Some (File "second").
Proof.
  apply (execute_keeps_every_file Example.E "/photos" false
           "IPTC" "KEYWORDS" "YEAR" Example.w Example.a_jpg' "second").
  reflexivity.
Defined.

Lemma fs_drawn_wf : Fs.wf Cases.fs_drawn.
Proof. apply (bool_decide_unpack (Fs.wf Cases.fs_drawn)). vm_compute. exact I. Defined.

Lemma collision_without_global_witness :
  move_image Example.E (Example.found Example.a_jpg' (Some "1984"))
    Example.root false ([], []) Cases.w_unset
  = (inr ([], [{| mf_old_filepath := Example.a_jpg';
                  mf_error := NameError |}]),
     Cases.w_unset).
Proof.
  apply (collision_without_global_is_a_failure Example.E
           (Example.found Example.a_jpg' (Some "1984"))
           Example.root ([], []) Cases.w_unset).
  - exact fs_later_wf.
  - reflexivity.
  - reflexivity.
  - apply (bool_decide_unpack _). vm_compute. exact I.
Defined.

Lemma renamed_move_replaces_witness :
  ∃ w', move_image Example.E (Example.found Example.a_jpg (Some "1984"))
          Example.root true ([], []) Cases.w_drawn
        = (inr ([{| ms_new_filepath :=
                      ["photos"; "1984"; "1b4e28ba-2fa1-41d2-883f-0016d3cca427.jpg"];
                    ms_old_filepath := Example.a_jpg |}], []), w')
        ∧ Fs.node_at (w_fs w')
            ["photos"; "1984"; "1b4e28ba-2fa1-41d2-883f-0016d3cca427.jpg"]
          = Some (File "first")
        ∧ Fs.node_at (w_fs w') Example.a_jpg = None
        ∧ w_log w' = [].
Proof.
  apply (renamed_move_replaces_existing_file Example.E
           (Example.found Example.a_jpg (Some "1984"))
           Example.root ([], []) Cases.w_drawn "first" "old").
  - exact fs_drawn_wf.
  - reflexivity.
  - reflexivity.
  - apply (bool_decide_unpack _). vm_compute. exact I.
Defined.
